(** * Real-time synchronisation subsystem: websocket client actor and
      JSON/backlog endpoints (server/json.go and the websockets package)

    A shallow embedding of the Go sources.  Go values are modelled as follows:
    - [[]byte] is [list byte], a Go [string] is [string] (a sequence of 8-bit
      characters), with [string(b)] and [[]byte(s)] written out as the two
      conversions [string_of_bytes] and [bytes_of_string];
    - [uint64], [uint8] ([messageType]) are [N], [int] and [int64] are [Z];
    - a Go [(value, error)] pair is a [result];
    - Go maps are stdpp [gmap]s;
    - methods on [*Client] are computations in a small state monad over the
      client that also records the calls made on the connection, on the
      handler table and on the registry, and that can panic. *)

From Stdlib Require Import NArith ZArith Strings.String Strings.Ascii Strings.Byte Lia.
From stdpp Require Import base gmap strings list.

Open Scope N_scope.

(** ** Go values *)

Inductive result (E A : Type) : Type :=
| Ok (a : A)
| Err (e : E).
Arguments Ok {E A} a.
Arguments Err {E A} e.

Definition is_ok {E A} (r : result E A) : bool :=
  match r with Ok _ => true | Err _ => false end.

Definition bytes_of_string (s : string) : list byte := list_byte_of_string s.
Definition string_of_bytes (b : list byte) : string := string_of_list_byte b.

(** The builtin [copy(dst, src)]: overwrites the first
    [min(len(dst), len(src))] elements of [dst]. *)
Definition copy (dst src : list byte) : list byte :=
  take (length dst) src ++ drop (length src) dst.

(** ** Package strconv (Go standard library, base 10 only) *)

Module Strconv.

Inductive NumError : Type := ErrSyntax | ErrRange.

Definition maxUint64 : N := 18446744073709551615.

Definition is_digit (c : ascii) : bool :=
  (48 <=? N_of_ascii c) && (N_of_ascii c <=? 57).

(** The digit loop of [ParseUint] for base 10: [n] is the value read so far,
    [maxVal] the largest value of the requested bit size.  Arithmetic is on
    [uint64], so the sum wraps modulo 2^64 and the wrap is detected. *)
Fixpoint parseDigits (maxVal : N) (s : string) (n : N) : result NumError N :=
  match s with
  | EmptyString => Ok n
  | String c rest =>
      if is_digit c then
        let d := N_of_ascii c - 48 in
        if maxUint64 / 10 + 1 <=? n then Err ErrRange
        else
          let n10 := n * 10 in
          let n1 := (n10 + d) mod 2 ^ 64 in
          if (n1 <? n10) || (maxVal <? n1) then Err ErrRange
          else parseDigits maxVal rest n1
      else Err ErrSyntax
  end.

(** [strconv.ParseUint(s, 10, bitSize)]: no sign is accepted, the empty string
    is a syntax error, [bitSize] 0 means the size of [int] (64 bits). *)
Definition ParseUint (s : string) (bitSize : N) : result NumError N :=
  match s with
  | EmptyString => Err ErrSyntax
  | _ =>
      let bits := if bitSize =? 0 then 64 else bitSize in
      parseDigits (2 ^ bits - 1) s 0
  end.

(** [strconv.ParseInt(s, 10, 64)]: an optional sign, then [ParseUint]. *)
Definition ParseInt64 (s : string) : result NumError Z :=
  match s with
  | EmptyString => Err ErrSyntax
  | String c rest =>
      let neg := Ascii.eqb c "-" in
      let body := if Ascii.eqb c "+" || neg then rest else s in
      match ParseUint body 64 with
      | Err e => Err e
      | Ok un =>
          let cutoff := 2 ^ 63 in
          if negb neg && (cutoff <=? un) then Err ErrRange
          else if neg && (cutoff <? un) then Err ErrRange
          else Ok (if neg then (- Z.of_N un)%Z else Z.of_N un)
      end
  end.

(** [strconv.Atoi(s)] is [ParseInt(s, 10, 0)] converted to [int] (64 bits). *)
Definition Atoi (s : string) : result NumError Z := ParseInt64 s.

Definition digit_char (d : N) : ascii := ascii_of_N (48 + d).

Fixpoint string_of_uint (u : Decimal.uint) : string :=
  match u with
  | Decimal.Nil => EmptyString
  | Decimal.D0 r => String (digit_char 0) (string_of_uint r)
  | Decimal.D1 r => String (digit_char 1) (string_of_uint r)
  | Decimal.D2 r => String (digit_char 2) (string_of_uint r)
  | Decimal.D3 r => String (digit_char 3) (string_of_uint r)
  | Decimal.D4 r => String (digit_char 4) (string_of_uint r)
  | Decimal.D5 r => String (digit_char 5) (string_of_uint r)
  | Decimal.D6 r => String (digit_char 6) (string_of_uint r)
  | Decimal.D7 r => String (digit_char 7) (string_of_uint r)
  | Decimal.D8 r => String (digit_char 8) (string_of_uint r)
  | Decimal.D9 r => String (digit_char 9) (string_of_uint r)
  end.

(** [strconv.FormatUint(n, 10)]: the decimal digits of [n], most significant
    first, without padding; zero is the single digit 0. *)
Definition FormatUint (n : N) : string := string_of_uint (N.to_uint n).

End Strconv.

(** ** Package net/http and net/url: the parts of a request that are read *)

Module Http.

(** [http.Header] and [url.Values] are both [map[string][]string]; [Get]
    returns the first value stored under the key, or the empty string. *)
Definition Values_Get (m : gmap string (list string)) (key : string) : string :=
  match m !! key with
  | Some (v :: _) => v
  | _ => EmptyString
  end.

(** [http.Request]: the header and the parsed query of [req.URL.Query()]. *)
Record Request : Type := {
  Header : gmap string (list string);
  Query : gmap string (list string)
}.

(** [url.URL], as returned by [url.Parse]. *)
Record URL : Type := {
  Scheme : string;
  Host : string;
  Path : string
}.

(** What a handler has written to its [http.ResponseWriter]. *)
Record Response : Type := {
  status : N;
  headers : gmap string string;
  body : list byte
}.

End Http.

(** ** Package websockets *)

Module Websockets.
Import Http.

(** Constants of github.com/gorilla/websocket. *)
Definition TextMessage : Z := 1.
Definition BinaryMessage : Z := 2.
Definition CloseMessage : Z := 8.
Definition PingMessage : Z := 9.
Definition PongMessage : Z := 10.
Definition CloseNormalClosure : Z := 1000.
Definition CloseGoingAway : Z := 1001.
Definition CloseProtocolError : Z := 1002.
Definition CloseNoStatusReceived : Z := 1005.
Definition CloseAbnormalClosure : Z := 1006.
Definition CloseInvalidFramePayloadData : Z := 1007.

Definition pingMessage : list byte := [x01].

(** [messageType] is an 8-bit unsigned integer; [messageType(u)] truncates. *)
Abbreviation messageType := N (only parsing).
Definition to_messageType (u : N) : messageType := u mod 256.

(** Values of the interface type [error] that reach the client code:
    the two error types declared in the package, gorilla's [*CloseError],
    and every other error, of which only the text of [Error()] is kept. *)
Inductive error : Type :=
| errInvalidPayload (e : list byte)
| errInvalidFrame (e : string)
| CloseError (Code : Z) (Text : string)
| opaqueError (text : string).

Definition is_CloseError (e : error) : bool :=
  match e with CloseError _ _ => true | _ => false end.

(** A channel value: nil, open, or closed.  No channel of the client carries
    buffered elements. *)
Inductive chan : Type := ChanNil | ChanOpen | ChanClosed.

(** The websocket connection, as far as the client can observe it: what a
    write and what [Close] answer, and whether [Close] was called. *)
Record Conn : Type := {
  writeError : option error;
  closeError : option error;
  connClosed : bool
}.

(** [openPost]; the embedded [bytes.Buffer] is its contents. *)
Record openPost : Type := {
  Buffer : list byte;
  bodyLength : Z;
  id : Z;
  op : Z;
  time : Z;
  board : string
}.

Definition openPost_zero : openPost :=
  {| Buffer := []; bodyLength := 0; id := 0; op := 0; time := 0;
     board := EmptyString |}.

(** [Client].  The fields are prefixed with [c_] because [openPost] and
    [close] also name a type and a builtin.  [c_IP] stands for the embedded
    [auth.Ident]. *)
Record Client : Type := {
  c_synced : bool;
  c_IP : string;
  c_conn : Conn;
  c_sessionToken : string;
  c_openPost : openPost;
  c_receive : chan;
  c_write : chan;
  c_close : chan;
  c_closeUpdateFeed : chan
}.

Definition set_close (v : chan) (c : Client) : Client :=
  {| c_synced := c_synced c; c_IP := c_IP c; c_conn := c_conn c;
     c_sessionToken := c_sessionToken c; c_openPost := c_openPost c;
     c_receive := c_receive c; c_write := c_write c; c_close := v;
     c_closeUpdateFeed := c_closeUpdateFeed c |}.

Definition set_write (v : chan) (c : Client) : Client :=
  {| c_synced := c_synced c; c_IP := c_IP c; c_conn := c_conn c;
     c_sessionToken := c_sessionToken c; c_openPost := c_openPost c;
     c_receive := c_receive c; c_write := v; c_close := c_close c;
     c_closeUpdateFeed := c_closeUpdateFeed c |}.

Definition set_closeUpdateFeed (v : chan) (c : Client) : Client :=
  {| c_synced := c_synced c; c_IP := c_IP c; c_conn := c_conn c;
     c_sessionToken := c_sessionToken c; c_openPost := c_openPost c;
     c_receive := c_receive c; c_write := c_write c; c_close := c_close c;
     c_closeUpdateFeed := v |}.

Definition set_openPost (v : openPost) (c : Client) : Client :=
  {| c_synced := c_synced c; c_IP := c_IP c; c_conn := c_conn c;
     c_sessionToken := c_sessionToken c; c_openPost := v;
     c_receive := c_receive c; c_write := c_write c; c_close := c_close c;
     c_closeUpdateFeed := c_closeUpdateFeed c |}.

Definition set_conn (v : Conn) (c : Client) : Client :=
  {| c_synced := c_synced c; c_IP := c_IP c; c_conn := v;
     c_sessionToken := c_sessionToken c; c_openPost := c_openPost c;
     c_receive := c_receive c; c_write := c_write c; c_close := c_close c;
     c_closeUpdateFeed := c_closeUpdateFeed c |}.

(** Calls that leave the client: on the connection, on the handler table,
    on the registry and on the canonical store, in program order. *)
Inductive effect : Type :=
| Invoke (typ : messageType) (data : list byte)
| WriteMessage (kind : Z) (data : list byte)
| WriteControl (kind : Z) (data : list byte)
| ConnClose
| ClientsRemove
| FlushPost (post : Z) (text : list byte).

(** *** The client monad *)

Inductive outcome (A : Type) : Type :=
| Returns (a : A) (c : Client) (calls : list effect)
| Panics (calls : list effect).
Arguments Returns {A} a c calls.
Arguments Panics {A} calls.

Definition M (A : Type) : Type := Client -> outcome A.

Definition ret {A} (a : A) : M A := fun c => Returns a c [].

Definition bind {A B} (m : M A) (f : A -> M B) : M B :=
  fun c =>
    match m c with
    | Panics calls => Panics calls
    | Returns a c1 calls1 =>
        match f a c1 with
        | Panics calls2 => Panics (calls1 ++ calls2)
        | Returns b c2 calls2 => Returns b c2 (calls1 ++ calls2)
        end
    end.

Definition get : M Client := fun c => Returns c c [].
Definition modify (f : Client -> Client) : M unit := fun c => Returns tt (f c) [].
Definition emit (e : effect) : M unit := fun c => Returns tt c [e].
Definition panic {A} : M A := fun _ => Panics [].

Declare Scope client_scope.
Delimit Scope client_scope with client.
Notation "x <- m ;; k" := (bind m (fun x => k))
  (at level 100, m at next level, right associativity) : client_scope.
Notation "m ;;; k" := (bind m (fun _ => k))
  (at level 100, right associativity) : client_scope.
Open Scope client_scope.

(** The builtin [close(ch)]: panics on a nil or an already closed channel. *)
Definition close_chan (read : Client -> chan) (write : chan -> Client -> Client)
  : M unit :=
  c <- get ;;
  match read c with
  | ChanOpen => modify (write ChanClosed)
  | ChanNil | ChanClosed => panic
  end.

(** Message handlers: [func([]byte, *Client) error]. *)
Definition handler : Type := list byte -> M (option error).

(** [conn.WriteMessage], [conn.WriteControl] (the deadline is not modelled)
    and [conn.Close]. *)
Definition conn_WriteMessage (kind : Z) (data : list byte) : M (option error) :=
  emit (WriteMessage kind data) ;;;
  c <- get ;;
  ret (writeError (c_conn c)).

Definition conn_WriteControl (kind : Z) (data : list byte) : M (option error) :=
  emit (WriteControl kind data) ;;;
  c <- get ;;
  ret (writeError (c_conn c)).

Definition conn_Close : M (option error) :=
  emit ConnClose ;;;
  c <- get ;;
  modify (set_conn {| writeError := writeError (c_conn c);
                      closeError := closeError (c_conn c);
                      connClosed := true |}) ;;;
  ret (closeError (c_conn c)).

Definition byte_of_N (n : N) : byte :=
  match Byte.of_N (n mod 256) with Some b => b | None => x00 end.

(** [websocket.FormatCloseMessage]: the close code as a big-endian 16-bit
    integer followed by the text; empty for [CloseNoStatusReceived]. *)
Definition FormatCloseMessage (closeCode : Z) (text : string) : list byte :=
  if (closeCode =? CloseNoStatusReceived)%Z then []
  else
    let code := Z.to_N (closeCode mod 65536) in
    byte_of_N (code / 256) :: byte_of_N code :: bytes_of_string text.

(** [time.Time] as nanoseconds since the Unix epoch. *)
Definition Time : Type := Z.
Definition Second : Z := 1000000000.
Definition Minute : Z := 60 * Second.
Definition Time_Add (t : Time) (d : Z) : Time := (t + d)%Z.
Definition Time_Unix (t : Time) : Z := (t / Second)%Z.

(** [receivedMessage] *)
Record receivedMessage : Type := {
  typ : Z;
  msg : list byte;
  err : option error
}.

(** The case of the [select] in [listenerLoop] that fires in one iteration. *)
Inductive selected : Type :=
| SelClose
| SelReceive (m : receivedMessage)
| SelWrite (m : list byte)
| SelPing.

(** *** The client's methods *)

Section Client.

(** Declarations of the package that the methods below use. *)

(** The dynamic type behind [interface{}] payloads, [json.Marshal] on it, and
    the boxing of a Go string into a payload. *)
Variable payload : Type.
Variable json_Marshal : payload -> result error (list byte).
Variable payload_of_string : string -> payload.

(** Message type constants and the dispatch table
    [handlers map[messageType]handler]. *)
Variable messageInvalid : messageType.
Variable messageSynchronise : messageType.
Variable messageResynchronise : messageType.
Variable handlers : gmap messageType handler.

(** The package's [errNoPostOpen] and the handler [closePost]. *)
Variable errNoPostOpen : error.
Variable closePost : handler.

(** [util.WrapError] and the text of the [Error] method of gorilla's [CloseError]. *)
Variable WrapError : string -> option error -> error.
Variable CloseError_text : Z -> string -> string.

(** The method [Error()] of each error type. *)
Definition Error (e : error) : string :=
  match e with
  | errInvalidPayload p => ("invalid message: " ++ string_of_bytes p)%string
  | errInvalidFrame s => s
  | CloseError code text => CloseError_text code text
  | opaqueError text => text
  end.

(** Encodes a message for sending through websockets. *)
Definition encodeMessage (typ : messageType) (msg : payload)
  : result error (list byte) :=
  match json_Marshal msg with
  | Err e => Err e
  | Ok data =>
      let encoded := replicate (length data + 2) x00 in
      let typeString := bytes_of_string (Strconv.FormatUint typ) in
      let encoded :=
        match typeString with
        | [digit] => <[1%nat := digit]> (<[0%nat := x30]> encoded)
        | _ => copy encoded typeString
        end in
      Ok (take 2 encoded ++ copy (drop 2 encoded) data)
  end.

(** Sends a message to the client. *)
Definition send (msg : list byte) : M (option error) :=
  conn_WriteMessage TextMessage msg.

(** Format a message type as JSON and send it to the client. *)
Definition sendMessage (typ : messageType) (msg : payload) : M (option error) :=
  match encodeMessage typ msg with
  | Err e => ret (Some e)
  | Ok encoded => send encoded
  end.

(** Run the appropriate handler for the websocket message.  The slice
    expression [msg[2:]] comes first and panics on a message of fewer than
    two bytes. *)
Definition runHandler (typ : messageType) (msg : list byte) : M (option error) :=
  if (length msg <? 2)%nat then panic
  else
    let data := drop 2 msg in
    match handlers !! typ with
    | None => ret (Some (errInvalidPayload msg))
    | Some h => emit (Invoke typ data) ;;; h data
    end.

(** handleMessage parses a message received from the client. *)
Definition handleMessage (msgType : Z) (msg : list byte) : M (option error) :=
  if negb (msgType =? TextMessage)%Z then
    ret (Some (errInvalidFrame "only text frames allowed"))
  else if (length msg <? 2)%nat then
    ret (Some (errInvalidPayload msg))
  else
    match Strconv.ParseUint (string_of_bytes (take 2 msg)) 8 with
    | Err _ => ret (Some (errInvalidPayload msg))
    | Ok uncast =>
        let typ := to_messageType uncast in
        c <- get ;;
        if negb (c_synced c) && negb (typ =? messageSynchronise)
           && negb (typ =? messageResynchronise)
        then ret (Some (errInvalidPayload msg))
        else
          e <- runHandler typ msg ;;
          match e with
          | Some e => ret (Some e)
          | None => ret None
          end
    end.

(** Close: a receive from the closed channel is ready, otherwise the default
    case closes it. *)
Definition Close : M unit :=
  c <- get ;;
  match c_close c with
  | ChanClosed => ret tt
  | ChanOpen | ChanNil => close_chan c_close set_close
  end.

Definition isLoggedIn : M bool :=
  c <- get ;;
  ret (negb (String.eqb (c_sessionToken c) EmptyString)).

(** hasPost: does the client have an open post not older than 29 minutes?
    [now] is the value of [time.Now()]. *)
Definition hasPost (now : Time) : M (bool * option error) :=
  c <- get ;;
  if (id (c_openPost c) =? 0)%Z then
    ret (false, Some errNoPostOpen)
  else if (time (c_openPost c) <? Time_Unix (Time_Add now (- Minute * 29)))%Z then
    e <- closePost [] ;;
    ret (false, e)
  else
    ret (true, None).

(** Close all connections and goroutines associated with the Client. *)
Definition closeConnections (err : option error) : M (option error) :=
  c <- get ;;
  match c_closeUpdateFeed c with
  | ChanNil => ret tt
  | _ => close_chan c_closeUpdateFeed set_closeUpdateFeed
  end ;;;
  match err with
  | Some _ => close_chan c_close set_close
  | None => ret tt
  end ;;;
  close_chan c_write set_write ;;;
  r <- match err with
       | Some (CloseError code _) =>
           if (code =? CloseNormalClosure)%Z || (code =? CloseGoingAway)%Z
           then ret (None, CloseNormalClosure)
           else ret (err, 0%Z)
       | None => ret (err, CloseNormalClosure)
       | Some e =>
           sendMessage messageInvalid (payload_of_string (Error e)) ;;;
           ret (err, CloseInvalidFramePayloadData)
       end ;;
  let '(err, closeType) := r in
  let msg := FormatCloseMessage closeType EmptyString in
  conn_WriteControl CloseMessage msg ;;;
  closeError <- conn_Close ;;
  match closeError with
  | Some ce => ret (Some (WrapError (Error ce) err))
  | None => ret err
  end.

(** The loop of [listenerLoop], driven by the cases that fire.  [None] means
    that the loop is still waiting in its [select] when the schedule ends;
    [Some err] is the value the loop returns.  The close case can only fire
    once the close channel is closed. *)
Fixpoint listenerLoop (sched : list selected) : M (option (option error)) :=
  match sched with
  | [] => ret None
  | SelClose :: rest =>
      c <- get ;;
      match c_close c with
      | ChanClosed => ret (Some None)
      | _ => listenerLoop rest
      end
  | SelReceive m :: rest =>
      match err m with
      | Some e => ret (Some (Some e))
      | None =>
          e <- handleMessage (typ m) (msg m) ;;
          match e with
          | Some e => ret (Some (Some e))
          | None => listenerLoop rest
          end
      end
  | SelWrite m :: rest =>
      e <- send m ;;
      match e with
      | Some e => ret (Some (Some e))
      | None => listenerLoop rest
      end
  | SelPing :: rest =>
      e <- conn_WriteControl PingMessage pingMessage ;;
      match e with
      | Some e => ret (Some (Some e))
      | None => listenerLoop rest
      end
  end.

(** Listen: run the loop, then remove the client from the registry and close
    its connections. *)
Definition Listen (sched : list selected) : M (option (option error)) :=
  r <- listenerLoop sched ;;
  match r with
  | None => ret None
  | Some e =>
      emit ClientsRemove ;;;
      e' <- closeConnections e ;;
      ret (Some e')
  end.

(** *** The handshake *)

(** [url.Parse] and [config.AllowedOrigin]. *)
Variable url_Parse : string -> result error URL.
Variable AllowedOrigin : string.

(** CheckOrigin asserts the client matches the origin specified by the server
    or has none. *)
Definition CheckOrigin (req : Request) : bool :=
  let origin := Values_Get (Header req) "Origin" in
  if String.eqb origin EmptyString then true
  else
    match url_Parse origin with
    | Err _ => false
    | Ok u => String.eqb (Host u) AllowedOrigin
    end.

(** [upgrader.Upgrade] of gorilla/websocket with [CheckOrigin] installed: the
    header checks that precede the origin check, the origin check, then the
    rest of the handshake, which yields the connection. *)
Variable handshake_headers : Request -> option error.
Variable handshake_finish : Request -> result error Conn.

Definition Upgrade (req : Request) : result error Conn :=
  match handshake_headers req with
  | Some e => Err e
  | None =>
      if negb (CheckOrigin req) then
        Err (opaqueError "websocket: origin not allowed")
      else handshake_finish req
  end.

(** [auth.LookUpIdent], reduced to the address it resolves. *)
Variable LookUpIdent : Request -> string.

(** newClient creates a new websocket client. *)
Definition newClient (conn : Conn) (req : Request) : Client :=
  {| c_synced := false;
     c_IP := LookUpIdent req;
     c_conn := conn;
     c_sessionToken := EmptyString;
     c_openPost := openPost_zero;
     c_receive := ChanOpen;
     c_write := ChanOpen;
     c_close := ChanOpen;
     c_closeUpdateFeed := ChanNil |}.

(** Handler responds to a new websocket connection request.  [None] means
    that the upgrade failed and no client was created; otherwise the result
    is the run of [Listen] on the new client. *)
Definition Handler (req : Request) (sched : list selected)
  : option (outcome (option (option error))) :=
  match Upgrade req with
  | Err _ => None
  | Ok conn => Some (Listen sched (newClient conn req))
  end.

End Client.

(** Modelled from the spec: [closePost] is declared outside the sources at
    hand.  The spec says of it: close() flushes the accumulated body to the
    canonical store (an external collaborator) and clears local state;
    idempotent if no post is open. *)
Definition closePost_spec : handler :=
  fun _ c =>
    if (id (c_openPost c) =? 0)%Z then Returns None c []
    else
      Returns None (set_openPost openPost_zero c)
        [FlushPost (id (c_openPost c)) (Buffer (c_openPost c))].

(** Modelled from the spec: [ConcatMessages] is declared outside the sources
    at hand.  The spec says of the pull endpoint: returns the concatenation
    of the raw stored frames in that range as an opaque byte blob. *)
Definition ConcatMessages (log : list (list byte)) : list byte := concat log.

End Websockets.

(** ** Package server: JSON and backlog endpoints *)

Module Server.
Import Http.

(** Modelled from the spec: the thread log lives in the canonical store, an
    external collaborator.  The spec says of it: range(start, end) returns
    the contiguous slice of previously appended frames with index in
    [start, end); out-of-range indices return an empty sequence rather than
    erroring.  A thread that does not exist has no frames. *)
Definition feed_range (logs : gmap N (list (list byte))) (thread start end_ : N)
  : list (list byte) :=
  match logs !! thread with
  | None => []
  | Some log => take (N.to_nat (end_ - start)) (drop (N.to_nat start) log)
  end.

Definition store_query (logs : gmap N (list (list byte)))
  : N -> N -> N -> result Websockets.error (list (list byte)) :=
  fun thread start end_ => Ok (feed_range logs thread start end_).

(** The response writer before the handler has touched it. *)
Definition fresh_response : Response :=
  {| status := 200; headers := ∅; body := [] |}.

Definition Header_Set (key value : string) (w : Response) : Response :=
  {| status := status w; headers := <[key := value]> (headers w);
     body := body w |}.

Section Endpoints.

(** [util.HashBuffer]. *)
Variable HashBuffer : list byte -> string.

(** [db.All] on the query that selects the slice [start, end) of the log of
    thread [thread], with a nil default. *)
Variable query_log : N -> N -> N -> result Websockets.error (list (list byte)).

(** The text that the error helpers write for a failed parse and for a
    failed query. *)
Variable parse_error_page : Strconv.NumError -> list byte.
Variable query_error_page : Websockets.error -> list byte.

(** Modelled from the spec: [text400], [text500] and [writeData] are declared
    outside the sources at hand.  The spec says: any parameter that fails to
    parse yields a 400 response; the body is returned as an opaque byte
    blob. *)
Definition text400 (w : Response) (err : Strconv.NumError) : Response :=
  {| status := 400; headers := headers w; body := parse_error_page err |}.

Definition text500 (w : Response) (err : Websockets.error) : Response :=
  {| status := 500; headers := headers w; body := query_error_page err |}.

Definition writeData (w : Response) (data : list byte) : Response :=
  {| status := status w; headers := headers w; body := body w ++ data |}.

(** Indexing a [map[string]string]: the zero value when the key is absent. *)
Definition index (p : gmap string string) (key : string) : string :=
  match p !! key with Some v => v | None => EmptyString end.

(** Validate the client's last N posts to display setting. *)
Definition detectLastN (req : Request) : Z :=
  let query := Values_Get (Query req) "last" in
  if negb (String.eqb query EmptyString) then
    match Strconv.Atoi query with
    | Ok lastN => if (lastN <=? 500)%Z then lastN else 0%Z
    | Err _ => 0%Z
    end
  else 0%Z.

(** The argument loop of [serveBacklog]: parse the parameters in order and
    stop at the first one that fails. *)
Fixpoint parseArgs (p : gmap string string) (keys : list string)
  : result Strconv.NumError (list N) :=
  match keys with
  | [] => Ok []
  | key :: rest =>
      match Strconv.ParseUint (index p key) 64 with
      | Err e => Err e
      | Ok v =>
          match parseArgs p rest with
          | Err e => Err e
          | Ok vs => Ok (v :: vs)
          end
      end
  end.

(** Serve slices of a thread's replication log. *)
Definition serveBacklog (w : Response) (p : gmap string string) : Response :=
  match parseArgs p ["thread"; "start"; "end"]%string with
  | Err e => text400 w e
  | Ok args =>
      let arg i := nth i args 0 in
      match query_log (arg 0%nat) (arg 1%nat) (arg 2%nat) with
      | Err e => text500 w e
      | Ok log =>
          let data := Websockets.ConcatMessages log in
          let w := Header_Set "ETag" (HashBuffer data) w in
          let w := Header_Set "Content-Type" "text/plain; charset=UTF-8" w in
          writeData w data
      end
  end.

End Endpoints.

End Server.

(** ** Vocabulary of the specification *)

Module Spec.
Import Websockets.

(** An ASCII decimal digit. *)
Definition is_ascii_digit (b : byte) : bool :=
  (48 <=? Byte.to_N b) && (Byte.to_N b <=? 57).

(** The type tag of a frame as the spec words it: two ASCII decimal digits,
    left-padded with 0. *)
Definition typeTag (typ : messageType) : list byte :=
  [byte_of_N (48 + typ / 10); byte_of_N (48 + typ mod 10)].

(** A call of a handler. *)
Definition is_Invoke (e : effect) : bool :=
  match e with Invoke _ _ => true | _ => false end.

(** A connection that has been torn down: its outcome is a return with the
    loop's verdict, the socket is closed, both the close and the write
    channel are closed, and no handler ran on the way. *)
Definition terminated (o : outcome (option (option error))) : Prop :=
  exists e c calls,
    o = Returns (Some e) c calls /\
    connClosed (c_conn c) = true /\
    c_close c = ChanClosed /\
    c_write c = ChanClosed /\
    forallb (fun x => negb (is_Invoke x)) calls = true /\
    last calls = Some ConnClose.

(** A client whose channels allow a teardown on an error: [newClient] makes
    the close and write channels and leaves the feed channel nil;
    synchronising opens the feed channel. *)
Definition live (c : Client) : Prop :=
  c_close c = ChanOpen /\ c_write c = ChanOpen /\
  c_closeUpdateFeed c <> ChanClosed.

(** The client after [closeConnections]: the socket and the write channel are
    closed, the feed channel is closed unless it was nil, and the close
    channel is closed when the teardown was caused by an error. *)
Definition torn_down (err : option error) (c : Client) : Client :=
  {| c_synced := c_synced c; c_IP := c_IP c;
     c_conn := {| writeError := writeError (c_conn c);
                  closeError := closeError (c_conn c);
                  connClosed := true |};
     c_sessionToken := c_sessionToken c; c_openPost := c_openPost c;
     c_receive := c_receive c; c_write := ChanClosed;
     c_close := match err with Some _ => ChanClosed | None => c_close c end;
     c_closeUpdateFeed :=
       match c_closeUpdateFeed c with
       | ChanNil => ChanNil
       | _ => ChanClosed
       end |}.

(** The write of the invalid-message notice: one text frame when the notice
    encodes, nothing when it does not. *)
Definition notice_calls (encoded : result error (list byte)) : list effect :=
  match encoded with
  | Ok frame => [WriteMessage TextMessage frame]
  | Err _ => []
  end.

(** The attempt to send a close frame with the given code. *)
Definition close_frame (code : Z) : effect :=
  WriteControl CloseMessage (FormatCloseMessage code EmptyString).

(** The error that [closeConnections] hands back: the terminating error,
    wrapped when closing the socket failed as well. *)
Definition teardown_error (wrap : string -> option error -> error)
    (text : error -> string) (c : Client) (err : option error) : option error :=
  match closeError (c_conn c) with
  | Some ce => Some (wrap (text ce) err)
  | None => err
  end.

(** The receive case of the loop firing with a frame that was read without
    a transport error. *)
Definition received (kind : Z) (frame : list byte) : selected :=
  SelReceive {| typ := kind; msg := frame; err := None |}.

(** The terminating errors after which the client is owed a clean close:
    none, or a close sent by the client with the normal or going-away code. *)
Definition clean_exit (err : option error) : Prop :=
  err = None \/
  exists code text,
    err = Some (CloseError code text) /\
    (code = CloseNormalClosure \/ code = CloseGoingAway).

(** The ceiling on the age of an open post, in seconds. *)
Definition post_ceiling : Z := 29 * 60.

(** [n] calls of a method in a row. *)
Fixpoint times (n : nat) (m : M unit) : M unit :=
  match n with
  | O => ret tt
  | S k => bind m (fun _ => times k m)
  end.

End Spec.

(** ** Concrete instances used to exercise the statements below *)

Module Sample.
Import Http Websockets.

(** Payloads are strings; marshalling wraps the text in double quotes (no
    character of the samples needs escaping). *)
Definition Marshal (s : string) : result error (list byte) :=
  Ok (x22 :: bytes_of_string s ++ [x22]).

(** A marshaller that rejects every payload. *)
Definition Marshal_fails (s : string) : result error (list byte) :=
  Err (opaqueError "json: unsupported value").

Definition messageInvalid : messageType := 0.
Definition messageSynchronise : messageType := 30.
Definition messageResynchronise : messageType := 31.
Definition messageAppend : messageType := 3.

Definition set_synced (v : bool) (c : Client) : Client :=
  {| c_synced := v; c_IP := c_IP c; c_conn := c_conn c;
     c_sessionToken := c_sessionToken c; c_openPost := c_openPost c;
     c_receive := c_receive c; c_write := c_write c; c_close := c_close c;
     c_closeUpdateFeed := c_closeUpdateFeed c |}.

(** A handler table: synchronising flips the flag, appending pushes onto the
    post buffer. *)
Definition synchronise : handler :=
  fun _ => bind (modify (set_synced true)) (fun _ => ret None).

Definition appendRune : handler :=
  fun data =>
    bind get (fun c =>
    bind (modify (set_openPost
            {| Buffer := Buffer (c_openPost c) ++ data;
               bodyLength := bodyLength (c_openPost c) + 1;
               id := id (c_openPost c); op := op (c_openPost c);
               time := time (c_openPost c); board := board (c_openPost c) |}))
         (fun _ => ret None)).

Definition handlers : gmap messageType handler :=
  <[messageSynchronise := synchronise]>
    (<[messageResynchronise := synchronise]>
      (<[messageAppend := appendRune]> ∅)).

Definition errNoPostOpen : error := opaqueError "no post open".

Definition WrapError (text : string) (inner : option error) : error :=
  opaqueError text.

Definition CloseError_text (code : Z) (text : string) : string :=
  ("websocket: close: " ++ text)%string.

Definition conn : Conn :=
  {| writeError := None; closeError := None; connClosed := false |}.

(** A connection on which every write fails. *)
Definition broken_conn : Conn :=
  {| writeError := Some (opaqueError "write: broken pipe");
     closeError := None; connClosed := false |}.

Definition client : Client :=
  {| c_synced := false; c_IP := "203.0.113.7"; c_conn := conn;
     c_sessionToken := EmptyString; c_openPost := openPost_zero;
     c_receive := ChanOpen; c_write := ChanOpen; c_close := ChanOpen;
     c_closeUpdateFeed := ChanNil |}.

Definition synced_client : Client := set_synced true client.

(** A client with post 7 open since second 1000 of the epoch. *)
Definition posting_client : Client :=
  set_openPost
    {| Buffer := bytes_of_string "hello"; bodyLength := 5; id := 7; op := 42;
       time := 1000; board := "b" |}
    synced_client.

(** An origin parser that understands one origin. *)
Definition url_Parse (s : string) : result error URL :=
  if String.eqb s "https://example.org" then
    Ok {| Scheme := "https"; Host := "example.org"; Path := EmptyString |}
  else if String.eqb s "https://evil.test" then
    Ok {| Scheme := "https"; Host := "evil.test"; Path := EmptyString |}
  else Err (opaqueError "parse: invalid URL").

Definition request (origin : list string) (last : list string) : Request :=
  {| Header := <["Origin"%string := origin]> ∅;
     Query := <["last"%string := last]> ∅ |}.

Definition HashBuffer (data : list byte) : string := string_of_bytes (take 4 data).

(** A thread log with three frames. *)
Definition logs : gmap N (list (list byte)) :=
  <[10 := [bytes_of_string "03a"; bytes_of_string "03b"; bytes_of_string "03c"]]> ∅.

Definition params (thread start end_ : string) : gmap string string :=
  <["thread"%string := thread]> (<["start"%string := start]> (<["end"%string := end_]> ∅)).

End Sample.

(** ** Vocabulary for the loop and the codec on the whole type range *)

Module Behaviour.
Import Websockets.

(** The tag that a frame carries for an 8-bit message type: the two digits of
    a type below 100, and the first two of the three digits of a larger
    one. *)
Definition wire_tag (typ : messageType) : list byte :=
  Spec.typeTag (if typ <? 100 then typ else typ / 10).

(** The value of two ASCII decimal digits. *)
Definition tag_value (a b : byte) : N :=
  10 * (Byte.to_N a - 48) + (Byte.to_N b - 48).

(** An outcome preceded by calls that were made before it. *)
Definition after_calls {A} (calls : list effect) (o : outcome A) : outcome A :=
  match o with
  | Returns a c more => Returns a c (calls ++ more)
  | Panics more => Panics (calls ++ more)
  end.

(** The cases of the loop that only write to the connection, and the call
    each of them makes. *)
Definition is_outbound (ev : selected) : bool :=
  match ev with
  | SelWrite _ | SelPing => true
  | _ => false
  end.

Definition outbound_call (ev : selected) : list effect :=
  match ev with
  | SelWrite m => [WriteMessage TextMessage m]
  | SelPing => [WriteControl PingMessage pingMessage]
  | _ => []
  end.

End Behaviour.

(** ** Package server: the thread page *)

Module Pages.
Import Http.

(** A query sent to the store by a page handler. *)
Inductive query : Type :=
| QValidateOP (id : Z) (board : string)
| QThreadCounter (id : Z)
| QGetThread (id : Z) (lastN : Z).

Section Thread.

(** Declarations of the package that are not among the sources: the error
    pages, the ETag check of a page, the tag of a counter, the body writer
    and the hash of a buffer. *)
Variable text400 : Response -> Strconv.NumError -> Response.
Variable text404 : Response -> Response.
Variable text500 : Response -> Request -> Websockets.error -> Response.
Variable pageEtag : Response -> Request -> string -> Response * bool.
Variable etagStart : Z -> string.
Variable writeData : Response -> Request -> list byte -> Response.
Variable HashBuffer : list byte -> string.

(** The store: [db.ValidateOP], [db.ThreadCounter] and [db.GetThread], and
    [json.Marshal] on what [GetThread] returns. *)
Variable thread : Type.
Variable ValidateOP : Z -> string -> result Websockets.error bool.
Variable ThreadCounter : Z -> result Websockets.error Z.
Variable GetThread : Z -> Z -> result Websockets.error thread.
Variable json_Marshal : thread -> result Websockets.error (list byte).

Definition setJSONCType (w : Response) : Response :=
  Server.Header_Set "Content-Type" "application/json" w.

(** Convert input data to JSON and write to client. *)
Definition writeJSON (w : Response) (r : Request) (setEtag : bool) (data : thread)
  : Response :=
  match json_Marshal data with
  | Err e => text500 w r e
  | Ok buf =>
      let w := setJSONCType w in
      let w := if setEtag then Server.Header_Set "ETag" (HashBuffer buf) w else w in
      writeData w r buf
  end.

(** Serves thread page JSON.  The result is the response together with the
    queries sent to the store, in order. *)
Definition threadJSON (w : Response) (r : Request) (p : gmap string string)
  : Response * list query :=
  let board := Server.index p "board" in
  match Strconv.ParseInt64 (Server.index p "thread") with
  | Err e => (text400 w e, [])
  | Ok id =>
      match ValidateOP id board with
      | Err e => (text500 w r e, [QValidateOP id board])
      | Ok valid =>
          if negb valid then (text404 w, [QValidateOP id board])
          else
            match ThreadCounter id with
            | Err e =>
                (text500 w r e, [QValidateOP id board; QThreadCounter id])
            | Ok counter =>
                let '(w, fresh) := pageEtag w r (etagStart counter) in
                if negb fresh then
                  (w, [QValidateOP id board; QThreadCounter id])
                else
                  let lastN := Server.detectLastN r in
                  let queries :=
                    [QValidateOP id board; QThreadCounter id;
                     QGetThread id lastN] in
                  match GetThread id lastN with
                  | Err e => (text500 w r e, queries)
                  | Ok data => (writeJSON w r false data, queries)
                  end
            end
      end
  end.

End Thread.

End Pages.

(** ** Package imager: upload requests and archive detection *)

Module Imager.

(** Values of the interface type [error] that the upload code tells apart:
    its own [errTooLarge], the sentinels of database/sql and of the
    thumbnailer that it switches on, the error of strconv, and every other
    error, of which only the text is kept. *)
Inductive error : Type :=
| errTooLarge
| ErrNoRows
| ErrUnsupportedMIME
| ErrNoThumb
| NumError (e : Strconv.NumError)
| otherError (text : string).

(** The part of [http.Request] that the upload handlers read themselves. *)
Record Request : Type := {
  Header : gmap string (list string);
  Body : list byte
}.

(** [common.ImageCommon] *)
Record ImageCommon : Type := {
  APNG : bool;
  Audio : bool;
  Video : bool;
  FileType : N;
  ThumbType : N;
  Length : N;
  Dims : list N;
  Size : Z;
  Artist : string;
  Title : string;
  MD5 : string;
  SHA1 : string
}.

Definition set_SHA1 (v : string) (img : ImageCommon) : ImageCommon :=
  {| APNG := APNG img; Audio := Audio img; Video := Video img;
     FileType := FileType img; ThumbType := ThumbType img;
     Length := Length img; Dims := Dims img; Size := Size img;
     Artist := Artist img; Title := Title img; MD5 := MD5 img; SHA1 := v |}.

(** [thumbnailer.Source] and [thumbnailer.Thumbnail]; a nil [Data] is
    [None]. *)
Record Source : Type := {
  Mime : string;
  HasAudio : bool;
  HasVideo : bool;
  SrcLength : Z;
  SrcArtist : string;
  SrcTitle : string;
  SrcWidth : N;
  SrcHeight : N
}.

Record Thumbnail : Type := {
  Data : option (list byte);
  IsPNG : bool;
  ThumbWidth : N;
  ThumbHeight : N
}.

(** Calls that leave the upload code, in program order. *)
Inductive call : Type :=
| ParseMultipartForm
| GetImage (hash : string)
| Process
| AllocateImage (img : ImageCommon)
| NewImageToken (hash : string).

Definition mime7Zip : string := "application/x-7z-compressed".
Definition mimeZip : string := "application/zip".
Definition mimeTarGZ : string := "application/gzip".
Definition mimeTarXZ : string := "application/x-xz".
Definition mimeText : string := "text/plain".

(** MIME types from thumbnailer to accept. *)
Definition allowedMimeTypes : gmap string bool :=
  list_to_map
    [("image/jpeg"%string, true); ("image/png"%string, true);
     ("image/gif"%string, true); ("application/pdf"%string, true);
     ("video/webm"%string, true); ("application/ogg"%string, true);
     ("video/mp4"%string, true); ("audio/mpeg"%string, true);
     (mimeZip, true); (mime7Zip, true); (mimeTarGZ, true); (mimeTarXZ, true);
     ("audio/x-flac"%string, true); (mimeText, true)].

(** The MIME types that [init] registers a matcher and the no-op processor
    for, in order. *)
Definition formats : list string :=
  [mime7Zip; mimeZip; mimeTarGZ; mimeTarXZ; mimeText].

(** [bytes.HasPrefix]: [s] is at least as long as [prefix] and starts with
    the same bytes. *)
Fixpoint HasPrefix (s prefix : list byte) : bool :=
  match prefix, s with
  | [], _ => true
  | _ :: _, [] => false
  | p :: prefix', x :: s' => Byte.eqb x p && HasPrefix s' prefix'
  end.

(** An [io.Reader], as far as [isTar] uses it: the bytes that its first
    [Read] delivers into a buffer of 262 bytes, and the error it returns. *)
Record Reader : Type := {
  delivered : list byte;
  read_error : bool
}.

(** Read the start of the file and determine, if it is a TAR archive. *)
Definition isTar (r : Reader) : bool :=
  let got := take 262 (delivered r) in
  let head := copy (replicate 262 x00) got in
  if read_error r || negb (length got =? 262)%nat then false
  else HasPrefix (drop 257 head) (bytes_of_string "ustar").

(** Detect if file is a 7zip archive. *)
Definition detect7z (buf : list byte) : bool :=
  HasPrefix buf [x37; x7a; xbc; xaf; x27; x1c].

(** Detect zip archives. *)
Definition detectZip (data : list byte) : bool :=
  HasPrefix data [x50; x4b; x03; x04].

Section Archives.

(** [gzip.NewReader] and [xz.NewReader] on the buffer; [None] is an error. *)
Variable gzip_NewReader : list byte -> option Reader.
Variable xz_NewReader : list byte -> option Reader.

(** Detect if file is a TAR archive compressed with GZIP. *)
Definition detectTarGZ (buf : list byte) : bool :=
  if negb (HasPrefix buf [x1f; x8b; x08]) then false
  else
    match gzip_NewReader buf with
    | None => false
    | Some r => isTar r
    end.

(** Detect if file is a TAR archive compressed with XZ. *)
Definition detectTarXZ (buf : list byte) : bool :=
  if negb (HasPrefix buf [xfd; x37; x7a; x58; x5a; x00]) then false
  else
    match xz_NewReader buf with
    | None => false
    | Some r => isTar r
    end.

End Archives.

Section Upload.

(** The constants of package common that name file types. *)
Variables JPEG PNG GIF PDF WEBM OGG MP4 MP3 SevenZip TGZ TXZ ZIP FLAC TXT NoFile : N.

(** Map of MIME types to the constants used internally. *)
Definition mimeTypes : gmap string N :=
  list_to_map
    [("image/jpeg"%string, JPEG); ("image/png"%string, PNG);
     ("image/gif"%string, GIF); ("application/pdf"%string, PDF);
     ("video/webm"%string, WEBM); ("application/ogg"%string, OGG);
     ("video/mp4"%string, MP4); ("audio/mpeg"%string, MP3);
     (mime7Zip, SevenZip); (mimeTarGZ, TGZ); (mimeTarXZ, TXZ); (mimeZip, ZIP);
     ("audio/x-flac"%string, FLAC); (mimeText, TXT)].

(** The value of [uint64(config.Get().MaxSize<<20)]. *)
Variable maxBytes : N.

(** The uploaded file, and what the libraries answer on it:
    [req.ParseMultipartForm], [req.FormFile], the copy into [sha1.New()]
    followed by [hex.EncodeToString], [thumbnailer.Process], the seek to the
    start and the read into the buffer, [apngdetector.Detect], and [md5.Sum]
    followed by the base64 encoding. *)
Variable File : Type.
Variable form_error : Request -> option error.
Variable FormFile : Request -> result error File.
Variable sha1_hex : File -> result error string.
Variable thumbnailer_Process : File -> Source * Thumbnail * option error.
Variable Seek : File -> option error.
Variable ReadFrom : File -> result error (list byte).
Variable apng_Detect : list byte -> bool.
Variable md5_base64 : list byte -> string.

(** The store: [db.GetImage], [db.NewImageToken] and [db.AllocateImage]. *)
Variable db_GetImage : string -> ImageCommon * option error.
Variable db_NewImageToken : string -> string * option error.
Variable db_AllocateImage : list byte -> option (list byte) -> ImageCommon -> option error.

(** The text of the errors declared elsewhere. *)
Variable library_text : error -> string.

Definition Error (e : error) : string :=
  match e with
  | errTooLarge => "file too large"
  | otherError text => text
  | _ => library_text e
  end.

(** [http.Error]: the status, two headers and the text on a line. *)
Definition http_Error (w : Http.Response) (text : string) (code : N)
  : Http.Response :=
  {| Http.status := code;
     Http.headers :=
       <["X-Content-Type-Options"%string := "nosniff"%string]>
         (<["Content-Type"%string := "text/plain; charset=utf-8"%string]>
            (Http.headers w));
     Http.body := Http.body w ++ bytes_of_string text ++ [x0a] |}.

(** The headers as net/http fixes them when the body is first written: when
    the handler has set no Content-Type, the library sniffs one from the
    data. *)
Variable sniffed_headers : Http.Response -> list byte -> gmap string string.

(** [w.Write] *)
Definition Write (w : Http.Response) (data : list byte) : Http.Response :=
  {| Http.status := Http.status w; Http.headers := sniffed_headers w data;
     Http.body := Http.body w ++ data |}.

(** LogError sends the client file upload errors (the server-side log is
    not modelled). *)
Definition LogError (w : Http.Response) (code : N) (err : error)
  : Http.Response :=
  http_Error w (Error err) code.

Definition newImageToken (SHA1 : string) : N * string * option error * list call :=
  let '(token, err) := db_NewImageToken SHA1 in
  let code := match err with Some _ => 500 | None => 200 end in
  (code, token, err, [NewImageToken SHA1]).

(** Parse and validate the form of the upload request. *)
Definition parseUploadForm (req : Request) : option error * list call :=
  match Strconv.ParseUint (Http.Values_Get (Header req) "Content-Length") 64 with
  | Err e => (Some (NumError e), [])
  | Ok length =>
      if maxBytes <? length then (Some errTooLarge, [])
      else (form_error req, [ParseMultipartForm])
  end.

(** processFile: the source data, the thumbnail data, the error and the
    image record as it leaves the function. *)
Definition processFile (rs : File) (img : ImageCommon)
  : option (list byte) * option (list byte) * option error * ImageCommon :=
  let '(src, thumb, err) := thumbnailer_Process rs in
  let proceed :=
    match err with
    | None | Some ErrNoThumb => true
    | Some _ => false
    end in
  if negb proceed then (None, None, err, img)
  else
    let thumbData := Data thumb in
    match Seek rs with
    | Some e => (None, thumbData, Some e, img)
    | None =>
        match ReadFrom rs with
        | Err e => (None, thumbData, Some e, img)
        | Ok srcData =>
            let fileType :=
              match mimeTypes !! Mime src with Some t => t | None => 0 end in
            let apng :=
              if fileType =? PNG then apng_Detect srcData else APNG img in
            let thumbType :=
              match Data thumb with
              | None => NoFile
              | Some _ => if IsPNG thumb then PNG else ThumbType img
              end in
            (Some srcData, thumbData, None,
             {| APNG := apng;
                Audio := HasAudio src;
                Video := HasVideo src;
                FileType := fileType;
                ThumbType := thumbType;
                Length :=
                  Z.to_N ((SrcLength src ÷ Websockets.Second) mod 2 ^ 32);
                Dims := [SrcWidth src mod 2 ^ 16; SrcHeight src mod 2 ^ 16;
                         ThumbWidth thumb mod 2 ^ 16;
                         ThumbHeight thumb mod 2 ^ 16];
                Size := Z.of_nat (length srcData);
                Artist := SrcArtist src;
                Title := SrcTitle src;
                MD5 := md5_base64 srcData;
                SHA1 := SHA1 img |})
        end
    end.

(** Create a new thumbnail, commit its resources to the store, and pass the
    image token to the client. *)
Definition newThumbnail (rs : File) (img : ImageCommon)
  : N * string * option error * list call :=
  let '(src, thumb, err, img) := processFile rs img in
  match err with
  | Some ErrUnsupportedMIME => (400, EmptyString, err, [Process])
  | Some _ => (500, EmptyString, err, [Process])
  | None =>
      let src := match src with Some d => d | None => [] end in
      match db_AllocateImage src thumb img with
      | Some e => (500, EmptyString, Some e, [Process; AllocateImage img])
      | None =>
          let '(code, token, err, calls) := newImageToken (SHA1 img) in
          (code, token, err, Process :: AllocateImage img :: calls)
      end
  end.

(** ParseUpload parses the upload form.  Returns the HTTP status code of the
    response, the token and an error, if any. *)
Definition ParseUpload (req : Request) : N * string * option error * list call :=
  let '(err, calls) := parseUploadForm req in
  match err with
  | Some _ => (400, EmptyString, err, calls)
  | None =>
      match FormFile req with
      | Err e => (400, EmptyString, Some e, calls)
      | Ok file =>
          match sha1_hex file with
          | Err e => (500, EmptyString, Some e, calls)
          | Ok SHA1 =>
              let '(img, err) := db_GetImage SHA1 in
              match err with
              | None =>
                  let '(code, token, err, more) := newImageToken SHA1 in
                  (code, token, err, calls ++ GetImage SHA1 :: more)
              | Some ErrNoRows =>
                  let '(code, token, err, more) :=
                    newThumbnail file (set_SHA1 SHA1 img) in
                  (code, token, err, calls ++ GetImage SHA1 :: more)
              | Some e =>
                  (500, EmptyString, Some e, calls ++ [GetImage SHA1])
              end
          end
      end
  end.

(** NewImageUpload handles the clients' image (or other file) upload
    request.  The size limit that it installs on the body acts inside the
    parse of the form, which is one of the parameters above. *)
Definition NewImageUpload (w : Http.Response) (r : Request)
  : Http.Response * list call :=
  let '(code, id, err, calls) := ParseUpload r in
  let w := match err with Some e => LogError w code e | None => w end in
  (Write w (bytes_of_string id), calls).

(** [ioutil.ReadAll] on [http.MaxBytesReader] with a limit of [n] bytes. *)
Definition ReadAll_limited (n : nat) (body : list byte) : result error (list byte) :=
  if (length body <=? n)%nat then Ok body
  else Err (otherError "http: request body too large").

(** UploadImageHash attempts to skip image upload, if the file has already
    been thumbnailed and is stored on the server. *)
Definition UploadImageHash (w : Http.Response) (req : Request)
  : Http.Response * list call :=
  match ReadAll_limited 40 (Body req) with
  | Err e => (LogError w 500 e, [])
  | Ok buf =>
      let hash := string_of_bytes buf in
      let '(_, err) := db_GetImage hash in
      match err with
      | Some ErrNoRows => (w, [GetImage hash])
      | Some e => (LogError w 500 e, [GetImage hash])
      | None =>
          let '(token, err) := db_NewImageToken hash in
          let w := match err with Some e => LogError w 500 e | None => w end in
          (Write w (bytes_of_string token), [GetImage hash; NewImageToken hash])
      end
  end.

End Upload.

End Imager.

(** ** Vocabulary for the upload results *)

Module Outcome.
Import Imager.

(** The parts of what [ParseUpload] and its helpers return. *)
Definition code_of (r : N * string * option error * list call) : N :=
  r.1.1.1.
Definition token_of (r : N * string * option error * list call) : string :=
  r.1.1.2.
Definition error_of (r : N * string * option error * list call) : option error :=
  r.1.2.
Definition calls_of (r : N * string * option error * list call) : list call :=
  r.2.

(** The image record as [processFile] leaves it, and the error it returns. *)
Definition image_of
    (r : option (list byte) * option (list byte) * option error * ImageCommon)
  : ImageCommon := r.2.
Definition failure_of
    (r : option (list byte) * option (list byte) * option error * ImageCommon)
  : option error := r.1.2.
Definition source_of
    (r : option (list byte) * option (list byte) * option error * ImageCommon)
  : option (list byte) := r.1.1.1.

End Outcome.

(** ** Client: batching of DOM writes and reads *)

Module Batch.

(** What an operation does when it is called: it touches the DOM (only a
    label of the effect is kept), it may schedule further operations through
    the exported [write] and [read], and it may throw, which ends it and
    every caller up to the animation frame callback.  An operation is the
    list of its actions in order. *)
#[local] Set Warnings "-register-all".
Inductive action : Type :=
| Dom (label : nat)
| CallWrite (operation : list action)
| CallRead (operation : list action)
| Throw.

Abbreviation Operation := (list action) (only parsing).

(** The module state: the two stacks, the [scheduled] flag (undefined, hence
    false, at load), the animation frame callbacks that were requested and
    have not run yet, and the DOM effects performed so far. *)
Record State : Type := {
  readStack : list (list action);
  writeStack : list (list action);
  scheduled : bool;
  frames : nat;
  effects : list nat
}.

Definition initial : State :=
  {| readStack := []; writeStack := []; scheduled := false; frames := 0;
     effects := [] |}.

(** Schedule a flush on the next animation frame, if not yet scheduled. *)
Definition scheduleFlush (s : State) : State :=
  if scheduled s then s
  else
    {| readStack := readStack s; writeStack := writeStack s;
       scheduled := true; frames := S (frames s); effects := effects s |}.

(** Schedule a DOM write operation. *)
Definition write (operation : Operation) (s : State) : State :=
  scheduleFlush
    {| readStack := readStack s; writeStack := writeStack s ++ [operation];
       scheduled := scheduled s; frames := frames s; effects := effects s |}.

(** Schedule a DOM read operation. *)
Definition read (operation : Operation) (s : State) : State :=
  scheduleFlush
    {| readStack := readStack s ++ [operation]; writeStack := writeStack s;
       scheduled := scheduled s; frames := frames s; effects := effects s |}.

(** One action of an operation that is being called; the throw itself leaves
    the module state as it is. *)
Definition act (s : State) (a : action) : State :=
  match a with
  | Dom label =>
      {| readStack := readStack s; writeStack := writeStack s;
         scheduled := scheduled s; frames := frames s;
         effects := effects s ++ [label] |}
  | CallWrite operation => write operation s
  | CallRead operation => read operation s
  | Throw => s
  end.

(** The call [operation()]: the state it leaves, and whether it threw.  What
    follows a throw in the operation does not happen. *)
Fixpoint call (s : State) (operation : Operation) : State * bool :=
  match operation with
  | [] => (s, false)
  | Throw :: _ => (s, true)
  | a :: rest => call (act s a) rest
  end.

(** A loop that calls the operations of an array one after the other: an
    exception leaves the loop, there is no handler around the call. *)
Fixpoint calls (s : State) (operations : list (list action)) : State * bool :=
  match operations with
  | [] => (s, false)
  | operation :: rest =>
      let '(s1, thrown) := call s operation in
      if thrown then (s1, true) else calls s1 rest
  end.

(** Perform all write tasks and then read tasks in the stack.  The stacks
    and the flag are reset before the first call; an exception in one of
    the loops leaves the function with nothing restored. *)
Definition flush (s : State) : State * bool :=
  let writes := writeStack s in
  let reads := readStack s in
  let s := {| readStack := []; writeStack := []; scheduled := false;
              frames := frames s; effects := effects s |} in
  let '(s1, thrown) := calls s writes in
  if thrown then (s1, true) else calls s1 reads.

(** The browser runs a requested animation frame callback, which calls
    [flush] through [followDOM]; an exception that leaves [flush] ends the
    callback, and the module state stays as [flush] left it.  Nothing
    happens when no frame is pending. *)
Definition frame (s : State) : State :=
  match frames s with
  | O => s
  | S n =>
      (flush {| readStack := readStack s; writeStack := writeStack s;
                scheduled := scheduled s; frames := n;
                effects := effects s |}).1
  end.

(** What reaches the module from outside. *)
Inductive event : Type :=
| Write (operation : list action)
| Read (operation : list action)
| Frame.

Definition step (s : State) (ev : event) : State :=
  match ev with
  | Write operation => write operation s
  | Read operation => read operation s
  | Frame => frame s
  end.

Definition run (evs : list event) : State := fold_left step evs initial.

(** The DOM effects of an operation and the operations it schedules. *)
Definition labels (operation : Operation) : list nat :=
  flat_map (fun a => match a with Dom l => [l] | _ => [] end) operation.

Definition queued_writes (operation : Operation) : list (list action) :=
  flat_map (fun a => match a with CallWrite o => [o] | _ => [] end) operation.

Definition queued_reads (operation : Operation) : list (list action) :=
  flat_map (fun a => match a with CallRead o => [o] | _ => [] end) operation.

(** An operation that throws when it is called, and the part of an operation
    that happens: its actions before the first throw. *)
Definition throws (operation : Operation) : bool :=
  existsb (fun a => match a with Throw => true | _ => false end) operation.

Fixpoint performed (operation : Operation) : list action :=
  match operation with
  | [] => []
  | Throw :: _ => []
  | a :: rest => a :: performed rest
  end.

(** Of operations that are to be called one after the other, what happens:
    the operations before the first one that throws, and of that one the
    part before the throw. *)
Fixpoint executed (operations : list (list action)) : list (list action) :=
  match operations with
  | [] => []
  | operation :: rest =>
      if throws operation then [performed operation]
      else operation :: executed rest
  end.

(** A frame is pending exactly when the flag is set, at most one frame is
    pending, and nothing is queued while the flag is clear. *)
Definition consistent (s : State) : Prop :=
  (scheduled s = true <-> frames s = 1%nat) /\
  (frames s <= 1)%nat /\
  (scheduled s = false -> readStack s = [] /\ writeStack s = []).

End Batch.

(** ** Concrete uploads, pages and operations used to exercise the statements *)

Module SampleUpload.
Import Imager.

Definition blank : ImageCommon :=
  {| APNG := false; Audio := false; Video := false; FileType := 0;
     ThumbType := 0; Length := 0; Dims := []; Size := 0;
     Artist := EmptyString; Title := EmptyString; MD5 := EmptyString;
     SHA1 := EmptyString |}.

(** A file is its contents; its hash is written as its first four bytes. *)
Definition sha1_hex (file : list byte) : result error string :=
  Ok (string_of_bytes (take 4 file)).

Definition FormFile (req : Request) : result error (list byte) := Ok (Body req).

Definition form_error (req : Request) : option error := None.

(** The thumbnailer finds a PNG of 70000 by 100 pixels and makes no
    thumbnail. *)
Definition thumbnailer_Process (file : list byte)
  : Source * Thumbnail * option error :=
  ({| Mime := "image/png"; HasAudio := false; HasVideo := false;
      SrcLength := 0; SrcArtist := EmptyString; SrcTitle := EmptyString;
      SrcWidth := 70000; SrcHeight := 100 |},
   {| Data := None; IsPNG := false; ThumbWidth := 0; ThumbHeight := 0 |},
   Some ErrNoThumb).

Definition Seek (file : list byte) : option error := None.
Definition ReadFrom (file : list byte) : result error (list byte) := Ok file.
Definition apng_Detect (data : list byte) : bool := false.
Definition md5_base64 (data : list byte) : string := "md5".

(** The store knows the hash "seen" and issues the token "tok". *)
Definition db_GetImage (hash : string) : ImageCommon * option error :=
  if String.eqb hash "seen" then (set_SHA1 "seen" blank, None)
  else (blank, Some ErrNoRows).

Definition db_NewImageToken (hash : string) : string * option error :=
  ("tok"%string, None).

Definition db_AllocateImage (src : list byte) (thumb : option (list byte))
    (img : ImageCommon) : option error := None.

Definition library_text (e : error) : string := "library error".

(** A first write that finds no Content-Type sniffs plain text. *)
Definition sniffed_headers (w : Http.Response) (data : list byte)
  : gmap string string :=
  match Http.headers w !! "Content-Type"%string with
  | Some _ => Http.headers w
  | None =>
      <["Content-Type"%string := "text/plain; charset=utf-8"%string]>
        (Http.headers w)
  end.

Definition upload (length : list string) (body : string) : Request :=
  {| Header := <["Content-Length"%string := length]> ∅;
     Body := bytes_of_string body |}.

(** A reader that delivers a tar header, and one that delivers too little. *)
Definition tar_reader : Reader :=
  {| delivered := replicate 257 x00 ++ bytes_of_string "ustar" ++ [x00; x30];
     read_error := false |}.

Definition short_reader : Reader :=
  {| delivered := bytes_of_string "ustar"; read_error := false |}.

End SampleUpload.

Module SamplePage.
Import Http.

Definition text400 (w : Response) (e : Strconv.NumError) : Response :=
  {| status := 400; headers := headers w; body := [] |}.
Definition text404 (w : Response) : Response :=
  {| status := 404; headers := headers w; body := [] |}.
Definition text500 (w : Response) (r : Request) (e : Websockets.error) : Response :=
  {| status := 500; headers := headers w; body := [] |}.
Definition pageEtag (w : Response) (r : Request) (etag : string) : Response * bool :=
  (w, true).
Definition etagStart (counter : Z) : string := "W/0".
Definition writeData (w : Response) (r : Request) (data : list byte) : Response :=
  {| status := status w; headers := headers w; body := body w ++ data |}.
Definition HashBuffer (data : list byte) : string := "hash".

(** The store holds thread 5 on board a. *)
Definition ValidateOP (id : Z) (board : string) : result Websockets.error bool :=
  Ok ((id =? 5)%Z && String.eqb board "a").
Definition ThreadCounter (id : Z) : result Websockets.error Z := Ok 9%Z.
Definition GetThread (id lastN : Z) : result Websockets.error (list byte) :=
  Ok [x7b; x7d].
Definition json_Marshal (data : list byte) : result Websockets.error (list byte) :=
  Ok data.

Definition params (board thread : string) : gmap string string :=
  <["board"%string := board]> (<["thread"%string := thread]> ∅).

End SamplePage.

(** * Properties *)

(** ** strconv *)

Module StrconvFacts.
Import Strconv.

Example ParseUint_07 : ParseUint "07" 8 = Ok 7.
Proof. reflexivity. Qed.

Example ParseUint_signed : ParseUint "+7" 8 = Err ErrSyntax.
Proof. reflexivity. Qed.

Example ParseUint_256 : ParseUint "256" 8 = Err ErrRange.
Proof. reflexivity. Qed.

Example ParseUint_max : ParseUint "18446744073709551615" 64 = Ok maxUint64.
Proof. vm_compute. reflexivity. Qed.

Example ParseUint_overflow : ParseUint "18446744073709551616" 64 = Err ErrRange.
Proof. vm_compute. reflexivity. Qed.

Example Atoi_neg : Atoi "-12" = Ok (-12)%Z.
Proof. reflexivity. Qed.

Example Atoi_min : Atoi "-9223372036854775808" = Ok (-9223372036854775808)%Z.
Proof. vm_compute. reflexivity. Qed.

Example Atoi_big : Atoi "9223372036854775808" = Err ErrRange.
Proof. vm_compute. reflexivity. Qed.

Example Atoi_sign_only : Atoi "-" = Err ErrSyntax.
Proof. reflexivity. Qed.

Example FormatUint_0 : FormatUint 0 = "0"%string.
Proof. reflexivity. Qed.

Example FormatUint_255 : FormatUint 255 = "255"%string.
Proof. reflexivity. Qed.

Lemma N_of_ascii_of_byte (b : byte) : N_of_ascii (ascii_of_byte b) = Byte.to_N b.
Proof. destruct b; reflexivity. Qed.

Lemma is_digit_of_byte (b : byte) :
  is_digit (ascii_of_byte b) = Spec.is_ascii_digit b.
Proof. unfold is_digit, Spec.is_ascii_digit. now rewrite N_of_ascii_of_byte. Qed.

Lemma is_digit_bounds (c : ascii) :
  is_digit c = true -> 48 <= N_of_ascii c <= 57.
Proof.
  unfold is_digit. intros H. apply andb_prop in H as [H1 H2].
  apply N.leb_le in H1, H2. lia.
Qed.

(** One turn of the digit loop on a digit that keeps the value in range. *)
Lemma parseDigits_digit (maxVal : N) (c : ascii) (rest : string) (n : N) :
  is_digit c = true ->
  n * 10 + (N_of_ascii c - 48) <= maxVal ->
  maxVal < 2 ^ 64 ->
  parseDigits maxVal (String c rest) n
  = parseDigits maxVal rest (n * 10 + (N_of_ascii c - 48)).
Proof.
  intros Hd Hle Hmax. cbn [parseDigits]. rewrite Hd.
  change (maxUint64 / 10 + 1) with 1844674407370955162.
  change (2 ^ 64) with 18446744073709551616 in *.
  destruct (N.leb_spec 1844674407370955162 n) as [Hbig|_]; [lia|].
  cbv zeta. rewrite N.mod_small by lia.
  destruct (N.ltb_spec (n * 10 + (N_of_ascii c - 48)) (n * 10)) as [?|_]; [lia|].
  destruct (N.ltb_spec maxVal (n * 10 + (N_of_ascii c - 48))) as [?|_]; [lia|].
  reflexivity.
Qed.

Lemma parseDigits_nondigit (maxVal : N) (c : ascii) (rest : string) (n : N) :
  is_digit c = false ->
  parseDigits maxVal (String c rest) n = Err ErrSyntax.
Proof. intros Hd. cbn [parseDigits]. now rewrite Hd. Qed.

(** [ParseUint] on exactly two bytes at bit size 8: it succeeds exactly on two
    decimal digits, with their value. *)
Lemma ParseUint_two_bytes (a b : byte) :
  ParseUint (string_of_bytes [a; b]) 8
  = if Spec.is_ascii_digit a && Spec.is_ascii_digit b
    then Ok (10 * (Byte.to_N a - 48) + (Byte.to_N b - 48))
    else Err ErrSyntax.
Proof.
  change (string_of_bytes [a; b])
    with (String (ascii_of_byte a) (String (ascii_of_byte b) EmptyString)).
  unfold ParseUint. change (if 8 =? 0 then 64 else 8) with 8. cbv zeta.
  change (2 ^ 8 - 1) with 255.
  rewrite <- !is_digit_of_byte, <- !N_of_ascii_of_byte.
  destruct (is_digit (ascii_of_byte a)) eqn:Ha.
  - pose proof (is_digit_bounds _ Ha) as Ba.
    rewrite parseDigits_digit by (try assumption; cbn; lia).
    destruct (is_digit (ascii_of_byte b)) eqn:Hb.
    + pose proof (is_digit_bounds _ Hb) as Bb.
      rewrite parseDigits_digit by (try assumption; cbn; lia).
      cbn [parseDigits andb]. f_equal. lia.
    + now rewrite parseDigits_nondigit.
  - now rewrite parseDigits_nondigit.
Qed.

Lemma ParseUint_two_bytes_bound (a b : byte) (u : N) :
  ParseUint (string_of_bytes [a; b]) 8 = Ok u -> u < 100.
Proof.
  rewrite ParseUint_two_bytes.
  destruct (Spec.is_ascii_digit a) eqn:Ha, (Spec.is_ascii_digit b) eqn:Hb;
    cbn [andb]; intros H; inversion H; subst.
  unfold Spec.is_ascii_digit in *.
  apply andb_prop in Ha as [Ha1 Ha2]. apply andb_prop in Hb as [Hb1 Hb2].
  apply N.leb_le in Ha1, Ha2, Hb1, Hb2. lia.
Qed.

End StrconvFacts.

(** ** The client monad *)

Module MonadFacts.
Import Websockets.

Lemma bind_ret_l {A B} (a : A) (f : A -> M B) (c : Client) :
  bind (ret a) f c = f a c.
Proof. unfold bind, ret. destruct (f a c); reflexivity. Qed.

Lemma bind_get {B} (f : Client -> M B) (c : Client) :
  bind get f c = f c c.
Proof. unfold bind, get. destruct (f c c); reflexivity. Qed.

Lemma bind_modify {B} (g : Client -> Client) (f : unit -> M B) (c : Client) :
  bind (modify g) f c = f tt (g c).
Proof. unfold bind, modify. destruct (f tt (g c)); reflexivity. Qed.

Lemma bind_panic {A B} (f : A -> M B) (c : Client) :
  bind panic f c = Panics [].
Proof. reflexivity. Qed.

Lemma bind_returns {A B} (m : M A) (f : A -> M B) (c c1 : Client) a calls :
  m c = Returns a c1 calls ->
  bind m f c =
  match f a c1 with
  | Panics calls2 => Panics (calls ++ calls2)
  | Returns b c2 calls2 => Returns b c2 (calls ++ calls2)
  end.
Proof. intros H. unfold bind. now rewrite H. Qed.

(** The tail [if err != nil { return err }; return nil] changes nothing. *)
Lemma bind_error_eta (m : M (option error)) (c : Client) :
  bind m (fun e => match e with Some e => ret (Some e) | None => ret None end) c
  = m c.
Proof.
  unfold bind, ret. destruct (m c) as [[e|] c1 calls|calls];
    now rewrite ?app_nil_r.
Qed.

End MonadFacts.

(** ** websockets: codec, dispatch, teardown *)

Module WebsocketsProofs.
Import Http Websockets Spec MonadFacts.

Lemma typeTag_header (typ : messageType) (rest : list byte) :
  typ < 100 ->
  match bytes_of_string (Strconv.FormatUint typ) with
  | [digit] => <[1%nat := digit]> (<[0%nat := x30]> (x00 :: x00 :: rest))
  | _ => copy (x00 :: x00 :: rest) (bytes_of_string (Strconv.FormatUint typ))
  end = typeTag typ ++ rest.
Proof.
  intros H. destruct typ as [|p]; [reflexivity|].
  do 7 (destruct p as [p|p|]; try lia;
        try solve [reflexivity | cbn; rewrite take_nil; reflexivity]).
Qed.

Lemma typeTag_parse (typ : messageType) :
  typ < 100 ->
  Strconv.ParseUint (string_of_bytes (typeTag typ)) 8 = Ok typ.
Proof.
  intros H. destruct typ as [|p]; [reflexivity|].
  do 7 (destruct p as [p|p|]; try lia; try reflexivity).
Qed.

Lemma copy_onto_replicate (data : list byte) :
  copy (replicate (length data) x00) data = data.
Proof.
  unfold copy. rewrite length_replicate, take_ge, drop_ge by (rewrite ?length_replicate; lia).
  apply app_nil_r.
Qed.

Section Proofs.

Context (payload : Type)
        (json_Marshal : payload -> result error (list byte))
        (payload_of_string : string -> payload)
        (messageInvalid messageSynchronise messageResynchronise : messageType)
        (handlers : gmap messageType handler)
        (WrapError : string -> option error -> error)
        (CloseError_text : Z -> string -> string).

Local Abbreviation encodeMessage := (encodeMessage payload json_Marshal).
Local Abbreviation handleMessage :=
  (handleMessage messageSynchronise messageResynchronise handlers).
Local Abbreviation listenerLoop :=
  (listenerLoop messageSynchronise messageResynchronise handlers).
Local Abbreviation closeConnections :=
  (closeConnections payload json_Marshal payload_of_string messageInvalid
     WrapError CloseError_text).
Local Abbreviation Listen :=
  (Listen payload json_Marshal payload_of_string messageInvalid
     messageSynchronise messageResynchronise handlers WrapError CloseError_text).
Local Abbreviation Error := (Error CloseError_text).

(** The frame that [encodeMessage] builds for a type below 100. *)
Lemma encodeMessage_frame (typ : messageType) (msg : payload) (data : list byte) :
  typ < 100 ->
  json_Marshal msg = Ok data ->
  encodeMessage typ msg = Ok (typeTag typ ++ data).
Proof.
  intros Hlt Hdata. unfold Websockets.encodeMessage. rewrite Hdata.
  replace (length data + 2)%nat with (S (S (length data))) by lia.
  cbn [replicate]. rewrite typeTag_header by assumption.
  change (take 2 (typeTag typ ++ replicate (length data) x00)) with (typeTag typ).
  change (drop 2 (typeTag typ ++ replicate (length data) x00))
    with (replicate (length data) x00).
  now rewrite copy_onto_replicate.
Qed.

(** What [handleMessage] does with a text frame that carries a valid tag. *)
Lemma handleMessage_dispatch (c : Client) (a b : byte) (rest : list byte) (t : N) :
  Strconv.ParseUint (string_of_bytes [a; b]) 8 = Ok t ->
  handleMessage TextMessage (a :: b :: rest) c
  = if negb (c_synced c) && negb (t =? messageSynchronise)
       && negb (t =? messageResynchronise)
    then Returns (Some (errInvalidPayload (a :: b :: rest))) c []
    else runHandler handlers t (a :: b :: rest) c.
Proof.
  intros Hparse. unfold Websockets.handleMessage.
  change (negb (TextMessage =? TextMessage)%Z) with false. cbv iota.
  change (length (a :: b :: rest) <? 2)%nat with false. cbv iota.
  change (take 2 (a :: b :: rest)) with [a; b]. rewrite Hparse.
  pose proof (StrconvFacts.ParseUint_two_bytes_bound _ _ _ Hparse) as Hlt.
  unfold to_messageType. rewrite N.mod_small by lia.
  rewrite bind_get.
  destruct (negb (c_synced c) && negb (t =? messageSynchronise)
            && negb (t =? messageResynchronise)); [reflexivity|].
  apply bind_error_eta.
Qed.

(** C1: for a message type below 100 and a payload that serialises, the
    frame built by encodeMessage is the two-digit tag followed by the
    serialised payload; reading its first two bytes back as handleMessage
    does yields the type, the rest is the payload as runHandler slices it,
    and handleMessage hands exactly that type and payload to the handler. *)
Theorem encode_decode_roundtrip
    (typ : messageType) (msg : payload) (data : list byte) :
  typ < 100 ->
  json_Marshal msg = Ok data ->
  exists frame,
    encodeMessage typ msg = Ok frame /\
    frame = typeTag typ ++ data /\
    Strconv.ParseUint (string_of_bytes (take 2 frame)) 8 = Ok typ /\
    to_messageType typ = typ /\
    drop 2 frame = data /\
    forall (h : handler) (c : Client),
      handlers !! typ = Some h ->
      c_synced c = true \/ typ = messageSynchronise \/ typ = messageResynchronise ->
      handleMessage TextMessage frame c = bind (emit (Invoke typ data)) (fun _ => h data) c.
Proof.
  intros Hlt Hdata. exists (typeTag typ ++ data).
  pose proof (typeTag_parse typ Hlt) as Hparse.
  repeat split.
  - now apply encodeMessage_frame.
  - exact Hparse.
  - unfold to_messageType. apply N.mod_small. lia.
  - intros h c Hh Hsync.
    change (typeTag typ ++ data)
      with (byte_of_N (48 + typ / 10) :: byte_of_N (48 + typ mod 10) :: data).
    rewrite (handleMessage_dispatch c _ _ data typ) by exact Hparse.
    replace (negb (c_synced c) && negb (typ =? messageSynchronise)
             && negb (typ =? messageResynchronise)) with false.
    + unfold runHandler, handler in *. now rewrite Hh.
    + symmetry. destruct Hsync as [Hs|[Hs|Hs]].
      * now rewrite Hs.
      * subst. rewrite N.eqb_refl. cbn. now rewrite andb_false_r.
      * subst. rewrite N.eqb_refl. cbn. now rewrite !andb_false_r.
Qed.

(** *** Teardown *)

Lemma closeConnections_abnormal (e : error) (c : Client) :
  live c ->
  is_CloseError e = false ->
  closeConnections (Some e) c
  = Returns (teardown_error WrapError Error c (Some e))
      (torn_down (Some e) c)
      (notice_calls (encodeMessage messageInvalid (payload_of_string (Error e)))
       ++ [close_frame CloseInvalidFramePayloadData; ConnClose]).
Proof.
  intros (Hclose & Hwrite & Hfeed) Hkind.
  destruct c as [synced ip [werr cerr closed] tok post rcv wr cl feed].
  cbn in Hclose, Hwrite, Hfeed. subst cl wr.
  unfold Websockets.closeConnections, sendMessage, teardown_error, torn_down.
  destruct e as [p|s|code text|text]; try discriminate Hkind;
    destruct feed; try congruence;
    match goal with
    | |- context [Websockets.encodeMessage ?p ?j ?t ?m] =>
        destruct (Websockets.encodeMessage p j t m)
    end;
    destruct cerr; reflexivity.
Qed.

Lemma closeConnections_normal (err : option error) (c : Client) :
  c_write c = ChanOpen ->
  c_closeUpdateFeed c <> ChanClosed ->
  (err <> None -> c_close c = ChanOpen) ->
  clean_exit err ->
  closeConnections err c
  = Returns (teardown_error WrapError Error c None)
      (torn_down err c)
      [close_frame CloseNormalClosure; ConnClose].
Proof.
  intros Hwrite Hfeed Hclose Hkind.
  destruct c as [synced ip [werr cerr closed] tok post rcv wr cl feed].
  cbn in Hclose, Hwrite, Hfeed. subst wr.
  unfold Websockets.closeConnections, teardown_error, torn_down.
  destruct Hkind as [->|(code & text & -> & [->| ->])].
  - destruct feed; try congruence; destruct cerr; reflexivity.
  - rewrite Hclose by discriminate.
    destruct feed; try congruence; destruct cerr; reflexivity.
  - rewrite Hclose by discriminate.
    destruct feed; try congruence; destruct cerr; reflexivity.
Qed.

(** *** The loop and its exit *)

Lemma listenerLoop_rejects (kind : Z) (frame : list byte) (e : error)
    (c c1 : Client) (calls : list effect) (sched : list selected) :
  handleMessage kind frame c = Returns (Some e) c1 calls ->
  listenerLoop (received kind frame :: sched) c
  = Returns (Some (Some e)) c1 calls.
Proof.
  intros H. unfold received. cbn [Websockets.listenerLoop err typ msg].
  rewrite (bind_returns _ _ _ _ _ _ H). cbn. now rewrite app_nil_r.
Qed.

Lemma Listen_exit (sched : list selected) (c c1 c2 : Client)
    (e e' : option error) (calls calls2 : list effect) :
  listenerLoop sched c = Returns (Some e) c1 calls ->
  closeConnections e c1 = Returns e' c2 calls2 ->
  Listen sched c = Returns (Some e') c2 (calls ++ ClientsRemove :: calls2).
Proof.
  intros Hloop Hclose. unfold Websockets.Listen.
  rewrite (bind_returns _ _ _ _ _ _ Hloop).
  unfold bind at 1. cbn [emit].
  rewrite (bind_returns _ _ _ _ _ _ Hclose). cbn.
  now rewrite app_nil_r.
Qed.

Lemma notice_calls_quiet (encoded : result error (list byte)) (tail : list effect) :
  forallb (fun x => negb (is_Invoke x)) tail = true ->
  forallb (fun x => negb (is_Invoke x)) (notice_calls encoded ++ tail) = true.
Proof. intros H. destruct encoded; cbn; assumption. Qed.

(** A frame that [handleMessage] rejects without touching the client ends
    the connection: the loop returns the error whatever else is scheduled,
    and [Listen] removes the client, sends the notice and the close frame and
    closes the socket. *)
Lemma rejection_terminates (kind : Z) (frame : list byte) (e : error)
    (c : Client) (sched : list selected) :
  handleMessage kind frame c = Returns (Some e) c [] ->
  is_CloseError e = false ->
  live c ->
  Listen (received kind frame :: sched) c
  = Returns (Some (teardown_error WrapError Error c (Some e)))
      (torn_down (Some e) c)
      (ClientsRemove ::
       notice_calls (encodeMessage messageInvalid (payload_of_string (Error e)))
       ++ [close_frame CloseInvalidFramePayloadData; ConnClose])
  /\ terminated (Listen (received kind frame :: sched) c).
Proof.
  intros Hreject Hkind Hlive.
  pose proof (listenerLoop_rejects _ _ _ _ _ _ sched Hreject) as Hloop.
  pose proof (closeConnections_abnormal e c Hlive Hkind) as Hclose.
  pose proof (Listen_exit _ _ _ _ _ _ _ _ Hloop Hclose) as HListen.
  cbn [app] in HListen. split; [exact HListen|].
  unfold terminated. do 3 eexists. split; [exact HListen|].
  repeat split.
  - cbn. now apply notice_calls_quiet.
  - cbn [last]. destruct (encodeMessage _ _); reflexivity.
Qed.

(** A teardown on an error closes the feed channel (unless it is nil), the
    close channel and the write channel before it writes anything.  Unless
    all of them can still be closed, that is unless the client is [live], it
    panics at one of these [close] calls with nothing written and the socket
    left open. *)
Lemma closeConnections_not_live (e : error) (c : Client) :
  ~ live c -> closeConnections (Some e) c = Panics [].
Proof.
  intros Hdead.
  destruct c as [synced ip [werr cerr closed] tok post rcv wr cl feed].
  unfold live in Hdead. cbn in Hdead. unfold Websockets.closeConnections.
  destruct feed, cl, wr; try reflexivity;
    exfalso; apply Hdead; repeat split; discriminate.
Qed.

Lemma Listen_panics (sched : list selected) (c c1 : Client)
    (e : option error) (calls calls2 : list effect) :
  listenerLoop sched c = Returns (Some e) c1 calls ->
  closeConnections e c1 = Panics calls2 ->
  Listen sched c = Panics (calls ++ ClientsRemove :: calls2).
Proof.
  intros Hloop Hclose. unfold Websockets.Listen.
  rewrite (bind_returns _ _ _ _ _ _ Hloop).
  unfold bind at 1. cbn [emit]. unfold bind at 1. now rewrite Hclose.
Qed.

(** The same rejected frame on a client that is not [live], such as one on
    which Close has run: the loop still returns the error, and the teardown
    panics right after the client left the registry. *)
Lemma rejection_panics (kind : Z) (frame : list byte) (e : error)
    (c : Client) (sched : list selected) :
  handleMessage kind frame c = Returns (Some e) c [] ->
  ~ live c ->
  Listen (received kind frame :: sched) c = Panics [ClientsRemove].
Proof.
  intros Hreject Hdead.
  pose proof (listenerLoop_rejects _ _ _ _ _ _ sched Hreject) as Hloop.
  exact (Listen_panics _ _ _ _ _ _ Hloop (closeConnections_not_live e c Hdead)).
Qed.

Lemma handleMessage_short (c : Client) (frame : list byte) :
  (length frame < 2)%nat ->
  handleMessage TextMessage frame c
  = Returns (Some (errInvalidPayload frame)) c [].
Proof.
  intros H. destruct frame as [|a [|b rest]]; [reflexivity|reflexivity|].
  cbn in H. lia.
Qed.

Lemma handleMessage_bad_tag (c : Client) (a b : byte) (rest : list byte)
    (e : Strconv.NumError) :
  Strconv.ParseUint (string_of_bytes [a; b]) 8 = Err e ->
  handleMessage TextMessage (a :: b :: rest) c
  = Returns (Some (errInvalidPayload (a :: b :: rest))) c [].
Proof.
  intros Hparse. unfold Websockets.handleMessage.
  change (negb (TextMessage =? TextMessage)%Z) with false. cbv iota.
  change (length (a :: b :: rest) <? 2)%nat with false. cbv iota.
  change (take 2 (a :: b :: rest)) with [a; b]. now rewrite Hparse.
Qed.

(** C2: on a connection that is not synced, a well-formed text frame whose
    type is neither synchronise nor resynchronise makes handleMessage return
    the out-of-sequence error (the code's errInvalidPayload carrying the
    frame) with the client untouched and no handler called, and the loop
    returns that error whatever else is pending.  Whether the error then
    terminates the connection depends on the channels: on a live client
    Listen tears the connection down and closes the socket; on any other
    client, such as one on which Close has run, the teardown panics right
    after the client left the registry, and the socket stays open. *)
Theorem unsynced_rejects_out_of_sequence
    (c : Client) (frame : list byte) (t : N) (sched : list selected) :
  c_synced c = false ->
  (2 <= length frame)%nat ->
  Strconv.ParseUint (string_of_bytes (take 2 frame)) 8 = Ok t ->
  to_messageType t <> messageSynchronise ->
  to_messageType t <> messageResynchronise ->
  handleMessage TextMessage frame c
  = Returns (Some (errInvalidPayload frame)) c [] /\
  listenerLoop (received TextMessage frame :: sched) c
  = Returns (Some (Some (errInvalidPayload frame))) c [] /\
  (live c -> terminated (Listen (received TextMessage frame :: sched) c)) /\
  (~ live c ->
   Listen (received TextMessage frame :: sched) c = Panics [ClientsRemove]).
Proof.
  intros Hsync Hlen Hparse HnS HnR.
  destruct frame as [|a [|b rest]]; cbn in Hlen; try lia.
  change (take 2 (a :: b :: rest)) with [a; b] in Hparse.
  pose proof (StrconvFacts.ParseUint_two_bytes_bound _ _ _ Hparse) as Hlt.
  unfold to_messageType in HnS, HnR. rewrite N.mod_small in HnS, HnR by lia.
  assert (Hreject : handleMessage TextMessage (a :: b :: rest) c
                    = Returns (Some (errInvalidPayload (a :: b :: rest))) c []).
  { rewrite (handleMessage_dispatch c a b rest t Hparse), Hsync.
    apply N.eqb_neq in HnS, HnR. now rewrite HnS, HnR. }
  split; [exact Hreject|]. split; [|split].
  - now apply listenerLoop_rejects.
  - intros Hlive.
    exact (proj2 (rejection_terminates _ _ _ _ sched Hreject eq_refl Hlive)).
  - intros Hdead. exact (rejection_panics _ _ _ _ sched Hreject Hdead).
Qed.

(** C4: a text frame shorter than two bytes, or whose first two bytes are not
    both ASCII decimal digits, makes handleMessage fail with the malformed
    frame error (errInvalidPayload carrying the frame) without touching the
    client, and the loop returns that error.  On a live client Listen then
    tears the connection down and closes the socket; on any other client,
    such as one on which Close has run, the teardown panics right after the
    client left the registry, and the socket stays open. *)
Theorem malformed_frame_rejected
    (c : Client) (frame : list byte) (sched : list selected) :
  (length frame < 2)%nat \/ forallb is_ascii_digit (take 2 frame) = false ->
  handleMessage TextMessage frame c
  = Returns (Some (errInvalidPayload frame)) c [] /\
  listenerLoop (received TextMessage frame :: sched) c
  = Returns (Some (Some (errInvalidPayload frame))) c [] /\
  (live c -> terminated (Listen (received TextMessage frame :: sched) c)) /\
  (~ live c ->
   Listen (received TextMessage frame :: sched) c = Panics [ClientsRemove]).
Proof.
  intros Hbad.
  assert (Hreject : handleMessage TextMessage frame c
                    = Returns (Some (errInvalidPayload frame)) c []).
  { destruct (Nat.lt_ge_cases (length frame) 2) as [Hshort|Hlong].
    - now apply handleMessage_short.
    - destruct Hbad as [Hshort|Hdigits]; [lia|].
      destruct frame as [|a [|b rest]]; cbn in Hlong; try lia.
      cbn in Hdigits. rewrite andb_true_r in Hdigits.
      pose proof (StrconvFacts.ParseUint_two_bytes a b) as Hparse.
      rewrite Hdigits in Hparse.
      now apply (handleMessage_bad_tag c a b rest Strconv.ErrSyntax). }
  split; [exact Hreject|]. split; [|split].
  - now apply listenerLoop_rejects.
  - intros Hlive.
    exact (proj2 (rejection_terminates _ _ _ _ sched Hreject eq_refl Hlive)).
  - intros Hdead. exact (rejection_panics _ _ _ _ sched Hreject Hdead).
Qed.

(** C5: a frame whose transport class is not text makes handleMessage return
    the unsupported-frame error (errInvalidFrame) whatever its bytes are,
    with the client untouched and no handler called, and the loop returns
    that error.  On a live client Listen then tears the connection down and
    closes the socket; on any other client, such as one on which Close has
    run, the teardown panics right after the client left the registry, and
    the socket stays open. *)
Theorem non_text_frame_rejected
    (c : Client) (kind : Z) (frame : list byte) (sched : list selected) :
  kind <> TextMessage ->
  handleMessage kind frame c
  = Returns (Some (errInvalidFrame "only text frames allowed")) c [] /\
  listenerLoop (received kind frame :: sched) c
  = Returns (Some (Some (errInvalidFrame "only text frames allowed"))) c [] /\
  (live c -> terminated (Listen (received kind frame :: sched) c)) /\
  (~ live c -> Listen (received kind frame :: sched) c = Panics [ClientsRemove]).
Proof.
  intros Hkind.
  assert (Hreject : handleMessage kind frame c
            = Returns (Some (errInvalidFrame "only text frames allowed")) c []).
  { unfold Websockets.handleMessage.
    apply Z.eqb_neq in Hkind. now rewrite Hkind. }
  split; [exact Hreject|]. split; [|split].
  - now apply listenerLoop_rejects.
  - intros Hlive.
    exact (proj2 (rejection_terminates _ _ _ _ sched Hreject eq_refl Hlive)).
  - intros Hdead. exact (rejection_panics _ _ _ _ sched Hreject Hdead).
Qed.

(** C8, for errors that are not websocket close errors: on teardown of a
    client whose channels can still be closed (the write channel open, the
    feed channel not closed and, for a non-nil error, the close channel
    open),
    a nil error or a normal or going-away closure by the client is answered
    with one close frame carrying the normal-closure code; every error that
    is not a websocket close error is answered first with the
    invalid-message notice carrying the text of the error, sent only if it
    encodes and whatever the write answers, and then with one close frame
    carrying the invalid-payload code.  In both cases the close frame is
    attempted exactly once and the socket is closed next, whether or not the
    writes succeed. *)
Theorem teardown_close_frames (err : option error) (c : Client) :
  c_write c = ChanOpen ->
  c_closeUpdateFeed c <> ChanClosed ->
  (err <> None -> c_close c = ChanOpen) ->
  (clean_exit err ->
   closeConnections err c
   = Returns (teardown_error WrapError Error c None) (torn_down err c)
       [close_frame CloseNormalClosure; ConnClose]) /\
  (forall e, err = Some e -> is_CloseError e = false ->
   closeConnections err c
   = Returns (teardown_error WrapError Error c err) (torn_down err c)
       (notice_calls (encodeMessage messageInvalid (payload_of_string (Error e)))
        ++ [close_frame CloseInvalidFramePayloadData; ConnClose])).
Proof.
  intros Hwrite Hfeed Hclose. split.
  - intros Hclean. now apply closeConnections_normal.
  - intros e -> Hkind. apply closeConnections_abnormal; [|exact Hkind].
    repeat split; try assumption. apply Hclose. discriminate.
Qed.

End Proofs.

(** *** Close *)

Lemma Close_closed (c : Client) :
  c_close c = ChanClosed -> Close c = Returns tt c [].
Proof. intros H. unfold Close. rewrite bind_get. now rewrite H. Qed.

Lemma Close_open (c : Client) :
  c_close c = ChanOpen -> Close c = Returns tt (set_close ChanClosed c) [].
Proof.
  intros H. unfold Close, close_chan. rewrite bind_get, H, bind_get, H.
  reflexivity.
Qed.

Lemma Close_nil (c : Client) :
  c_close c = ChanNil -> Close c = Panics [].
Proof.
  intros H. unfold Close, close_chan. rewrite bind_get, H, bind_get, H.
  reflexivity.
Qed.

Lemma times_Close_closed (n : nat) (c : Client) :
  c_close c = ChanClosed -> times n Close c = Returns tt c [].
Proof.
  intros H. induction n as [|n IH]; [reflexivity|].
  cbn [times]. rewrite (bind_returns _ _ _ _ _ _ (Close_closed c H)).
  now rewrite IH.
Qed.

(** C9: Close on a client whose close channel is already closed returns
    without a panic and leaves the client as it was; on an open channel it
    closes it; and any positive number of calls in a row has the outcome of a
    single call. *)
Theorem Close_idempotent (c : Client) (n : nat) :
  (c_close c = ChanClosed -> Close c = Returns tt c []) /\
  (c_close c = ChanOpen -> Close c = Returns tt (set_close ChanClosed c) []) /\
  times (S n) Close c = Close c.
Proof.
  split; [apply Close_closed|]. split; [apply Close_open|].
  cbn [times]. destruct (c_close c) eqn:Hc.
  - unfold bind. now rewrite (Close_nil c Hc).
  - rewrite (bind_returns _ _ _ _ _ _ (Close_open c Hc)).
    rewrite times_Close_closed by reflexivity.
    now rewrite (Close_open c Hc).
  - rewrite (bind_returns _ _ _ _ _ _ (Close_closed c Hc)).
    rewrite times_Close_closed by assumption.
    now rewrite (Close_closed c Hc).
Qed.

(** *** The open post *)

Lemma expiry_cutoff (now : Time) :
  Time_Unix (Time_Add now (- Minute * 29)) = (Time_Unix now - post_ceiling)%Z.
Proof.
  unfold Time_Unix, Time_Add, Minute, post_ceiling.
  replace (now + - (60 * Second) * 29)%Z with (now + (- (29 * 60)) * Second)%Z by lia.
  rewrite Z.div_add by discriminate. lia.
Qed.

(** C3, with the result of closePost in the place of a PostExpired error:
    the access check fails with errNoPostOpen when the id
    of the open post is zero; when a post is open and was created more than
    29 minutes before the access, the check runs closePost and reports no
    post together with whatever closePost returns; otherwise it reports the
    post without touching the client.  With closePost as the spec describes
    it, the expired access flushes the body, clears the post and returns no
    error, and every later access fails with errNoPostOpen.  The check runs
    only at an access: the timer case of the loop leaves the client as it
    is. *)
Theorem hasPost_access
    (errNoPostOpen : error) (closePost : handler) (now : Time) (c : Client) :
  (id (c_openPost c) = 0%Z ->
   hasPost errNoPostOpen closePost now c
   = Returns (false, Some errNoPostOpen) c []) /\
  (id (c_openPost c) <> 0%Z ->
   (time (c_openPost c) < Time_Unix now - post_ceiling)%Z ->
   hasPost errNoPostOpen closePost now c
   = bind (closePost []) (fun e => ret (false, e)) c) /\
  (id (c_openPost c) <> 0%Z ->
   (Time_Unix now - post_ceiling <= time (c_openPost c))%Z ->
   hasPost errNoPostOpen closePost now c = Returns (true, None) c []) /\
  (id (c_openPost c) <> 0%Z ->
   (time (c_openPost c) < Time_Unix now - post_ceiling)%Z ->
   hasPost errNoPostOpen closePost_spec now c
   = Returns (false, None) (set_openPost openPost_zero c)
       [FlushPost (id (c_openPost c)) (Buffer (c_openPost c))] /\
   forall later,
     hasPost errNoPostOpen closePost_spec later (set_openPost openPost_zero c)
     = Returns (false, Some errNoPostOpen) (set_openPost openPost_zero c) []) /\
  (forall mS mR handlers,
     exists r,
       listenerLoop mS mR handlers [SelPing] c
       = Returns r c [WriteControl PingMessage pingMessage]).
Proof.
  unfold hasPost. rewrite !bind_get, expiry_cutoff.
  split; [|split; [|split; [|split]]].
  - intros H. now rewrite H.
  - intros Hid Hold. apply Z.eqb_neq in Hid. apply Z.ltb_lt in Hold.
    now rewrite Hid, Hold.
  - intros Hid Hfresh. apply Z.eqb_neq in Hid. apply Z.ltb_ge in Hfresh.
    now rewrite Hid, Hfresh.
  - intros Hid Hold. split.
    + pose proof Hid as Hid'. apply Z.eqb_neq in Hid. apply Z.ltb_lt in Hold.
      rewrite Hid, Hold. unfold bind, closePost_spec. now rewrite Hid.
    + intros later. now rewrite bind_get.
  - intros mS mR handlers. cbn [listenerLoop].
    destruct (writeError (c_conn c)) as [e|] eqn:He.
    + exists (Some (Some e)). unfold bind, conn_WriteControl, bind, emit, get, ret.
      cbn. now rewrite He.
    + exists None. unfold bind, conn_WriteControl, bind, emit, get, ret.
      cbn. now rewrite He.
Qed.

(** *** The handshake *)

(** C6: CheckOrigin accepts a request exactly when its Origin header is empty
    or parses as a URL whose host is the allowed origin; a request it rejects
    makes the upgrade fail, so that Handler creates no client. *)
Theorem CheckOrigin_accepts
    (url_Parse : string -> result error URL) (AllowedOrigin : string)
    (req : Request) :
  (CheckOrigin url_Parse AllowedOrigin req = true <->
   Values_Get (Header req) "Origin" = EmptyString \/
   exists u, url_Parse (Values_Get (Header req) "Origin") = Ok u /\
             Host u = AllowedOrigin) /\
  (CheckOrigin url_Parse AllowedOrigin req = false ->
   forall payload json_Marshal payload_of_string mI mS mR handlers WrapError
          CloseError_text handshake_headers handshake_finish LookUpIdent sched,
     Handler payload json_Marshal payload_of_string mI mS mR handlers WrapError
       CloseError_text url_Parse AllowedOrigin handshake_headers
       handshake_finish LookUpIdent req sched = None).
Proof.
  split.
  - unfold CheckOrigin.
    destruct (String.eqb_spec (Values_Get (Header req) "Origin") EmptyString) as [He|Hne].
    + split; [intros _; now left|reflexivity].
    + destruct (url_Parse (Values_Get (Header req) "Origin")) as [u|e].
      * split.
        -- intros H. right. exists u. split; [reflexivity|].
           now apply String.eqb_eq.
        -- intros [H|(u' & Hu & Hhost)]; [contradiction|].
           inversion Hu; subst. apply String.eqb_refl.
      * split; [discriminate|].
        intros [H|(u' & Hu & _)]; [contradiction|discriminate].
  - intros Hreject. intros. unfold Handler, Upgrade. rewrite Hreject.
    now destruct (handshake_headers req).
Qed.

End WebsocketsProofs.

(** ** server: the backlog endpoint and the last-N setting *)

Module ServerProofs.
Import Http Server.

Lemma parseArgs_three (p : gmap string string) (thread start end_ : N) :
  Strconv.ParseUint (index p "thread") 64 = Ok thread ->
  Strconv.ParseUint (index p "start") 64 = Ok start ->
  Strconv.ParseUint (index p "end") 64 = Ok end_ ->
  parseArgs p ["thread"; "start"; "end"]%string = Ok [thread; start; end_].
Proof. intros H1 H2 H3. cbn [parseArgs]. now rewrite H1, H2, H3. Qed.

Lemma parseArgs_fails (p : gmap string string) (key : string) :
  key ∈ ["thread"; "start"; "end"]%string ->
  is_ok (Strconv.ParseUint (index p key) 64) = false ->
  exists e, parseArgs p ["thread"; "start"; "end"]%string = Err e.
Proof.
  intros Hkey Hfail. cbn [parseArgs].
  destruct (Strconv.ParseUint (index p "thread") 64) as [v1|e1] eqn:H1;
    [|now exists e1].
  destruct (Strconv.ParseUint (index p "start") 64) as [v2|e2] eqn:H2;
    [|now exists e2].
  destruct (Strconv.ParseUint (index p "end") 64) as [v3|e3] eqn:H3;
    [|now exists e3].
  exfalso. set_unfold in Hkey.
  destruct Hkey as [->|[->|[->|[]]]]; rewrite ?H1, ?H2, ?H3 in Hfail;
    discriminate.
Qed.

Lemma feed_range_empty (logs : gmap N (list (list byte))) (thread start end_ : N) :
  logs !! thread = None \/
  (exists log, logs !! thread = Some log /\
               (N.of_nat (length log) <= start \/ end_ <= start)) ->
  feed_range logs thread start end_ = [].
Proof.
  unfold feed_range. intros [->|(log & -> & [Hstart|Hend])].
  - reflexivity.
  - rewrite drop_ge by lia. apply take_nil.
  - replace (N.to_nat (end_ - start)) with 0%nat by lia. reflexivity.
Qed.

(** C7: when the three parameters parse, serveBacklog answers with the
    concatenation of the stored frames with index in the range, as one blob,
    under an ETag that is the hash of that blob; a range that is out of range
    or not populated gives the empty body with the same success status; a
    parameter that does not parse gives a 400 response, whatever the store
    would answer. *)
Theorem serveBacklog_range
    (HashBuffer : list byte -> string)
    (parse_error_page : Strconv.NumError -> list byte)
    (query_error_page : Websockets.error -> list byte)
    (logs : gmap N (list (list byte)))
    (p : gmap string string) :
  (forall thread start end_,
     Strconv.ParseUint (index p "thread") 64 = Ok thread ->
     Strconv.ParseUint (index p "start") 64 = Ok start ->
     Strconv.ParseUint (index p "end") 64 = Ok end_ ->
     serveBacklog HashBuffer (store_query logs) parse_error_page
       query_error_page fresh_response p
     = {| status := 200;
          headers :=
            <["Content-Type"%string := "text/plain; charset=UTF-8"%string]>
              (<["ETag"%string :=
                   HashBuffer (concat (feed_range logs thread start end_))]> ∅);
          body := concat (feed_range logs thread start end_) |} /\
     (logs !! thread = None \/
      (exists log, logs !! thread = Some log /\
                   (N.of_nat (length log) <= start \/ end_ <= start)) ->
      concat (feed_range logs thread start end_) = [])) /\
  (forall query_log key,
     key ∈ ["thread"; "start"; "end"]%string ->
     is_ok (Strconv.ParseUint (index p key) 64) = false ->
     status (serveBacklog HashBuffer query_log parse_error_page
               query_error_page fresh_response p) = 400).
Proof.
  split.
  - intros thread start end_ H1 H2 H3. split.
    + unfold serveBacklog. rewrite (parseArgs_three p _ _ _ H1 H2 H3).
      reflexivity.
    + intros Hempty. now rewrite feed_range_empty.
  - intros query_log key Hkey Hfail.
    destruct (parseArgs_fails p key Hkey Hfail) as [e He].
    unfold serveBacklog. now rewrite He.
Qed.

(** C10: detectLastN returns the value of the last parameter whenever it
    parses as a decimal integer that is at most 500, negative values and
    zero included, and returns 0 when the parameter is absent, does not
    parse, or is greater than 500. *)
Theorem detectLastN_value (req : Request) :
  (forall n, Strconv.Atoi (Values_Get (Query req) "last") = Ok n ->
             (n <= 500)%Z -> detectLastN req = n) /\
  (Query req !! "last"%string = None -> detectLastN req = 0%Z) /\
  (forall e, Strconv.Atoi (Values_Get (Query req) "last") = Err e ->
             detectLastN req = 0%Z) /\
  (forall n, Strconv.Atoi (Values_Get (Query req) "last") = Ok n ->
             (500 < n)%Z -> detectLastN req = 0%Z).
Proof.
  unfold detectLastN. repeat split.
  - intros n Hn Hle.
    destruct (Values_Get (Query req) "last") eqn:Hq; [discriminate Hn|].
    cbn [String.eqb negb]. rewrite Hn.
    apply Z.leb_le in Hle. now rewrite Hle.
  - intros Habs. unfold Values_Get. now rewrite Habs.
  - intros e He. rewrite He. now destruct (negb _).
  - intros n Hn Hgt. rewrite Hn. apply Z.leb_gt in Hgt. rewrite Hgt.
    now destruct (negb _).
Qed.

End ServerProofs.

(** ** The statements at concrete inputs *)

Module Instances.
Import Http Websockets Spec WebsocketsProofs Server ServerProofs.

Lemma encode_decode_roundtrip_witness :
  Sample.messageAppend < 100 /\
  Sample.Marshal "a" = Ok [x22; x61; x22] /\
  exists frame,
    encodeMessage string Sample.Marshal Sample.messageAppend "a" = Ok frame /\
    frame = [x30; x33; x22; x61; x22] /\
    Strconv.ParseUint (string_of_bytes (take 2 frame)) 8 = Ok Sample.messageAppend /\
    drop 2 frame = [x22; x61; x22] /\
    handleMessage Sample.messageSynchronise Sample.messageResynchronise
      Sample.handlers TextMessage frame Sample.synced_client
    = bind (emit (Invoke Sample.messageAppend [x22; x61; x22]))
        (fun _ => Sample.appendRune [x22; x61; x22]) Sample.synced_client.
Proof.
  split; [reflexivity|]. split; [reflexivity|].
  destruct (encode_decode_roundtrip string Sample.Marshal
              Sample.messageSynchronise Sample.messageResynchronise
              Sample.handlers Sample.messageAppend "a" [x22; x61; x22]
              eq_refl eq_refl)
    as (frame & Hencode & Hframe & Hparse & _ & Hdrop & Hrun).
  exists frame. split; [exact Hencode|]. split; [exact Hframe|].
  split; [exact Hparse|]. split; [exact Hdrop|].
  apply Hrun; [reflexivity|left; reflexivity].
Defined.

Lemma unsynced_rejects_out_of_sequence_witness :
  c_synced Sample.client = false /\
  Strconv.ParseUint (string_of_bytes (take 2 [x30; x33; x61])) 8
  = Ok Sample.messageAppend /\
  handleMessage Sample.messageSynchronise Sample.messageResynchronise
    Sample.handlers TextMessage [x30; x33; x61] Sample.client
  = Returns (Some (errInvalidPayload [x30; x33; x61])) Sample.client [] /\
  terminated
    (Listen string Sample.Marshal (fun s => s) Sample.messageInvalid
       Sample.messageSynchronise Sample.messageResynchronise Sample.handlers
       Sample.WrapError Sample.CloseError_text
       [received TextMessage [x30; x33; x61]; SelPing] Sample.client) /\
  Close Sample.client = Returns tt (set_close ChanClosed Sample.client) [] /\
  ~ live (set_close ChanClosed Sample.client) /\
  Listen string Sample.Marshal (fun s => s) Sample.messageInvalid
    Sample.messageSynchronise Sample.messageResynchronise Sample.handlers
    Sample.WrapError Sample.CloseError_text
    [received TextMessage [x30; x33; x61]; SelPing]
    (set_close ChanClosed Sample.client)
  = Panics [ClientsRemove].
Proof.
  assert (Hdead : ~ live (set_close ChanClosed Sample.client))
    by (intros [H _]; discriminate H).
  split; [reflexivity|]. split; [reflexivity|].
  destruct (unsynced_rejects_out_of_sequence string Sample.Marshal (fun s => s)
              Sample.messageInvalid Sample.messageSynchronise
              Sample.messageResynchronise Sample.handlers Sample.WrapError
              Sample.CloseError_text Sample.client [x30; x33; x61]
              Sample.messageAppend [SelPing])
    as (Hreject & _ & Hend & _).
  - reflexivity.
  - cbn. lia.
  - reflexivity.
  - discriminate.
  - discriminate.
  - split; [exact Hreject|]. split; [apply Hend; repeat split; discriminate|].
    split; [reflexivity|]. split; [exact Hdead|].
    destruct (unsynced_rejects_out_of_sequence string Sample.Marshal
                (fun s => s) Sample.messageInvalid Sample.messageSynchronise
                Sample.messageResynchronise Sample.handlers Sample.WrapError
                Sample.CloseError_text (set_close ChanClosed Sample.client)
                [x30; x33; x61] Sample.messageAppend [SelPing])
      as (_ & _ & _ & Hpanic).
    + reflexivity.
    + cbn. lia.
    + reflexivity.
    + discriminate.
    + discriminate.
    + exact (Hpanic Hdead).
Defined.

Lemma malformed_frame_rejected_witness :
  (length [x30] < 2)%nat /\
  forallb is_ascii_digit (take 2 [x30; x78; x61]) = false /\
  handleMessage Sample.messageSynchronise Sample.messageResynchronise
    Sample.handlers TextMessage [x30] Sample.synced_client
  = Returns (Some (errInvalidPayload [x30])) Sample.synced_client [] /\
  handleMessage Sample.messageSynchronise Sample.messageResynchronise
    Sample.handlers TextMessage [x30; x78; x61] Sample.synced_client
  = Returns (Some (errInvalidPayload [x30; x78; x61])) Sample.synced_client [] /\
  terminated
    (Listen string Sample.Marshal (fun s => s) Sample.messageInvalid
       Sample.messageSynchronise Sample.messageResynchronise Sample.handlers
       Sample.WrapError Sample.CloseError_text
       [received TextMessage [x30; x78; x61]] Sample.synced_client) /\
  Close Sample.synced_client
  = Returns tt (set_close ChanClosed Sample.synced_client) [] /\
  ~ live (set_close ChanClosed Sample.synced_client) /\
  Listen string Sample.Marshal (fun s => s) Sample.messageInvalid
    Sample.messageSynchronise Sample.messageResynchronise Sample.handlers
    Sample.WrapError Sample.CloseError_text
    [received TextMessage [x30; x78; x61]]
    (set_close ChanClosed Sample.synced_client)
  = Panics [ClientsRemove].
Proof.
  assert (Hdead : ~ live (set_close ChanClosed Sample.synced_client))
    by (intros [H _]; discriminate H).
  split; [cbn; lia|]. split; [reflexivity|].
  split; [|split; [|split; [|split; [reflexivity|split; [exact Hdead|]]]]].
  - apply (malformed_frame_rejected string Sample.Marshal (fun s => s)
             Sample.messageInvalid Sample.messageSynchronise
             Sample.messageResynchronise Sample.handlers Sample.WrapError
             Sample.CloseError_text Sample.synced_client [x30] []).
    left. cbn. lia.
  - apply (malformed_frame_rejected string Sample.Marshal (fun s => s)
             Sample.messageInvalid Sample.messageSynchronise
             Sample.messageResynchronise Sample.handlers Sample.WrapError
             Sample.CloseError_text Sample.synced_client [x30; x78; x61] []).
    right. reflexivity.
  - apply (malformed_frame_rejected string Sample.Marshal (fun s => s)
             Sample.messageInvalid Sample.messageSynchronise
             Sample.messageResynchronise Sample.handlers Sample.WrapError
             Sample.CloseError_text Sample.synced_client [x30; x78; x61] []).
    + right. reflexivity.
    + repeat split. discriminate.
  - apply (malformed_frame_rejected string Sample.Marshal (fun s => s)
             Sample.messageInvalid Sample.messageSynchronise
             Sample.messageResynchronise Sample.handlers Sample.WrapError
             Sample.CloseError_text (set_close ChanClosed Sample.synced_client)
             [x30; x78; x61] []).
    + right. reflexivity.
    + exact Hdead.
Defined.

Lemma non_text_frame_rejected_witness :
  BinaryMessage <> TextMessage /\
  handleMessage Sample.messageSynchronise Sample.messageResynchronise
    Sample.handlers BinaryMessage [x33; x30; x7b; x7d] Sample.synced_client
  = Returns (Some (errInvalidFrame "only text frames allowed"))
      Sample.synced_client [] /\
  terminated
    (Listen string Sample.Marshal (fun s => s) Sample.messageInvalid
       Sample.messageSynchronise Sample.messageResynchronise Sample.handlers
       Sample.WrapError Sample.CloseError_text
       [received BinaryMessage [x33; x30; x7b; x7d]] Sample.synced_client) /\
  Close Sample.synced_client
  = Returns tt (set_close ChanClosed Sample.synced_client) [] /\
  ~ live (set_close ChanClosed Sample.synced_client) /\
  Listen string Sample.Marshal (fun s => s) Sample.messageInvalid
    Sample.messageSynchronise Sample.messageResynchronise Sample.handlers
    Sample.WrapError Sample.CloseError_text
    [received BinaryMessage [x33; x30; x7b; x7d]]
    (set_close ChanClosed Sample.synced_client)
  = Panics [ClientsRemove].
Proof.
  assert (Hdead : ~ live (set_close ChanClosed Sample.synced_client))
    by (intros [H _]; discriminate H).
  split; [discriminate|].
  destruct (non_text_frame_rejected string Sample.Marshal (fun s => s)
              Sample.messageInvalid Sample.messageSynchronise
              Sample.messageResynchronise Sample.handlers Sample.WrapError
              Sample.CloseError_text Sample.synced_client BinaryMessage
              [x33; x30; x7b; x7d] [])
    as (Hreject & _ & Hend & _).
  - discriminate.
  - split; [exact Hreject|]. split; [apply Hend; repeat split; discriminate|].
    split; [reflexivity|]. split; [exact Hdead|].
    destruct (non_text_frame_rejected string Sample.Marshal (fun s => s)
                Sample.messageInvalid Sample.messageSynchronise
                Sample.messageResynchronise Sample.handlers Sample.WrapError
                Sample.CloseError_text (set_close ChanClosed Sample.synced_client)
                BinaryMessage [x33; x30; x7b; x7d] [])
      as (_ & _ & _ & Hpanic).
    + discriminate.
    + exact (Hpanic Hdead).
Defined.

Lemma teardown_close_frames_witness :
  clean_exit (Some (CloseError CloseGoingAway EmptyString)) /\
  is_CloseError (errInvalidFrame "only text frames allowed") = false /\
  closeConnections string Sample.Marshal (fun s => s) Sample.messageInvalid
    Sample.WrapError Sample.CloseError_text
    (Some (CloseError CloseGoingAway EmptyString)) Sample.client
  = Returns None
      (torn_down (Some (CloseError CloseGoingAway EmptyString)) Sample.client)
      [WriteControl CloseMessage [x03; xe8]; ConnClose] /\
  closeConnections string Sample.Marshal (fun s => s) Sample.messageInvalid
    Sample.WrapError Sample.CloseError_text
    (Some (errInvalidFrame "only text frames allowed"))
    (set_conn Sample.broken_conn Sample.client)
  = Returns (Some (errInvalidFrame "only text frames allowed"))
      (torn_down (Some (errInvalidFrame "only text frames allowed"))
         (set_conn Sample.broken_conn Sample.client))
      [WriteMessage TextMessage
         (x30 :: x30 :: x22 :: bytes_of_string "only text frames allowed" ++ [x22]);
       WriteControl CloseMessage [x03; xef]; ConnClose] /\
  closeConnections string Sample.Marshal_fails (fun s => s) Sample.messageInvalid
    Sample.WrapError Sample.CloseError_text
    (Some (errInvalidPayload [x39])) Sample.client
  = Returns (Some (errInvalidPayload [x39]))
      (torn_down (Some (errInvalidPayload [x39])) Sample.client)
      [WriteControl CloseMessage [x03; xef]; ConnClose].
Proof.
  assert (Hclean : clean_exit (Some (CloseError CloseGoingAway EmptyString))).
  { right. exists CloseGoingAway, EmptyString. split; [reflexivity|]. right. reflexivity. }
  split; [exact Hclean|]. split; [reflexivity|]. split; [|split].
  - apply (proj1 (teardown_close_frames string Sample.Marshal (fun s => s)
                    Sample.messageInvalid Sample.WrapError Sample.CloseError_text
                    (Some (CloseError CloseGoingAway EmptyString)) Sample.client
                    eq_refl ltac:(discriminate) (fun _ => eq_refl))).
    exact Hclean.
  - apply (proj2 (teardown_close_frames string Sample.Marshal (fun s => s)
                    Sample.messageInvalid Sample.WrapError Sample.CloseError_text
                    (Some (errInvalidFrame "only text frames allowed"))
                    (set_conn Sample.broken_conn Sample.client)
                    eq_refl ltac:(discriminate) (fun _ => eq_refl))
             (errInvalidFrame "only text frames allowed") eq_refl eq_refl).
  - apply (proj2 (teardown_close_frames string Sample.Marshal_fails (fun s => s)
                    Sample.messageInvalid Sample.WrapError Sample.CloseError_text
                    (Some (errInvalidPayload [x39])) Sample.client
                    eq_refl ltac:(discriminate) (fun _ => eq_refl))
             (errInvalidPayload [x39]) eq_refl eq_refl).
Defined.

(** C8 does not extend to a close error of the client with another code: no
    notice is written before the close frame, and the close frame carries
    code 0.  Nor does it extend to a teardown that finds a channel already
    closed: after Close, a going-away closure by the client makes the
    teardown panic before any close frame is attempted. *)
Lemma protocol_error_close_gets_no_notice :
  (~ clean_exit (Some (CloseError CloseProtocolError EmptyString)) /\
   live Sample.client /\
   closeConnections string Sample.Marshal (fun s => s) Sample.messageInvalid
     Sample.WrapError Sample.CloseError_text
     (Some (CloseError CloseProtocolError EmptyString)) Sample.client
   = Returns (Some (CloseError CloseProtocolError EmptyString))
       (torn_down (Some (CloseError CloseProtocolError EmptyString)) Sample.client)
       [WriteControl CloseMessage [x00; x00]; ConnClose]) /\
  (clean_exit (Some (CloseError CloseGoingAway EmptyString)) /\
   Close Sample.client = Returns tt (set_close ChanClosed Sample.client) [] /\
   closeConnections string Sample.Marshal (fun s => s) Sample.messageInvalid
     Sample.WrapError Sample.CloseError_text
     (Some (CloseError CloseGoingAway EmptyString))
     (set_close ChanClosed Sample.client)
   = Panics []).
Proof.
  split; [split; [|split]|split; [|split]].
  - intros [H|(code & text & H & [->| ->])]; discriminate H.
  - repeat split. discriminate.
  - reflexivity.
  - right. exists CloseGoingAway, EmptyString. split; [reflexivity|]. now right.
  - reflexivity.
  - reflexivity.
Qed.

Lemma Close_idempotent_witness :
  c_close (set_close ChanClosed Sample.client) = ChanClosed /\
  c_close Sample.client = ChanOpen /\
  Close (set_close ChanClosed Sample.client)
  = Returns tt (set_close ChanClosed Sample.client) [] /\
  Close Sample.client = Returns tt (set_close ChanClosed Sample.client) [] /\
  times 3 Close Sample.client = Close Sample.client.
Proof.
  split; [reflexivity|]. split; [reflexivity|]. split; [|split].
  - apply (proj1 (Close_idempotent (set_close ChanClosed Sample.client) 0)).
    reflexivity.
  - apply (proj1 (proj2 (Close_idempotent Sample.client 0))). reflexivity.
  - apply (proj2 (proj2 (Close_idempotent Sample.client 2))).
Defined.

(** C3 does not hold with a PostExpired error: on an expired post the access
    closes the post and returns no error at all. *)
Lemma expired_access_returns_no_error :
  id (c_openPost Sample.posting_client) <> 0%Z /\
  (time (c_openPost Sample.posting_client)
   < Time_Unix (10000 * Second) - post_ceiling)%Z /\
  hasPost Sample.errNoPostOpen closePost_spec (10000 * Second)%Z
    Sample.posting_client
  = Returns (false, None) (set_openPost openPost_zero Sample.posting_client)
      [FlushPost 7 (bytes_of_string "hello")].
Proof.
  split; [discriminate|]. split; [reflexivity|]. reflexivity.
Qed.

Lemma hasPost_access_witness :
  id (c_openPost Sample.client) = 0%Z /\
  id (c_openPost Sample.posting_client) <> 0%Z /\
  (time (c_openPost Sample.posting_client)
   < Time_Unix (10000 * Second) - post_ceiling)%Z /\
  (Time_Unix (1200 * Second) - post_ceiling
   <= time (c_openPost Sample.posting_client))%Z /\
  hasPost Sample.errNoPostOpen closePost_spec (10000 * Second)%Z Sample.client
  = Returns (false, Some Sample.errNoPostOpen) Sample.client [] /\
  hasPost Sample.errNoPostOpen closePost_spec (1200 * Second)%Z
    Sample.posting_client
  = Returns (true, None) Sample.posting_client [] /\
  hasPost Sample.errNoPostOpen closePost_spec (10000 * Second)%Z
    Sample.posting_client
  = Returns (false, None) (set_openPost openPost_zero Sample.posting_client)
      [FlushPost 7 (bytes_of_string "hello")] /\
  hasPost Sample.errNoPostOpen closePost_spec (10001 * Second)%Z
    (set_openPost openPost_zero Sample.posting_client)
  = Returns (false, Some Sample.errNoPostOpen)
      (set_openPost openPost_zero Sample.posting_client) [].
Proof.
  assert (Hid : id (c_openPost Sample.posting_client) <> 0%Z) by discriminate.
  assert (Hold : (time (c_openPost Sample.posting_client)
                  < Time_Unix (10000 * Second) - post_ceiling)%Z) by reflexivity.
  assert (Hfresh : (Time_Unix (1200 * Second) - post_ceiling
                    <= time (c_openPost Sample.posting_client))%Z) by discriminate.
  split; [reflexivity|]. split; [exact Hid|]. split; [exact Hold|].
  split; [exact Hfresh|]. split; [|split; [|split]].
  - apply (proj1 (hasPost_access Sample.errNoPostOpen closePost_spec
                    (10000 * Second)%Z Sample.client)). reflexivity.
  - apply (proj1 (proj2 (proj2 (hasPost_access Sample.errNoPostOpen
                    closePost_spec (1200 * Second)%Z Sample.posting_client))));
      assumption.
  - apply (proj1 (proj2 (proj2 (proj2 (hasPost_access Sample.errNoPostOpen
                    closePost_spec (10000 * Second)%Z Sample.posting_client))))
             Hid Hold).
  - apply (proj1 (proj2 (proj2 (proj2 (hasPost_access Sample.errNoPostOpen
                    closePost_spec (10000 * Second)%Z Sample.posting_client))))
             Hid Hold).
Defined.

Lemma CheckOrigin_accepts_witness :
  CheckOrigin Sample.url_Parse "example.org"
    (Sample.request ["https://evil.test"%string] []) = false /\
  CheckOrigin Sample.url_Parse "example.org"
    (Sample.request ["https://example.org"%string] []) = true /\
  CheckOrigin Sample.url_Parse "example.org" (Sample.request [] []) = true /\
  Handler string Sample.Marshal (fun s => s) Sample.messageInvalid
    Sample.messageSynchronise Sample.messageResynchronise Sample.handlers
    Sample.WrapError Sample.CloseError_text Sample.url_Parse "example.org"
    (fun _ => None) (fun _ => Ok Sample.conn) (fun _ => "203.0.113.7"%string)
    (Sample.request ["https://evil.test"%string] []) [SelPing] = None.
Proof.
  split; [reflexivity|]. split; [|split].
  - apply (proj1 (CheckOrigin_accepts Sample.url_Parse "example.org"
                    (Sample.request ["https://example.org"%string] []))).
    right. eexists. split; reflexivity.
  - apply (proj1 (CheckOrigin_accepts Sample.url_Parse "example.org"
                    (Sample.request [] []))).
    left. reflexivity.
  - apply (proj2 (CheckOrigin_accepts Sample.url_Parse "example.org"
                    (Sample.request ["https://evil.test"%string] []))).
    reflexivity.
Defined.

Lemma serveBacklog_range_witness :
  Strconv.ParseUint (index (Sample.params "10" "1" "3") "thread") 64 = Ok 10 /\
  Strconv.ParseUint (index (Sample.params "10" "1" "3") "start") 64 = Ok 1 /\
  Strconv.ParseUint (index (Sample.params "10" "1" "3") "end") 64 = Ok 3 /\
  is_ok (Strconv.ParseUint (index (Sample.params "10" "-1" "3") "start") 64)
  = false /\
  body (serveBacklog Sample.HashBuffer (store_query Sample.logs)
          (fun _ => []) (fun _ => []) fresh_response
          (Sample.params "10" "1" "3"))
  = bytes_of_string "03b03c" /\
  concat (feed_range Sample.logs 10 3 9) = [] /\
  status (serveBacklog Sample.HashBuffer (store_query Sample.logs)
            (fun _ => []) (fun _ => []) fresh_response
            (Sample.params "10" "-1" "3")) = 400.
Proof.
  split; [reflexivity|]. split; [reflexivity|]. split; [reflexivity|].
  split; [reflexivity|]. split; [|split].
  - rewrite (proj1 (proj1 (serveBacklog_range Sample.HashBuffer
               (fun _ => []) (fun _ => []) Sample.logs
               (Sample.params "10" "1" "3")) 10 1 3 eq_refl eq_refl eq_refl)).
    reflexivity.
  - apply (proj2 (proj1 (serveBacklog_range Sample.HashBuffer
               (fun _ => []) (fun _ => []) Sample.logs
               (Sample.params "10" "3" "9")) 10 3 9 eq_refl eq_refl eq_refl)).
    right. eexists. split; [reflexivity|]. left. cbn. lia.
  - apply (proj2 (serveBacklog_range Sample.HashBuffer
               (fun _ => []) (fun _ => []) Sample.logs
               (Sample.params "10" "-1" "3")) (store_query Sample.logs)
             "start"%string).
    + set_solver.
    + reflexivity.
Defined.

Lemma detectLastN_value_witness :
  Strconv.Atoi (Values_Get (Query (Sample.request [] ["-3"%string])) "last")
  = Ok (-3)%Z /\
  detectLastN (Sample.request [] ["-3"%string]) = (-3)%Z /\
  detectLastN (Sample.request [] ["0"%string]) = 0%Z /\
  detectLastN (Sample.request [] ["500"%string]) = 500%Z /\
  detectLastN (Sample.request [] ["501"%string]) = 0%Z /\
  detectLastN (Sample.request [] ["12x"%string]) = 0%Z /\
  detectLastN {| Header := ∅; Query := ∅ |} = 0%Z.
Proof.
  split; [reflexivity|]. split; [|split; [|split; [|split; [|split]]]].
  - apply (proj1 (detectLastN_value (Sample.request [] ["-3"%string])));
      [reflexivity|discriminate].
  - apply (proj1 (detectLastN_value (Sample.request [] ["0"%string])));
      [reflexivity|discriminate].
  - apply (proj1 (detectLastN_value (Sample.request [] ["500"%string])));
      [reflexivity|discriminate].
  - apply (proj2 (proj2 (proj2 (detectLastN_value
             (Sample.request [] ["501"%string])))) 501%Z);
      reflexivity.
  - apply (proj1 (proj2 (proj2 (detectLastN_value
             (Sample.request [] ["12x"%string])))) Strconv.ErrSyntax).
    reflexivity.
  - apply (proj1 (proj2 (detectLastN_value {| Header := ∅; Query := ∅ |}))).
    reflexivity.
Defined.

End Instances.

(** ** websockets: the codec on the whole type range, dispatch, the loop *)

Module CodecProofs.
Import Http Websockets Spec Behaviour MonadFacts WebsocketsProofs.

Lemma length_copy (dst src : list byte) : length (copy dst src) = length dst.
Proof.
  unfold copy. rewrite length_app, length_take, length_drop. lia.
Qed.

Lemma copy_same_length (dst src : list byte) :
  length dst = length src -> copy dst src = src.
Proof.
  intros H. unfold copy. rewrite take_ge, drop_ge by lia. apply app_nil_r.
Qed.

Lemma copy_head2 (x y d1 d2 : byte) (rest ts : list byte) :
  take 2 (copy (x :: y :: rest) (d1 :: d2 :: ts)) = [d1; d2].
Proof. reflexivity. Qed.

(** The decimal text of an 8-bit value: one digit below 10, otherwise the
    wire tag followed by at most one more digit. *)
Lemma FormatUint_uint8 (typ : messageType) :
  typ < 256 ->
  (typ < 10 /\ bytes_of_string (Strconv.FormatUint typ) = [byte_of_N (48 + typ)]) \/
  (exists d1 d2 ts,
     bytes_of_string (Strconv.FormatUint typ) = d1 :: d2 :: ts /\
     wire_tag typ = [d1; d2]).
Proof.
  intros H. destruct typ as [|p]; [left; split; [lia|reflexivity]|].
  do 8 (destruct p as [p|p|]; try lia;
        try solve [left; split; [lia|reflexivity]
                  |right; do 3 eexists; split; reflexivity]).
Qed.

Lemma wire_tag_parse (typ : messageType) :
  typ < 256 ->
  Strconv.ParseUint (string_of_bytes (wire_tag typ)) 8
  = Ok (if typ <? 100 then typ else typ / 10).
Proof.
  intros H. unfold wire_tag. apply typeTag_parse.
  destruct (N.ltb_spec typ 100); [assumption|].
  apply N.Div0.div_lt_upper_bound. lia.
Qed.

Section Codec.

Context (payload : Type)
        (json_Marshal : payload -> result error (list byte)).

Local Abbreviation encodeMessage := (encodeMessage payload json_Marshal).
Local Abbreviation sendMessage := (sendMessage payload json_Marshal).

Lemma encodeMessage_shape (typ : messageType) (msg : payload) :
  typ < 256 ->
  encodeMessage typ msg
  = match json_Marshal msg with
    | Err e => Err e
    | Ok data => Ok (wire_tag typ ++ data)
    end.
Proof.
  intros Hlt. unfold Websockets.encodeMessage.
  destruct (json_Marshal msg) as [data|e]; [|reflexivity].
  replace (length data + 2)%nat with (S (S (length data))) by lia.
  cbn [replicate]. f_equal.
  destruct (FormatUint_uint8 typ Hlt) as [[Hsmall ->]|(d1 & d2 & ts & -> & Htag)].
  - transitivity ([x30; byte_of_N (48 + typ)]
                  ++ copy (replicate (length data) x00) data); [reflexivity|].
    rewrite copy_same_length by apply length_replicate.
    unfold wire_tag. destruct (N.ltb_spec typ 100) as [_|?]; [|lia].
    unfold typeTag. rewrite N.div_small, N.mod_small by lia.
    rewrite N.add_0_r. reflexivity.
  - rewrite Htag, copy_head2.
    rewrite copy_same_length; [reflexivity|].
    rewrite length_drop, length_copy. cbn [length].
    rewrite length_replicate. lia.
Qed.

(** X1: for every 8-bit message type, encodeMessage fails only with the
    error of json.Marshal, and otherwise yields a frame of two tag bytes
    followed by the marshalled payload.  The tag is the two decimal digits
    of a type below 100; for a type from 100 on the third digit is
    overwritten by the payload, so the frame reads back as type/10. *)
Theorem encodeMessage_uint8 (typ : messageType) (msg : payload) :
  typ < 256 ->
  encodeMessage typ msg
  = match json_Marshal msg with
    | Err e => Err e
    | Ok data => Ok (wire_tag typ ++ data)
    end /\
  forall data frame,
    encodeMessage typ msg = Ok frame ->
    json_Marshal msg = Ok data ->
    length frame = (length data + 2)%nat /\
    drop 2 frame = data /\
    Strconv.ParseUint (string_of_bytes (take 2 frame)) 8
    = Ok (if typ <? 100 then typ else typ / 10).
Proof.
  intros Hlt. pose proof (encodeMessage_shape typ msg Hlt) as Hshape.
  split; [exact Hshape|].
  intros data frame Hframe Hdata. rewrite Hshape, Hdata in Hframe.
  inversion Hframe; subst frame. clear Hframe.
  pose proof (wire_tag_parse typ Hlt) as Hparse.
  repeat split.
  - cbn. lia.
  - exact Hparse.
Qed.

(** X2: sendMessage writes at most one frame and never touches the client:
    nothing when the payload does not marshal (the marshal error is
    returned), otherwise one text frame made of the wire tag and the
    marshalled payload, returning what the write answers. *)
Theorem sendMessage_one_frame (typ : messageType) (msg : payload) (c : Client) :
  typ < 256 ->
  sendMessage typ msg c
  = match json_Marshal msg with
    | Err e => Returns (Some e) c []
    | Ok data =>
        Returns (writeError (c_conn c)) c
          [WriteMessage TextMessage (wire_tag typ ++ data)]
    end.
Proof.
  intros Hlt. unfold Websockets.sendMessage.
  rewrite (encodeMessage_shape typ msg Hlt).
  destruct (json_Marshal msg); reflexivity.
Qed.

End Codec.

End CodecProofs.

(** ** websockets: dispatch and the loop *)

Module LoopProofs.
Import Http Websockets Spec Behaviour MonadFacts WebsocketsProofs.

Lemma after_calls_nil {A} (o : outcome A) : after_calls [] o = o.
Proof. destruct o; reflexivity. Qed.

Lemma after_calls_app {A} (xs ys : list effect) (o : outcome A) :
  after_calls xs (after_calls ys o) = after_calls (xs ++ ys) o.
Proof. destruct o; cbn; now rewrite app_assoc. Qed.

Lemma bind_after_calls {A B} (m : M A) (f : A -> M B) (c : Client) :
  bind m f c
  = match m c with
    | Returns a c1 calls => after_calls calls (f a c1)
    | Panics calls => Panics calls
    end.
Proof. unfold bind. destruct (m c) as [a c1 calls|calls]; reflexivity. Qed.

Lemma write_ok (kind : Z) (data : list byte) (c : Client) :
  conn_WriteMessage kind data c
  = Returns (writeError (c_conn c)) c [WriteMessage kind data].
Proof. reflexivity. Qed.

Lemma control_ok (kind : Z) (data : list byte) (c : Client) :
  conn_WriteControl kind data c
  = Returns (writeError (c_conn c)) c [WriteControl kind data].
Proof. reflexivity. Qed.

Section Loop.

Context (payload : Type)
        (json_Marshal : payload -> result error (list byte))
        (payload_of_string : string -> payload)
        (messageInvalid messageSynchronise messageResynchronise : messageType)
        (handlers : gmap messageType handler)
        (WrapError : string -> option error -> error)
        (CloseError_text : Z -> string -> string).

Local Abbreviation encodeMessage := (encodeMessage payload json_Marshal).
Local Abbreviation handleMessage :=
  (handleMessage messageSynchronise messageResynchronise handlers).
Local Abbreviation listenerLoop :=
  (listenerLoop messageSynchronise messageResynchronise handlers).
Local Abbreviation closeConnections :=
  (closeConnections payload json_Marshal payload_of_string messageInvalid
     WrapError CloseError_text).
Local Abbreviation Listen :=
  (Listen payload json_Marshal payload_of_string messageInvalid
     messageSynchronise messageResynchronise handlers WrapError CloseError_text).
Local Abbreviation Error := (Error CloseError_text).

Lemma handleMessage_tagged (c : Client) (a b : byte) (rest : list byte) :
  is_ascii_digit a = true ->
  is_ascii_digit b = true ->
  tag_value a b < 100 /\
  handleMessage TextMessage (a :: b :: rest) c
  = if negb (c_synced c) && negb (tag_value a b =? messageSynchronise)
       && negb (tag_value a b =? messageResynchronise)
    then Returns (Some (errInvalidPayload (a :: b :: rest))) c []
    else match handlers !! tag_value a b with
         | None => Returns (Some (errInvalidPayload (a :: b :: rest))) c []
         | Some h => after_calls [Invoke (tag_value a b) rest] (h rest c)
         end.
Proof.
  intros Ha Hb.
  pose proof (StrconvFacts.ParseUint_two_bytes a b) as Hparse.
  rewrite Ha, Hb in Hparse. cbn [andb] in Hparse. fold (tag_value a b) in Hparse.
  split; [exact (StrconvFacts.ParseUint_two_bytes_bound _ _ _ Hparse)|].
  rewrite (handleMessage_dispatch _ _ _ c a b rest _ Hparse).
  destruct (negb (c_synced c) && negb (tag_value a b =? messageSynchronise)
            && negb (tag_value a b =? messageResynchronise)); [reflexivity|].
  unfold runHandler, handler in *.
  change (length (a :: b :: rest) <? 2)%nat with false. cbv iota.
  destruct (handlers !! tag_value a b) as [h|]; [|reflexivity].
  rewrite bind_after_calls. reflexivity.
Qed.

(** X3: a text frame that starts with two ASCII digits is dispatched on the
    decimal value of those digits, with the bytes after them as the data: an
    unsynced client is refused unless the type is synchronise or
    resynchronise, a type without a handler is refused, and otherwise
    exactly one handler is called, the one registered for the type.  Both
    refusals leave the client as it is and call nothing. *)
Theorem handleMessage_by_tag (c : Client) (a b : byte) (rest : list byte) :
  is_ascii_digit a = true ->
  is_ascii_digit b = true ->
  tag_value a b < 100 /\
  handleMessage TextMessage (a :: b :: rest) c
  = if negb (c_synced c) && negb (tag_value a b =? messageSynchronise)
       && negb (tag_value a b =? messageResynchronise)
    then Returns (Some (errInvalidPayload (a :: b :: rest))) c []
    else match handlers !! tag_value a b with
         | None => Returns (Some (errInvalidPayload (a :: b :: rest))) c []
         | Some h => after_calls [Invoke (tag_value a b) rest] (h rest c)
         end.
Proof.
  intros Ha Hb.
  pose proof (StrconvFacts.ParseUint_two_bytes a b) as Hparse.
  rewrite Ha, Hb in Hparse. cbn [andb] in Hparse. fold (tag_value a b) in Hparse.
  split; [exact (StrconvFacts.ParseUint_two_bytes_bound _ _ _ Hparse)|].
  rewrite (handleMessage_dispatch _ _ _ c a b rest _ Hparse).
  destruct (negb (c_synced c) && negb (tag_value a b =? messageSynchronise)
            && negb (tag_value a b =? messageResynchronise)); [reflexivity|].
  unfold runHandler, handler in *.
  change (length (a :: b :: rest) <? 2)%nat with false. cbv iota.
  destruct (handlers !! tag_value a b) as [h|]; [|reflexivity].
  rewrite bind_after_calls. reflexivity.
Qed.

(** Teardown after the loop returned an error: on a live client it runs to
    the end and closes the socket, whatever the error is. *)
Lemma closeConnections_live (e : error) (c : Client) :
  live c ->
  exists e' calls,
    closeConnections (Some e) c = Returns e' (torn_down (Some e) c) calls /\
    forallb (fun x => negb (is_Invoke x)) calls = true /\
    last calls = Some ConnClose.
Proof.
  intros Hlive. destruct (is_CloseError e) eqn:Hkind.
  - destruct Hlive as (Hclose & Hwrite & Hfeed).
    destruct c as [synced ip [werr cerr closed] tok post rcv wr cl feed].
    cbn in Hclose, Hwrite, Hfeed. subst cl wr.
    destruct e as [p|s|code text|text]; try discriminate Hkind.
    unfold Websockets.closeConnections, torn_down.
    destruct ((code =? CloseNormalClosure)%Z || (code =? CloseGoingAway)%Z);
      destruct feed; try congruence; destruct cerr;
      do 2 eexists; (split; [reflexivity|split; reflexivity]).
  - do 2 eexists. split; [now apply closeConnections_abnormal|]. split.
    + now apply notice_calls_quiet.
    + destruct (encodeMessage _ _); reflexivity.
Qed.

Lemma Listen_terminated (sched : list selected) (e : error) (c : Client)
    (calls : list effect) :
  listenerLoop sched c = Returns (Some (Some e)) c calls ->
  forallb (fun x => negb (is_Invoke x)) calls = true ->
  live c ->
  terminated (Listen sched c).
Proof.
  intros Hloop Hquiet Hlive.
  destruct (closeConnections_live e c Hlive) as (e' & calls2 & Hclose & Hq & Hlast).
  pose proof (Listen_exit payload json_Marshal payload_of_string messageInvalid
                messageSynchronise messageResynchronise handlers WrapError
                CloseError_text _ _ _ _ _ _ _ _ Hloop Hclose) as HListen.
  unfold terminated. do 3 eexists. split; [exact HListen|].
  repeat split.
  - rewrite forallb_app, Hquiet. cbn. exact Hq.
  - destruct calls2 as [|x calls2]; [discriminate Hlast|].
    rewrite last_app_cons, last_cons. cbn [last] in Hlast.
    destruct calls2; [exact Hlast|]. now rewrite Hlast.
Qed.

(** X4: a well-formed frame of a type without a handler is refused with
    errInvalidPayload and no handler is called.  On a live client Listen
    then tears the connection down and closes the socket; on a client that
    is not live, such as one on which Close has run, the teardown panics
    right after the client left the registry. *)
Theorem unknown_type_rejected
    (c : Client) (a b : byte) (rest : list byte) (sched : list selected) :
  is_ascii_digit a = true ->
  is_ascii_digit b = true ->
  handlers !! tag_value a b = None ->
  handleMessage TextMessage (a :: b :: rest) c
  = Returns (Some (errInvalidPayload (a :: b :: rest))) c [] /\
  (live c ->
   terminated (Listen (received TextMessage (a :: b :: rest) :: sched) c)) /\
  (~ live c ->
   Listen (received TextMessage (a :: b :: rest) :: sched) c
   = Panics [ClientsRemove]).
Proof.
  intros Ha Hb Hnone.
  assert (Hreject : handleMessage TextMessage (a :: b :: rest) c
                    = Returns (Some (errInvalidPayload (a :: b :: rest))) c []).
  { rewrite (proj2 (handleMessage_tagged c a b rest Ha Hb)).
    match goal with
    | |- context [match ?x with Some _ => _ | None => _ end] =>
        replace x with (@None handler) by (symmetry; exact Hnone)
    end.
    now destruct (_ && _). }
  split; [exact Hreject|]. split.
  - intros Hlive.
    exact (proj2 (rejection_terminates payload json_Marshal payload_of_string
                    messageInvalid messageSynchronise messageResynchronise
                    handlers WrapError CloseError_text _ _ _ _ sched Hreject
                    eq_refl Hlive)).
  - intros Hdead.
    exact (rejection_panics payload json_Marshal payload_of_string
             messageInvalid messageSynchronise messageResynchronise handlers
             WrapError CloseError_text _ _ _ _ sched Hreject Hdead).
Qed.

(** X6: on a connection whose writes succeed, a schedule of queued messages
    and keepalive ticks leaves the loop waiting, with the client untouched
    and exactly one write per event on the connection, in the order of the
    events. *)
Theorem outbound_in_order (sched : list selected) (c : Client) :
  writeError (c_conn c) = None ->
  forallb is_outbound sched = true ->
  listenerLoop sched c = Returns None c (concat (map outbound_call sched)).
Proof.
  intros Hok. induction sched as [|ev rest IH]; intros Hout; [reflexivity|].
  cbn [forallb] in Hout. apply andb_prop in Hout as [Hev Hrest].
  specialize (IH Hrest).
  destruct ev as [|m|m|]; try discriminate Hev; cbn [Websockets.listenerLoop].
  - rewrite bind_after_calls. unfold send. rewrite write_ok, Hok, IH. reflexivity.
  - rewrite bind_after_calls, control_ok, Hok, IH. reflexivity.
Qed.

(** X7: a failed write, of a queued message or of a keepalive ping, ends
    the loop at once with the error of the write, whatever is scheduled
    after it.  On a live client Listen then removes the client and tears the
    connection down, closing the socket; when the error is not a websocket
    close error, the teardown first attempts the notice and the close frame
    with the invalid-payload code on the same connection.  On a client that
    is not live, such as one on which Close has run, the teardown panics
    right after the removal. *)
Theorem failed_write_terminates
    (ev : selected) (e : error) (sched : list selected) (c : Client) :
  is_outbound ev = true ->
  writeError (c_conn c) = Some e ->
  listenerLoop (ev :: sched) c = Returns (Some (Some e)) c (outbound_call ev) /\
  (live c -> terminated (Listen (ev :: sched) c)) /\
  (live c -> is_CloseError e = false ->
   Listen (ev :: sched) c
   = Returns (Some (teardown_error WrapError Error c (Some e)))
       (torn_down (Some e) c)
       (outbound_call ev ++ ClientsRemove ::
        notice_calls (encodeMessage messageInvalid (payload_of_string (Error e)))
        ++ [close_frame CloseInvalidFramePayloadData; ConnClose])) /\
  (~ live c ->
   Listen (ev :: sched) c = Panics (outbound_call ev ++ [ClientsRemove])).
Proof.
  intros Hout Hfail.
  assert (Hloop : listenerLoop (ev :: sched) c
                  = Returns (Some (Some e)) c (outbound_call ev)).
  { destruct ev as [|m|m|]; try discriminate Hout; cbn [Websockets.listenerLoop].
    - rewrite bind_after_calls. unfold send. rewrite write_ok, Hfail. reflexivity.
    - rewrite bind_after_calls, control_ok, Hfail. reflexivity. }
  split; [exact Hloop|]. split; [|split].
  - intros Hlive. apply (Listen_terminated _ e c (outbound_call ev) Hloop).
    + destruct ev; try discriminate Hout; reflexivity.
    + exact Hlive.
  - intros Hlive Hkind.
    exact (Listen_exit payload json_Marshal payload_of_string messageInvalid
             messageSynchronise messageResynchronise handlers WrapError
             CloseError_text _ _ _ _ _ _ _ _ Hloop
             (closeConnections_abnormal payload json_Marshal payload_of_string
                messageInvalid WrapError CloseError_text e c Hlive Hkind)).
  - intros Hdead.
    exact (Listen_panics payload json_Marshal payload_of_string messageInvalid
             messageSynchronise messageResynchronise handlers WrapError
             CloseError_text _ _ _ _ _ _ Hloop
             (closeConnections_not_live payload json_Marshal payload_of_string
                messageInvalid WrapError CloseError_text e c Hdead)).
Qed.


(** X9: Close followed by the close case of the loop is a clean shutdown:
    the loop returns nil, and Listen removes the client, sends one close
    frame with the normal-closure code and closes the socket, without a
    panic and without a notice. *)
Theorem Close_then_Listen (sched : list selected) (c : Client) :
  live c ->
  bind Close (fun _ => Listen (SelClose :: sched)) c
  = Returns (Some (teardown_error WrapError Error c None))
      (torn_down None (set_close ChanClosed c))
      [ClientsRemove; close_frame CloseNormalClosure; ConnClose].
Proof.
  intros (Hclose & Hwrite & Hfeed).
  rewrite bind_after_calls, (Close_open c Hclose).
  assert (Hloop : listenerLoop (SelClose :: sched) (set_close ChanClosed c)
                  = Returns (Some None) (set_close ChanClosed c) []).
  { cbn [Websockets.listenerLoop]. now rewrite bind_get. }
  rewrite (Listen_exit payload json_Marshal payload_of_string messageInvalid
             messageSynchronise messageResynchronise handlers WrapError
             CloseError_text _ _ _ _ _ _ _ _ Hloop
             (closeConnections_normal payload json_Marshal payload_of_string
                messageInvalid WrapError CloseError_text None
                (set_close ChanClosed c) Hwrite Hfeed
                (fun H => False_ind _ (H eq_refl)) (or_introl eq_refl))).
  reflexivity.
Qed.

(** X10: closeConnections closes channels that must still be open.  When
    the write channel or the feed channel is already closed, or when the
    close channel is already closed and the error is not nil, it panics
    before anything is written to the connection; so a second teardown, and
    a teardown on an error after Close, both panic. *)
Theorem closeConnections_double_close (err : option error) (c : Client) :
  (c_write c = ChanClosed \/
   c_closeUpdateFeed c = ChanClosed \/
   (c_close c = ChanClosed /\ err <> None) ->
   closeConnections err c = Panics []) /\
  (forall e, live c ->
     bind Close (fun _ => closeConnections (Some e)) c = Panics []).
Proof.
  split.
  - intros Hclosed.
    destruct c as [synced ip [werr cerr closed] tok post rcv wr cl feed].
    cbn in Hclosed. unfold Websockets.closeConnections.
    destruct Hclosed as [->|[->|[-> Herr]]].
    + destruct feed, err as [e|], cl; reflexivity.
    + reflexivity.
    + destruct err as [e|]; [|congruence]. destruct feed; reflexivity.
  - intros e (Hclose & Hwrite & Hfeed).
    rewrite bind_after_calls, (Close_open c Hclose).
    destruct c as [synced ip [werr cerr closed] tok post rcv wr cl feed].
    cbn in Hclose, Hwrite, Hfeed. subst.
    destruct feed; try congruence; reflexivity.
Qed.

End Loop.

End LoopProofs.

(** ** websockets: a new connection *)

Module HandshakeProofs.
Import Http Websockets Spec Behaviour MonadFacts WebsocketsProofs LoopProofs.

(** X11: a request that passes the upgrade gets a client that is unsynced,
    has no open post and has its close and write channels open; if the
    first frame it sends is well-formed but neither synchronise nor
    resynchronise, no handler runs and the connection is torn down. *)
Theorem new_client_must_synchronise
    (payload : Type) (json_Marshal : payload -> result error (list byte))
    (payload_of_string : string -> payload)
    (messageInvalid messageSynchronise messageResynchronise : messageType)
    (handlers : gmap messageType handler)
    (WrapError : string -> option error -> error)
    (CloseError_text : Z -> string -> string)
    (errNoPostOpen : error) (closePost : handler)
    (url_Parse : string -> result error URL) (AllowedOrigin : string)
    (handshake_headers : Request -> option error)
    (handshake_finish : Request -> result error Conn)
    (LookUpIdent : Request -> string)
    (req : Request) (conn : Conn)
    (a b : byte) (rest : list byte) (sched : list selected) (now : Time) :
  Upgrade url_Parse AllowedOrigin handshake_headers handshake_finish req = Ok conn ->
  is_ascii_digit a = true ->
  is_ascii_digit b = true ->
  tag_value a b <> messageSynchronise ->
  tag_value a b <> messageResynchronise ->
  CheckOrigin url_Parse AllowedOrigin req = true /\
  live (newClient LookUpIdent conn req) /\
  c_synced (newClient LookUpIdent conn req) = false /\
  hasPost errNoPostOpen closePost now (newClient LookUpIdent conn req)
  = Returns (false, Some errNoPostOpen) (newClient LookUpIdent conn req) [] /\
  exists o,
    Handler payload json_Marshal payload_of_string messageInvalid
      messageSynchronise messageResynchronise handlers WrapError
      CloseError_text url_Parse AllowedOrigin handshake_headers
      handshake_finish LookUpIdent req
      (received TextMessage (a :: b :: rest) :: sched) = Some o /\
    terminated o.
Proof.
  intros Hup Ha Hb HnS HnR.
  assert (Hlive : live (newClient LookUpIdent conn req))
    by (repeat split; discriminate).
  split.
  { unfold Upgrade in Hup. destruct (handshake_headers req); [discriminate|].
    destruct (CheckOrigin url_Parse AllowedOrigin req); [reflexivity|discriminate]. }
  split; [exact Hlive|]. split; [reflexivity|]. split; [reflexivity|].
  unfold Handler. rewrite Hup. eexists. split; [reflexivity|].
  assert (Hreject :
            handleMessage messageSynchronise messageResynchronise handlers
              TextMessage (a :: b :: rest) (newClient LookUpIdent conn req)
            = Returns (Some (errInvalidPayload (a :: b :: rest)))
                (newClient LookUpIdent conn req) []).
  { rewrite (proj2 (handleMessage_tagged messageSynchronise
                      messageResynchronise handlers _ a b rest Ha Hb)).
    apply N.eqb_neq in HnS, HnR. cbn [c_synced newClient negb andb].
    now rewrite HnS, HnR. }
  exact (proj2 (rejection_terminates payload json_Marshal payload_of_string
                  messageInvalid messageSynchronise messageResynchronise
                  handlers WrapError CloseError_text _ _ _ _ sched Hreject
                  eq_refl Hlive)).
Qed.

End HandshakeProofs.

(** ** server: the last-N setting and the thread page *)

Module PagesProofs.
Import Http Server Pages.

Lemma detectLastN_le (req : Request) : (detectLastN req <= 500)%Z.
Proof.
  unfold detectLastN.
  destruct (negb _); [|lia].
  destruct (Strconv.Atoi _) as [n|e]; [|lia].
  destruct (Z.leb_spec n 500); lia.
Qed.

(** X12: detectLastN never returns more than 500, whatever the request. *)
Theorem detectLastN_bound (req : Request) : (detectLastN req <= 500)%Z.
Proof.
  unfold detectLastN.
  destruct (negb _); [|lia].
  destruct (Strconv.Atoi _) as [n|e]; [|lia].
  destruct (Z.leb_spec n 500); lia.
Qed.

Section Thread.

Context (text400 : Response -> Strconv.NumError -> Response)
        (text404 : Response -> Response)
        (text500 : Response -> Request -> Websockets.error -> Response)
        (pageEtag : Response -> Request -> string -> Response * bool)
        (etagStart : Z -> string)
        (writeData : Response -> Request -> list byte -> Response)
        (HashBuffer : list byte -> string)
        (thread : Type)
        (ValidateOP : Z -> string -> result Websockets.error bool)
        (ThreadCounter : Z -> result Websockets.error Z)
        (GetThread : Z -> Z -> result Websockets.error thread)
        (json_Marshal : thread -> result Websockets.error (list byte)).

Local Abbreviation threadJSON :=
  (threadJSON text400 text404 text500 pageEtag etagStart writeData HashBuffer
     thread ValidateOP ThreadCounter GetThread json_Marshal).

Local Ltac no_fetch :=
  let Hin := fresh "Hin" in
  cbn [snd]; intros Hin;
  repeat (apply elem_of_cons in Hin as [Hin|Hin]; [discriminate Hin|]);
  now apply elem_of_nil in Hin.

(** X13: threadJSON sends no query to the store when the thread id does not
    parse, and it fetches the thread only after the store has confirmed the
    thread on that board, has given its counter and the ETag check has asked
    for a fresh page; the fetch asks for detectLastN posts, hence never for
    more than 500. *)
Theorem threadJSON_queries
    (w : Response) (r : Request) (p : gmap string string) :
  (forall e, Strconv.ParseInt64 (index p "thread") = Err e ->
             threadJSON w r p = (text400 w e, [])) /\
  (forall id lastN,
     QGetThread id lastN ∈ snd (threadJSON w r p) ->
     Strconv.ParseInt64 (index p "thread") = Ok id /\
     ValidateOP id (index p "board") = Ok true /\
     (exists counter,
        ThreadCounter id = Ok counter /\
        snd (pageEtag w r (etagStart counter)) = true) /\
     lastN = detectLastN r /\
     (lastN <= 500)%Z /\
     snd (threadJSON w r p)
     = [QValidateOP id (index p "board"); QThreadCounter id;
        QGetThread id lastN]).
Proof.
  split.
  - intros e He. unfold Pages.threadJSON. now rewrite He.
  - intros id lastN. unfold Pages.threadJSON.
    destruct (Strconv.ParseInt64 (index p "thread")) as [id'|e];
      [|no_fetch].
    destruct (ValidateOP id' (index p "board")) as [[|]|e] eqn:Hvalid;
      cbn [negb]; [| no_fetch | no_fetch].
    destruct (ThreadCounter id') as [counter|e] eqn:Hcounter;
      [|no_fetch].
    destruct (pageEtag w r (etagStart counter)) as [w' [|]] eqn:Hetag;
      cbn [negb]; [|no_fetch].
    intros Hin.
    assert (Hid : id = id' /\ lastN = detectLastN r).
    { destruct (GetThread id' (detectLastN r)); cbn [snd] in Hin;
        repeat (apply elem_of_cons in Hin as [Hin|Hin];
                [try discriminate Hin|]);
        try (now apply elem_of_nil in Hin);
        inversion Hin; now split. }
    destruct Hid as [-> ->].
    split; [reflexivity|]. split; [exact Hvalid|]. split.
    { exists counter. split; [exact Hcounter|]. now rewrite Hetag. }
    split; [reflexivity|]. split; [apply detectLastN_le|].
    destruct (GetThread id' (detectLastN r)); reflexivity.
Qed.

End Thread.

End PagesProofs.

(** ** imager: uploads *)

Module ImagerProofs.
Import Imager Outcome.

Section Upload.

#[local] Set Default Proof Using "Type".

Context (JPEG PNG GIF PDF WEBM OGG MP4 MP3 SevenZip TGZ TXZ ZIP FLAC TXT NoFile : N)
        (maxBytes : N)
        (File : Type)
        (form_error : Request -> option error)
        (FormFile : Request -> result error File)
        (sha1_hex : File -> result error string)
        (thumbnailer_Process : File -> Source * Thumbnail * option error)
        (Seek : File -> option error)
        (ReadFrom : File -> result error (list byte))
        (apng_Detect : list byte -> bool)
        (md5_base64 : list byte -> string)
        (db_GetImage : string -> ImageCommon * option error)
        (db_NewImageToken : string -> string * option error)
        (db_AllocateImage : list byte -> option (list byte) -> ImageCommon -> option error)
        (library_text : error -> string)
        (sniffed_headers : Http.Response -> list byte -> gmap string string).

Local Abbreviation processFile :=
  (processFile JPEG PNG GIF PDF WEBM OGG MP4 MP3 SevenZip TGZ TXZ ZIP FLAC TXT
     NoFile File thumbnailer_Process Seek ReadFrom apng_Detect md5_base64).
Local Abbreviation newImageToken := (newImageToken db_NewImageToken).
Local Abbreviation parseUploadForm := (parseUploadForm maxBytes form_error).
Local Abbreviation newThumbnail :=
  (newThumbnail JPEG PNG GIF PDF WEBM OGG MP4 MP3 SevenZip TGZ TXZ ZIP FLAC TXT
     NoFile File thumbnailer_Process Seek ReadFrom apng_Detect md5_base64
     db_NewImageToken db_AllocateImage).
Local Abbreviation ParseUpload :=
  (ParseUpload JPEG PNG GIF PDF WEBM OGG MP4 MP3 SevenZip TGZ TXZ ZIP FLAC TXT
     NoFile maxBytes File form_error FormFile sha1_hex thumbnailer_Process Seek
     ReadFrom apng_Detect md5_base64 db_GetImage db_NewImageToken
     db_AllocateImage).
Local Abbreviation NewImageUpload :=
  (NewImageUpload JPEG PNG GIF PDF WEBM OGG MP4 MP3 SevenZip TGZ TXZ ZIP FLAC TXT
     NoFile maxBytes File form_error FormFile sha1_hex thumbnailer_Process Seek
     ReadFrom apng_Detect md5_base64 db_GetImage db_NewImageToken
     db_AllocateImage library_text sniffed_headers).
Local Abbreviation UploadImageHash :=
  (UploadImageHash db_GetImage db_NewImageToken library_text sniffed_headers).
Local Abbreviation Error := (Error library_text).

Local Ltac pick :=
  first [now left | now (right; left) | now (right; right)].

Lemma processFile_keeps_SHA1 (rs : File) (img : ImageCommon) :
  SHA1 (image_of (processFile rs img)) = SHA1 img.
Proof.
  unfold Imager.processFile, image_of.
  destruct (thumbnailer_Process rs) as [[src thumb] e].
  destruct e as [[]|]; cbn [negb]; try reflexivity;
    destruct (Seek rs); try reflexivity;
    destruct (ReadFrom rs); reflexivity.
Qed.

Lemma newImageToken_status (sha : string) :
  (code_of (newImageToken sha) = 200 \/ code_of (newImageToken sha) = 500) /\
  (error_of (newImageToken sha) = None <-> code_of (newImageToken sha) = 200) /\
  calls_of (newImageToken sha) = [NewImageToken sha] /\
  (error_of (newImageToken sha) = None ->
   db_NewImageToken sha = (token_of (newImageToken sha), None)).
Proof.
  unfold Imager.newImageToken, code_of, error_of, calls_of, token_of.
  destruct (db_NewImageToken sha) as [token [e|]]; cbn.
  - repeat split; try (now right); try discriminate.
  - repeat split; try (now left).
Qed.

Lemma newThumbnail_status (rs : File) (img : ImageCommon) :
  (code_of (newThumbnail rs img) = 200 \/ code_of (newThumbnail rs img) = 400
   \/ code_of (newThumbnail rs img) = 500) /\
  (error_of (newThumbnail rs img) = None <-> code_of (newThumbnail rs img) = 200) /\
  (code_of (newThumbnail rs img) = 400 -> token_of (newThumbnail rs img) = EmptyString).
Proof.
  unfold Imager.newThumbnail.
  destruct (processFile rs img) as [[[src thumb] e] img'].
  destruct e as [[]|]; cbn;
    try (repeat split; try pick; try discriminate; fail).
  destruct (db_AllocateImage _ thumb img') as [e|]; cbn;
    try (repeat split; try pick; try discriminate; fail).
  pose proof (newImageToken_status (SHA1 img')) as (Hcode & Hiff & _).
  destruct (newImageToken (SHA1 img')) as [[[code token] e] calls].
  unfold code_of, error_of, token_of in Hcode, Hiff |- *. cbn in Hcode, Hiff |- *.
  split; [destruct Hcode as [Hc|Hc]; rewrite Hc; pick|]. split; [exact Hiff|].
  intros H400. destruct Hcode as [H|H]; rewrite H in H400; discriminate.
Qed.

Lemma ParseUpload_codes (req : Request) :
  (code_of (ParseUpload req) = 200 \/ code_of (ParseUpload req) = 400
   \/ code_of (ParseUpload req) = 500) /\
  (error_of (ParseUpload req) = None <-> code_of (ParseUpload req) = 200) /\
  (code_of (ParseUpload req) = 400 -> token_of (ParseUpload req) = EmptyString).
Proof.
  unfold Imager.ParseUpload.
  destruct (parseUploadForm req) as [[e|] calls]; cbn;
    [repeat split; try pick; discriminate|].
  destruct (FormFile req) as [file|e]; cbn;
    [|repeat split; try pick; discriminate].
  destruct (sha1_hex file) as [sha|e]; cbn;
    [|repeat split; try pick; discriminate].
  destruct (db_GetImage sha) as [img [e|]].
  - destruct e; cbn; try (repeat split; try pick; discriminate).
    pose proof (newThumbnail_status file (set_SHA1 sha img)) as H.
    destruct (newThumbnail file (set_SHA1 sha img)) as [[[code token] e] more].
    exact H.
  - pose proof (newImageToken_status sha) as (Hcode & Hiff & _).
    destruct (newImageToken sha) as [[[code token] e] more].
    unfold code_of, error_of, token_of in Hcode, Hiff |- *.
    cbn in Hcode, Hiff |- *.
    split; [destruct Hcode as [Hc|Hc]; rewrite Hc; pick|]. split; [exact Hiff|].
    intros H400. destruct Hcode as [H|H]; rewrite H in H400; discriminate.
Qed.

(** X14: ParseUpload answers with one of the codes 200, 400 and 500; the
    code is 200 exactly when there is no error; and a 400 never carries a
    token. *)
Theorem ParseUpload_status (req : Request) :
  (code_of (ParseUpload req) = 200 \/ code_of (ParseUpload req) = 400
   \/ code_of (ParseUpload req) = 500) /\
  (error_of (ParseUpload req) = None <-> code_of (ParseUpload req) = 200) /\
  (code_of (ParseUpload req) = 400 -> token_of (ParseUpload req) = EmptyString).
Proof.
  unfold Imager.ParseUpload.
  destruct (parseUploadForm req) as [[e|] calls]; cbn;
    [repeat split; try pick; discriminate|].
  destruct (FormFile req) as [file|e]; cbn;
    [|repeat split; try pick; discriminate].
  destruct (sha1_hex file) as [sha|e]; cbn;
    [|repeat split; try pick; discriminate].
  destruct (db_GetImage sha) as [img [e|]].
  - destruct e; cbn; try (repeat split; try pick; discriminate).
    pose proof (newThumbnail_status file (set_SHA1 sha img)) as H.
    destruct (newThumbnail file (set_SHA1 sha img)) as [[[code token] e] more].
    exact H.
  - pose proof (newImageToken_status sha) as (Hcode & Hiff & _).
    destruct (newImageToken sha) as [[[code token] e] more].
    unfold code_of, error_of, token_of in Hcode, Hiff |- *.
    cbn in Hcode, Hiff |- *.
    split; [destruct Hcode as [Hc|Hc]; rewrite Hc; pick|]. split; [exact Hiff|].
    intros H400. destruct Hcode as [H|H]; rewrite H in H400; discriminate.
Qed.

(** X15: an upload whose Content-Length header is missing, is not a decimal
    64-bit number, or exceeds the size limit is refused with code 400 before
    the form is parsed and before the store is asked anything; whenever
    ParseUpload calls anything, the declared length is within the limit and
    the first call is the parse of the form. *)
Theorem upload_size_gate (req : Request) :
  (forall e,
     Strconv.ParseUint (Http.Values_Get (Header req) "Content-Length") 64 = Err e ->
     ParseUpload req = (400, EmptyString, Some (NumError e), [])) /\
  (Header req !! "Content-Length"%string = None ->
   ParseUpload req = (400, EmptyString, Some (NumError Strconv.ErrSyntax), [])) /\
  (forall n,
     Strconv.ParseUint (Http.Values_Get (Header req) "Content-Length") 64 = Ok n ->
     maxBytes < n ->
     ParseUpload req = (400, EmptyString, Some errTooLarge, [])) /\
  (calls_of (ParseUpload req) <> [] ->
   exists n,
     Strconv.ParseUint (Http.Values_Get (Header req) "Content-Length") 64 = Ok n /\
     n <= maxBytes /\
     head (calls_of (ParseUpload req)) = Some ParseMultipartForm).
Proof.
  unfold Imager.ParseUpload, Imager.parseUploadForm.
  split; [|split; [|split]].
  - intros e He. now rewrite He.
  - intros Hmissing. unfold Http.Values_Get. now rewrite Hmissing.
  - intros n Hn Hbig. rewrite Hn. apply N.ltb_lt in Hbig. now rewrite Hbig.
  - destruct (Strconv.ParseUint _ 64) as [n|e]; [|now cbn].
    destruct (N.ltb_spec maxBytes n) as [Hbig|Hfits]; [now cbn|].
    intros _. exists n. split; [reflexivity|]. split; [exact Hfits|].
    destruct (form_error req); [reflexivity|].
    destruct (FormFile req) as [file|e]; [|reflexivity].
    destruct (sha1_hex file) as [sha|e]; [|reflexivity].
    destruct (db_GetImage sha) as [img [[]|]]; try reflexivity.
    + now destruct (newThumbnail file (set_SHA1 sha img)) as [[[code token] e] more].
    + now destruct (newImageToken sha) as [[[code token] e] more].
Qed.

Lemma newThumbnail_store (rs : File) (img : ImageCommon) :
  (forall img', AllocateImage img' ∈ calls_of (newThumbnail rs img) ->
                SHA1 img' = SHA1 img) /\
  (code_of (newThumbnail rs img) = 200 ->
   db_NewImageToken (SHA1 img) = (token_of (newThumbnail rs img), None) /\
   last (calls_of (newThumbnail rs img)) = Some (NewImageToken (SHA1 img))).
Proof.
  unfold Imager.newThumbnail.
  pose proof (processFile_keeps_SHA1 rs img) as Hsha.
  destruct (processFile rs img) as [[[src thumb] e] img'].
  unfold image_of in Hsha. cbn in Hsha.
  assert (Hnone : forall (x : ImageCommon) (cs : list call),
             (forall y, AllocateImage y ∉ cs) ->
             AllocateImage x ∈ Process :: cs -> False).
  { intros x cs Hcs Hin. apply elem_of_cons in Hin as [Hin|Hin];
      [discriminate Hin|exact (Hcs _ Hin)]. }
  destruct e as [e|].
  - assert (Hcalls : forall code,
               calls_of (code, EmptyString, Some e, [Process]) = [Process])
      by reflexivity.
    destruct e; cbn; (split;
      [intros x Hin; exfalso; apply (Hnone x [] (fun y => not_elem_of_nil _) Hin)
      |discriminate]).
  - destruct (db_AllocateImage _ thumb img') as [e|]; cbn.
    + split; [|discriminate]. intros x Hin.
      apply elem_of_cons in Hin as [Hin|Hin]; [discriminate Hin|].
      apply list_elem_of_singleton in Hin. inversion Hin. exact Hsha.
    + pose proof (newImageToken_status (SHA1 img')) as (_ & Hiff & Hcalls & Htok).
      destruct (newImageToken (SHA1 img')) as [[[code token] e] calls].
      unfold code_of, error_of, token_of, calls_of in Hiff, Hcalls, Htok |- *.
      cbn in Hiff, Hcalls, Htok |- *. subst calls.
      rewrite <- Hsha. split.
      * intros x Hin.
        apply elem_of_cons in Hin as [Hin|Hin]; [discriminate Hin|].
        apply elem_of_cons in Hin as [Hin|Hin]; [now inversion Hin|].
        apply list_elem_of_singleton in Hin. discriminate Hin.
      * intros Hcode. split; [|reflexivity]. apply Htok. now apply Hiff.
Qed.

(** X16: ParseUpload stores an image only when the store did not know the
    hash of the uploaded file, and then under that hash; and when it answers
    200, the token is the one the store issued, without error, for the hash
    of the uploaded file, and issuing it is the last call it makes. *)
Theorem ParseUpload_store (req : Request) :
  (forall img,
     AllocateImage img ∈ calls_of (ParseUpload req) ->
     exists file sha,
       FormFile req = Ok file /\ sha1_hex file = Ok sha /\
       (db_GetImage sha).2 = Some ErrNoRows /\ SHA1 img = sha) /\
  (code_of (ParseUpload req) = 200 ->
   exists file sha,
     FormFile req = Ok file /\ sha1_hex file = Ok sha /\
     db_NewImageToken sha = (token_of (ParseUpload req), None) /\
     last (calls_of (ParseUpload req)) = Some (NewImageToken sha)).
Proof.
  unfold Imager.ParseUpload.
  assert (Hform : forall img, AllocateImage img ∉ (parseUploadForm req).2).
  { intros img. unfold Imager.parseUploadForm.
    destruct (Strconv.ParseUint _ 64) as [n|e]; [|apply not_elem_of_nil].
    destruct (maxBytes <? n); [apply not_elem_of_nil|].
    cbn. intros Hin. apply list_elem_of_singleton in Hin. discriminate Hin. }
  destruct (parseUploadForm req) as [[e|] calls]; cbn in Hform.
  { cbn. split; [intros img Hin; now apply Hform in Hin|discriminate]. }
  destruct (FormFile req) as [file|e].
  2:{ cbn. split; [intros img Hin; now apply Hform in Hin|discriminate]. }
  destruct (sha1_hex file) as [sha|e] eqn:Hsha.
  2:{ cbn. split; [intros img Hin; now apply Hform in Hin|discriminate]. }
  destruct (db_GetImage sha) as [img0 err] eqn:Hget.
  assert (Hskip : forall x (more : list call),
             AllocateImage x ∈ calls ++ GetImage sha :: more ->
             AllocateImage x ∈ more).
  { intros x more Hin. apply elem_of_app in Hin as [Hin|Hin];
      [now apply Hform in Hin|].
    apply elem_of_cons in Hin as [Hin|Hin]; [discriminate Hin|exact Hin]. }
  assert (Hlast : forall (more : list call) c,
             last more = Some c -> last (calls ++ GetImage sha :: more) = Some c).
  { intros more c Hc. rewrite last_app_cons.
    destruct more as [|m more']; [discriminate Hc|].
    change (last (GetImage sha :: m :: more')) with (last (m :: more')).
    exact Hc. }
  destruct err as [e|].
  - destruct e; cbn;
      try (split; [intros x Hin; apply Hskip in Hin;
                   now apply elem_of_nil in Hin|discriminate]).
    pose proof (newThumbnail_store file (set_SHA1 sha img0)) as (Halloc & Hok).
    destruct (newThumbnail file (set_SHA1 sha img0)) as [[[code token] e] more].
    unfold code_of, token_of, calls_of in Halloc, Hok |- *.
    cbn in Halloc, Hok |- *. split.
    + intros x Hin. exists file, sha.
      split; [reflexivity|]. split; [exact Hsha|].
      split; [now rewrite Hget|]. apply Halloc. now apply Hskip.
    + intros Hcode. exists file, sha. destruct (Hok Hcode) as [Htok Hl].
      split; [reflexivity|]. split; [exact Hsha|].
      split; [exact Htok|now apply Hlast].
  - pose proof (newImageToken_status sha) as (_ & Hiff & Hcalls & Htok).
    destruct (newImageToken sha) as [[[code token] e] more].
    unfold code_of, error_of, token_of, calls_of in Hiff, Hcalls, Htok |- *.
    cbn in Hiff, Hcalls, Htok |- *. subst more.
    split.
    + intros x Hin. apply Hskip in Hin.
      apply list_elem_of_singleton in Hin. discriminate Hin.
    + intros Hcode. exists file, sha.
      split; [reflexivity|]. split; [exact Hsha|]. split.
      * apply Htok. now apply Hiff.
      * now apply Hlast.
Qed.

(** X17: NewImageUpload answers a successful upload with status 200 and
    exactly the token as its body; a failed one gets ParseUpload's code as
    its status, and as its body the text of the error on a line of its own
    followed by whatever token was returned. *)
Theorem NewImageUpload_response (req : Request) :
  Http.status (NewImageUpload Server.fresh_response req).1
  = code_of (ParseUpload req) /\
  (NewImageUpload Server.fresh_response req).2 = calls_of (ParseUpload req) /\
  (error_of (ParseUpload req) = None ->
   Http.body (NewImageUpload Server.fresh_response req).1
   = bytes_of_string (token_of (ParseUpload req))) /\
  (forall e, error_of (ParseUpload req) = Some e ->
   Http.body (NewImageUpload Server.fresh_response req).1
   = bytes_of_string (Error e) ++ [x0a]
     ++ bytes_of_string (token_of (ParseUpload req))).
Proof.
  pose proof (ParseUpload_codes req) as (_ & Hiff & _).
  unfold Imager.NewImageUpload.
  destruct (ParseUpload req) as [[[code token] e] calls].
  unfold code_of, error_of, token_of, calls_of in Hiff |- *. cbn in Hiff |- *.
  destruct e as [e|]; cbn.
  - repeat split; try discriminate.
    intros e' He'. inversion He'; subst e'. now rewrite <- app_assoc.
  - repeat split; try discriminate. symmetry. now apply Hiff.
Qed.

(** X18: UploadImageHash refuses a body of more than 40 bytes with status
    500 without asking the store; for a hash the store does not know it
    leaves the response untouched and issues no token; and it asks for a
    token only for the hash it was sent, after the store has found the
    image. *)
Theorem UploadImageHash_lookup (w : Http.Response) (req : Request) :
  ((40 < length (Body req))%nat ->
   UploadImageHash w req
   = (LogError library_text w 500 (otherError "http: request body too large"), [])) /\
  ((length (Body req) <= 40)%nat ->
   (db_GetImage (string_of_bytes (Body req))).2 = Some ErrNoRows ->
   UploadImageHash w req = (w, [GetImage (string_of_bytes (Body req))])) /\
  (forall hash,
     NewImageToken hash ∈ (UploadImageHash w req).2 ->
     hash = string_of_bytes (Body req) /\
     (length (Body req) <= 40)%nat /\
     (db_GetImage hash).2 = None /\
     Http.body (UploadImageHash w req).1
     = Http.body (match (db_NewImageToken hash).2 with
                  | Some e => LogError library_text w 500 e
                  | None => w
                  end)
       ++ bytes_of_string (db_NewImageToken hash).1).
Proof.
  unfold Imager.UploadImageHash, ReadAll_limited.
  split; [|split].
  - intros Hlong. destruct (Nat.leb_spec (length (Body req)) 40); [lia|reflexivity].
  - intros Hshort Hunknown.
    destruct (Nat.leb_spec (length (Body req)) 40); [|lia].
    destruct (db_GetImage (string_of_bytes (Body req))) as [img e].
    cbn in Hunknown. now subst e.
  - intros hash.
    destruct (Nat.leb_spec (length (Body req)) 40) as [Hshort|Hlong];
      [|cbn; intros Hin; now apply elem_of_nil in Hin].
    destruct (db_GetImage (string_of_bytes (Body req))) as [img e] eqn:Hget.
    destruct e as [e|].
    + destruct e; cbn; intros Hin;
        apply list_elem_of_singleton in Hin; discriminate Hin.
    + destruct (db_NewImageToken (string_of_bytes (Body req))) as [token e] eqn:Htok.
      cbn. intros Hin.
      apply elem_of_cons in Hin as [Hin|Hin]; [discriminate Hin|].
      apply list_elem_of_singleton in Hin. inversion Hin; subst hash.
      rewrite Hget, Htok. repeat split. exact Hshort.
Qed.

(** X19: processFile never changes the SHA1 of the image record.  When it
    returns an error it returns no source data and the record as it was;
    the lack of a thumbnail alone is not an error.  When it succeeds, the
    source data is what was read from the file, the size is its length, the
    four dimensions fit 16 bits, the length fits 32 bits, and a missing
    thumbnail is recorded as NoFile. *)
Theorem processFile_record (rs : File) (img : ImageCommon) :
  SHA1 (image_of (processFile rs img)) = SHA1 img /\
  (forall e, failure_of (processFile rs img) = Some e ->
     image_of (processFile rs img) = img /\
     source_of (processFile rs img) = None) /\
  ((thumbnailer_Process rs).2 = Some ErrNoThumb ->
   Seek rs = None ->
   is_ok (ReadFrom rs) = true ->
   failure_of (processFile rs img) = None) /\
  (failure_of (processFile rs img) = None ->
   exists srcData,
     source_of (processFile rs img) = Some srcData /\
     ReadFrom rs = Ok srcData /\
     Size (image_of (processFile rs img)) = Z.of_nat (length srcData) /\
     Forall (fun d => d < 2 ^ 16) (Dims (image_of (processFile rs img))) /\
     length (Dims (image_of (processFile rs img))) = 4%nat /\
     Length (image_of (processFile rs img)) < 2 ^ 32 /\
     (Data (thumbnailer_Process rs).1.2 = None ->
      ThumbType (image_of (processFile rs img)) = NoFile)).
Proof.
  split; [apply processFile_keeps_SHA1|].
  unfold Imager.processFile, image_of, failure_of, source_of.
  destruct (thumbnailer_Process rs) as [[src thumb] e].
  assert (Hbounds : forall (srcData : list byte) (thumbType : N),
    exists d : list byte,
      Some srcData = Some d /\ Ok srcData = @Ok error _ d /\
      Z.of_nat (length srcData) = Z.of_nat (length d) /\
      Forall (fun d => d < 2 ^ 16)
        [SrcWidth src mod 2 ^ 16; SrcHeight src mod 2 ^ 16;
         ThumbWidth thumb mod 2 ^ 16; ThumbHeight thumb mod 2 ^ 16] /\
      4%nat = 4%nat /\
      Z.to_N ((SrcLength src ÷ Websockets.Second) mod 2 ^ 32) < 2 ^ 32 /\
      (Data thumb = None ->
       match Data thumb with
       | Some _ => if IsPNG thumb then PNG else thumbType
       | None => NoFile
       end = NoFile)).
  { intros srcData thumbType. exists srcData.
    repeat split.
    - repeat constructor; apply N.mod_lt; discriminate.
    - pose proof (Z.mod_pos_bound (SrcLength src ÷ Websockets.Second) (2 ^ 32)
                    ltac:(reflexivity)) as Hb.
      change (2 ^ 32) with (Z.to_N (2 ^ 32)%Z). lia.
    - intros ->. reflexivity. }
  destruct e as [e|].
  - destruct e; cbn [negb snd fst];
      try (split; [intros e0 He0; now split
                  |split; [discriminate|discriminate]]);
      destruct (Seek rs) as [x|];
      try (cbn; split; [intros e0 He0; now split
                       |split; [discriminate|discriminate]]);
      destruct (ReadFrom rs) as [d|x]; cbn;
      try (split; [intros e0 He0; now split
                  |split; [discriminate|discriminate]]);
      (split; [discriminate|split; [reflexivity|intros _]]);
      apply (Hbounds d (ThumbType img)).
  - cbn [negb snd fst].
    destruct (Seek rs) as [x|];
      try (cbn; split; [intros e0 He0; now split
                       |split; [discriminate|discriminate]]).
    destruct (ReadFrom rs) as [d|x]; cbn;
      try (split; [intros e0 He0; now split
                  |split; [discriminate|discriminate]]).
    split; [discriminate|split; [discriminate|intros _]].
    apply (Hbounds d (ThumbType img)).
Qed.

End Upload.

End ImagerProofs.

(** ** imager: archive detection and the MIME tables *)

Module ArchiveProofs.
Import Imager.

Lemma HasPrefix_spec (s prefix : list byte) :
  HasPrefix s prefix = true <-> exists rest, s = prefix ++ rest.
Proof.
  revert s. induction prefix as [|p prefix IH]; intros s.
  - split; [intros _; now exists s|intros _; now destruct s].
  - destruct s as [|x s']; cbn.
    + split; [discriminate|]. intros [rest H]. discriminate H.
    + rewrite andb_true_iff, IH. split.
      * intros [Hx [rest ->]]. apply Byte.byte_dec_bl in Hx. subst x.
        now exists rest.
      * intros [rest H]. inversion H; subst. split.
        -- now apply Byte.byte_dec_lb.
        -- now exists rest.
Qed.

Lemma HasPrefix_head (s : list byte) (p : byte) (prefix : list byte) :
  HasPrefix s (p :: prefix) = true -> exists s', s = p :: s'.
Proof.
  intros H. apply HasPrefix_spec in H as [rest ->]. now eexists.
Qed.

Lemma isTar_spec (r : Reader) :
  isTar r = true <->
  read_error r = false /\
  exists pre post,
    delivered r = pre ++ bytes_of_string "ustar" ++ post /\
    length pre = 257%nat.
Proof.
  unfold isTar. split.
  - destruct (read_error r); [discriminate|]. cbn [orb].
    destruct (Nat.eqb_spec (length (take 262 (delivered r))) 262) as [Hlen|Hlen];
      [|discriminate].
    cbn [negb]. intros Hprefix. split; [reflexivity|].
    rewrite CodecProofs.copy_same_length in Hprefix
      by (rewrite length_replicate; lia).
    apply HasPrefix_spec in Hprefix as [rest Hrest].
    assert (Hd : (262 <= length (delivered r))%nat)
      by (rewrite length_take in Hlen; lia).
    assert (rest = []) as ->.
    { apply (f_equal length) in Hrest.
      rewrite length_drop, Hlen, length_app in Hrest. cbn in Hrest.
      destruct rest; [reflexivity|cbn in Hrest; lia]. }
    rewrite app_nil_r in Hrest.
    exists (take 257 (delivered r)), (drop 262 (delivered r)). split.
    + rewrite <- (take_drop 262 (delivered r)) at 1.
      rewrite <- (take_drop 257 (take 262 (delivered r))), Hrest.
      rewrite take_take. change (257 `min` 262)%nat with 257%nat.
      now rewrite <- app_assoc.
    + rewrite length_take. lia.
  - intros (Herr & pre & post & Hd & Hpre). rewrite Herr, Hd. cbn [orb].
    assert (Htake : take 262 (pre ++ bytes_of_string "ustar" ++ post)
                    = pre ++ bytes_of_string "ustar").
    { change 262%nat with (257 + 5)%nat.
      rewrite take_app_add' by (symmetry; exact Hpre). reflexivity. }
    rewrite Htake.
    assert (Hlen : length (pre ++ bytes_of_string "ustar") = 262%nat)
      by (rewrite length_app, Hpre; reflexivity).
    rewrite Hlen. cbn [Nat.eqb negb].
    rewrite CodecProofs.copy_same_length
      by (rewrite length_replicate; lia).
    rewrite drop_app_length' by (symmetry; exact Hpre).
    reflexivity.
Qed.

(** X20: isTar accepts a reader exactly when its first read succeeds and
    delivers at least 262 bytes with the five bytes of the word ustar at
    offset 257; a first read that delivers less is refused even when more
    data would follow. *)
Theorem isTar_first_read (r : Reader) :
  (isTar r = true <->
   read_error r = false /\
   exists pre post,
     delivered r = pre ++ bytes_of_string "ustar" ++ post /\
     length pre = 257%nat) /\
  ((length (delivered r) < 262)%nat -> isTar r = false).
Proof.
  split; [apply isTar_spec|].
  intros Hshort. destruct (isTar r) eqn:H; [|reflexivity].
  apply isTar_spec in H as (_ & pre & post & Hd & Hpre).
  rewrite Hd, !length_app, Hpre in Hshort. cbn in Hshort. lia.
Qed.

Section Archives.

Context (gzip_NewReader xz_NewReader : list byte -> option Reader).

Local Abbreviation detectTarGZ := (detectTarGZ gzip_NewReader).
Local Abbreviation detectTarXZ := (detectTarXZ xz_NewReader).

Lemma detectTarGZ_magic (buf : list byte) :
  detectTarGZ buf = true -> exists rest, buf = x1f :: rest.
Proof.
  unfold Imager.detectTarGZ.
  destruct (HasPrefix buf [x1f; x8b; x08]) eqn:H; [|discriminate].
  intros _. now apply HasPrefix_head in H.
Qed.

Lemma detectTarXZ_magic (buf : list byte) :
  detectTarXZ buf = true -> exists rest, buf = xfd :: rest.
Proof.
  unfold Imager.detectTarXZ.
  destruct (HasPrefix buf [xfd; x37; x7a; x58; x5a; x00]) eqn:H; [|discriminate].
  intros _. now apply HasPrefix_head in H.
Qed.

(** X21: the four archive detectors exclude one another, whatever the
    decompressors answer: a buffer accepted as 7z, zip, tar.gz or tar.xz is
    refused by the three others; and the empty buffer is refused by all. *)
Theorem archive_detectors_exclusive (buf : list byte) :
  (detect7z buf = true ->
   detectZip buf = false /\ detectTarGZ buf = false /\ detectTarXZ buf = false) /\
  (detectZip buf = true ->
   detect7z buf = false /\ detectTarGZ buf = false /\ detectTarXZ buf = false) /\
  (detectTarGZ buf = true ->
   detect7z buf = false /\ detectZip buf = false /\ detectTarXZ buf = false) /\
  (detectTarXZ buf = true ->
   detect7z buf = false /\ detectZip buf = false /\ detectTarGZ buf = false) /\
  (buf = [] ->
   detect7z buf = false /\ detectZip buf = false /\ detectTarGZ buf = false /\
   detectTarXZ buf = false).
Proof.
  split; [|split; [|split; [|split]]].
  - intros H. apply HasPrefix_head in H as [rest ->]. now repeat split.
  - intros H. apply HasPrefix_head in H as [rest ->]. now repeat split.
  - intros H. apply detectTarGZ_magic in H as [rest ->]. now repeat split.
  - intros H. apply detectTarXZ_magic in H as [rest ->]. now repeat split.
  - intros ->. now repeat split.
Qed.

End Archives.

(** X22: the table of accepted MIME types and the table of file type
    constants have the same keys, every accepted type is marked true, and
    every format registered by init is accepted; so an accepted upload
    always finds its file type constant. *)
Theorem mime_tables_agree
    (JPEG PNG GIF PDF WEBM OGG MP4 MP3 SevenZip TGZ TXZ ZIP FLAC TXT : N) :
  dom allowedMimeTypes
  = dom (mimeTypes JPEG PNG GIF PDF WEBM OGG MP4 MP3 SevenZip TGZ TXZ ZIP FLAC TXT) /\
  map_Forall (fun _ accepted => accepted = true) allowedMimeTypes /\
  Forall (fun m => allowedMimeTypes !! m = Some true) formats.
Proof.
  split; [|split].
  - unfold allowedMimeTypes, mimeTypes. rewrite !dom_list_to_map_L.
    vm_compute. reflexivity.
  - apply map_Forall_to_list. vm_compute. repeat constructor.
  - repeat constructor.
Qed.

End ArchiveProofs.

(** ** client: batching of DOM writes and reads *)

Module BatchProofs.
Import Batch.

Lemma scheduleFlush_consistent (s : State) :
  (scheduled s = true <-> frames s = 1%nat) ->
  (frames s <= 1)%nat ->
  consistent (scheduleFlush s).
Proof.
  intros Hiff Hle. unfold scheduleFlush, consistent.
  destruct (scheduled s) eqn:Hs; cbn.
  - rewrite Hs. repeat split; try tauto; try assumption; discriminate.
  - assert (frames s = 0%nat) as ->.
    { destruct (frames s) as [|[|n]]; [reflexivity| |lia].
      destruct Hiff as [_ H]. discriminate (H eq_refl). }
    repeat split; try lia; discriminate.
Qed.

Lemma write_consistent (o : list action) (s : State) :
  consistent s -> consistent (write o s).
Proof. intros (Hiff & Hle & _). now apply scheduleFlush_consistent. Qed.

Lemma read_consistent (o : list action) (s : State) :
  consistent s -> consistent (read o s).
Proof. intros (Hiff & Hle & _). now apply scheduleFlush_consistent. Qed.

Lemma act_consistent (s : State) (a : action) :
  consistent s -> consistent (act s a).
Proof.
  destruct a; cbn; [tauto|apply write_consistent|apply read_consistent|tauto].
Qed.

(** The invariant holds after every single action, so an operation that is
    cut short by a throw keeps it. *)
Lemma call_consistent (o : list action) (s : State) :
  consistent s -> consistent (call s o).1.
Proof.
  revert s. induction o as [|a o IH]; intros s Hs; [exact Hs|].
  destruct a; cbn [call]; try (apply IH; now apply (act_consistent s)).
  exact Hs.
Qed.

Lemma calls_consistent (os : list (list action)) (s : State) :
  consistent s -> consistent (calls s os).1.
Proof.
  revert s. induction os as [|o os IH]; intros s Hs; [exact Hs|].
  cbn [calls]. pose proof (call_consistent o s Hs) as Ho.
  destruct (call s o) as [s1 [|]]; [exact Ho|]. now apply IH.
Qed.

Lemma flush_consistent (s : State) :
  (frames s = 0)%nat -> consistent (flush s).1.
Proof.
  intros Hn. unfold flush.
  match goal with
  | |- context [calls ?start (writeStack s)] =>
      pose proof (calls_consistent (writeStack s) start) as Hw
  end.
  destruct (calls _ (writeStack s)) as [s1 [|]].
  - apply Hw. repeat split; cbn; try lia; discriminate.
  - apply calls_consistent, Hw. repeat split; cbn; try lia; discriminate.
Qed.

Lemma frame_consistent (s : State) : consistent s -> consistent (frame s).
Proof.
  intros Hs. unfold frame. destruct (frames s) as [|n] eqn:Hn; [exact Hs|].
  destruct Hs as (_ & Hle & _). rewrite Hn in Hle.
  assert (n = 0%nat) as -> by lia.
  now apply flush_consistent.
Qed.

Lemma step_consistent (s : State) (ev : event) :
  consistent s -> consistent (step s ev).
Proof.
  destruct ev; cbn;
    [apply write_consistent|apply read_consistent|apply frame_consistent].
Qed.

Lemma run_consistent_from (evs : list event) (s : State) :
  consistent s -> consistent (fold_left step evs s).
Proof.
  revert s. induction evs as [|ev evs IH]; intros s Hs; [exact Hs|].
  cbn. apply IH. now apply step_consistent.
Qed.

Lemma initial_consistent : consistent initial.
Proof. repeat split; cbn; try lia; discriminate. Qed.

(** X23: after any sequence of write and read calls and animation frames,
    including operations that schedule further operations while they run, at
    most one animation frame is pending, one is pending exactly when the
    scheduled flag is set, and nothing is queued without a pending frame. *)
Theorem scheduler_consistent (evs : list event) :
  consistent (run evs) /\
  (frames (run evs) <= 1)%nat /\
  (readStack (run evs) ++ writeStack (run evs) <> [] ->
   frames (run evs) = 1%nat).
Proof.
  pose proof (run_consistent_from evs initial initial_consistent) as H.
  fold (run evs) in H. split; [exact H|].
  destruct H as (Hiff & Hle & Hq). split; [exact Hle|].
  intros Hne. apply Hiff. destruct (scheduled (run evs)); [reflexivity|].
  destruct (Hq eq_refl) as [Hr Hw]. rewrite Hr, Hw in Hne. contradiction.
Qed.

(** The effects and the queues after a call. *)
Lemma act_effects (s : State) (a : action) :
  effects (act s a)
  = effects s ++ match a with Dom l => [l] | _ => [] end /\
  writeStack (act s a)
  = writeStack s ++ match a with CallWrite o => [o] | _ => [] end /\
  readStack (act s a)
  = readStack s ++ match a with CallRead o => [o] | _ => [] end.
Proof.
  destruct a; cbn; unfold write, read, scheduleFlush; cbn;
    destruct (scheduled s); cbn; now rewrite ?app_nil_r.
Qed.

Lemma performed_all (o : list action) : throws o = false -> performed o = o.
Proof.
  induction o as [|a o IH]; [reflexivity|].
  destruct a; cbn; intros H; try discriminate H; now rewrite IH.
Qed.

Lemma executed_all (os : list (list action)) :
  existsb throws os = false -> executed os = os.
Proof.
  induction os as [|o os IH]; [reflexivity|]. cbn.
  intros H. apply orb_false_elim in H as [Ho Hos]. now rewrite Ho, IH.
Qed.

Lemma executed_app (xs ys : list (list action)) :
  executed (xs ++ ys)
  = if existsb throws xs then executed xs else xs ++ executed ys.
Proof.
  induction xs as [|o xs IH]; [reflexivity|]. cbn.
  destruct (throws o); [reflexivity|]. cbn. rewrite IH.
  now destruct (existsb throws xs).
Qed.

Lemma call_effects (o : list action) (s : State) :
  (call s o).2 = throws o /\
  effects (call s o).1 = effects s ++ labels (performed o) /\
  writeStack (call s o).1 = writeStack s ++ queued_writes (performed o) /\
  readStack (call s o).1 = readStack s ++ queued_reads (performed o).
Proof.
  revert s. induction o as [|a o IH]; intros s.
  - cbn. now rewrite !app_nil_r.
  - destruct (act_effects s a) as (He' & Hw' & Hr').
    destruct (IH (act s a)) as (Ht & He & Hw & Hr).
    destruct a; cbn [call performed];
      try (cbn; now rewrite !app_nil_r);
      (split; [exact Ht|]);
      rewrite He, Hw, Hr, He', Hw', Hr';
      unfold labels, queued_writes, queued_reads; cbn [flat_map];
      now rewrite <- !app_assoc.
Qed.

Lemma calls_effects (os : list (list action)) (s : State) :
  (calls s os).2 = existsb throws os /\
  effects (calls s os).1 = effects s ++ flat_map labels (executed os) /\
  writeStack (calls s os).1
  = writeStack s ++ flat_map queued_writes (executed os) /\
  readStack (calls s os).1
  = readStack s ++ flat_map queued_reads (executed os).
Proof.
  revert s. induction os as [|o os IH]; intros s.
  - cbn. now rewrite !app_nil_r.
  - cbn [calls executed existsb].
    destruct (call_effects o s) as (Ht' & He' & Hw' & Hr').
    destruct (call s o) as [s1 thrown]. cbn [fst snd] in Ht', He', Hw', Hr'.
    rewrite <- Ht'. destruct thrown; cbn [orb].
    + cbn. now rewrite He', Hw', Hr', !app_nil_r.
    + destruct (IH s1) as (Ht & He & Hw & Hr).
      rewrite He, Hw, Hr, He', Hw', Hr'.
      rewrite (performed_all o) by (now symmetry).
      cbn [flat_map]. now rewrite <- !app_assoc.
Qed.

Lemma calls_app (xs ys : list (list action)) (s : State) :
  calls s (xs ++ ys)
  = if (calls s xs).2 then calls s xs else calls (calls s xs).1 ys.
Proof.
  revert s. induction xs as [|o xs IH]; intros s; [reflexivity|].
  cbn [app calls]. destruct (call s o) as [s1 [|]]; [reflexivity|]. apply IH.
Qed.

(** [flush] is the one loop over the writes followed by the reads, started
    from the emptied stacks. *)
Lemma flush_calls (s : State) :
  flush s
  = calls {| readStack := []; writeStack := []; scheduled := false;
             frames := frames s; effects := effects s |}
      (writeStack s ++ readStack s).
Proof.
  unfold flush. rewrite calls_app.
  now destruct (calls _ (writeStack s)) as [s1 [|]].
Qed.

Lemma flush_effects (s : State) :
  (flush s).2 = existsb throws (writeStack s ++ readStack s) /\
  effects (flush s).1
  = effects s ++ flat_map labels (executed (writeStack s ++ readStack s)) /\
  writeStack (flush s).1
  = flat_map queued_writes (executed (writeStack s ++ readStack s)) /\
  readStack (flush s).1
  = flat_map queued_reads (executed (writeStack s ++ readStack s)).
Proof.
  rewrite flush_calls.
  match goal with
  | |- context [calls ?start (writeStack s ++ readStack s)] =>
      destruct (calls_effects (writeStack s ++ readStack s) start)
        as (Ht & He & Hw & Hr)
  end.
  cbn [effects writeStack readStack app] in He, Hw, Hr.
  now rewrite Ht, He, Hw, Hr.
Qed.

(** X24: flush calls the queued write operations in queue order and then
    the queued read operations in queue order, and it stops at the first
    operation that throws: it has emptied both stacks before the first call
    and has no handler around the calls.  The DOM effects it performs are
    those of the operations before the throwing one, followed by what the
    throwing one did before its throw, and the operations scheduled by what
    ran form the new stacks.  So when no queued operation throws, every
    write is performed before every read and flush returns; when a write
    throws, no read is performed, and what was queued after the throwing
    operation is neither run nor kept. *)
Theorem flush_writes_before_reads (s : State) :
  ((flush s).2 = existsb throws (writeStack s ++ readStack s) /\
   effects (flush s).1
   = effects s ++ flat_map labels (executed (writeStack s ++ readStack s)) /\
   writeStack (flush s).1
   = flat_map queued_writes (executed (writeStack s ++ readStack s)) /\
   readStack (flush s).1
   = flat_map queued_reads (executed (writeStack s ++ readStack s))) /\
  (existsb throws (writeStack s ++ readStack s) = false ->
   (flush s).2 = false /\
   effects (flush s).1
   = effects s ++ flat_map labels (writeStack s)
     ++ flat_map labels (readStack s) /\
   writeStack (flush s).1
   = flat_map queued_writes (writeStack s)
     ++ flat_map queued_writes (readStack s) /\
   readStack (flush s).1
   = flat_map queued_reads (writeStack s)
     ++ flat_map queued_reads (readStack s)) /\
  (existsb throws (writeStack s) = true ->
   (flush s).2 = true /\
   effects (flush s).1
   = effects s ++ flat_map labels (executed (writeStack s)) /\
   writeStack (flush s).1 = flat_map queued_writes (executed (writeStack s)) /\
   readStack (flush s).1 = flat_map queued_reads (executed (writeStack s))).
Proof.
  rewrite flush_calls.
  match goal with
  | |- context [calls ?start (writeStack s ++ readStack s)] =>
      destruct (calls_effects (writeStack s ++ readStack s) start)
        as (Ht & He & Hw & Hr)
  end.
  cbn [effects writeStack readStack app] in He, Hw, Hr.
  split; [now rewrite Ht, He, Hw, Hr|]. split.
  - intros Hnone. rewrite Ht, He, Hw, Hr, (executed_all _ Hnone), Hnone.
    now rewrite !flat_map_app.
  - intros Hthrow. rewrite Ht, He, Hw, Hr, executed_app, existsb_app, Hthrow.
    repeat split.
Qed.

(** X25: from any state the module can reach, an operation passed to write
    or to read is run by the next animation frame, in its place in the
    queue, when no queued operation throws: a write after the writes queued
    before it and before every queued read, a read after everything queued
    before it.  When an operation queued before it throws, the new
    operation is lost: the frame leaves the module exactly as if it had
    never been passed. *)
Theorem queued_operation_runs (evs : list event) (o : list action) :
  (existsb throws (writeStack (run evs) ++ o :: readStack (run evs)) = false ->
   effects (frame (write o (run evs)))
   = effects (run evs) ++ flat_map labels (writeStack (run evs)) ++ labels o
     ++ flat_map labels (readStack (run evs))) /\
  (existsb throws (writeStack (run evs) ++ readStack (run evs) ++ [o]) = false ->
   effects (frame (read o (run evs)))
   = effects (run evs) ++ flat_map labels (writeStack (run evs))
     ++ flat_map labels (readStack (run evs)) ++ labels o) /\
  (existsb throws (writeStack (run evs)) = true ->
   frame (write o (run evs)) = frame (run evs)) /\
  (existsb throws (writeStack (run evs) ++ readStack (run evs)) = true ->
   frame (read o (run evs)) = frame (run evs)).
Proof.
  pose proof (run_consistent_from evs initial initial_consistent) as Hs.
  fold (run evs) in Hs. set (s := run evs) in *.
  assert (Hw : frames (write o s) = 1%nat).
  { pose proof (write_consistent o s Hs) as (Hiff & _ & Hq).
    apply Hiff. destruct (scheduled (write o s)) eqn:E; [reflexivity|].
    destruct (Hq eq_refl) as [_ Hempty].
    unfold write, scheduleFlush in Hempty. cbn in Hempty.
    destruct (scheduled s); cbn in Hempty; now destruct (writeStack s). }
  assert (Hr : frames (read o s) = 1%nat).
  { pose proof (read_consistent o s Hs) as (Hiff & _ & Hq).
    apply Hiff. destruct (scheduled (read o s)) eqn:E; [reflexivity|].
    destruct (Hq eq_refl) as [Hempty _].
    unfold read, scheduleFlush in Hempty. cbn in Hempty.
    destruct (scheduled s); cbn in Hempty; now destruct (readStack s). }
  assert (Hpending : readStack s ++ writeStack s <> [] ->
                     scheduled s = true /\ frames s = 1%nat).
  { intros Hne. destruct Hs as (Hiff & _ & Hq).
    destruct (scheduled s) eqn:E; [split; [reflexivity|now apply Hiff]|].
    destruct (Hq eq_refl) as [H1 H2]. rewrite H1, H2 in Hne. contradiction. }
  split; [|split; [|split]].
  - intros Hnone. unfold frame. rewrite Hw.
    match goal with |- effects (flush ?x).1 = _ =>
      rewrite (proj1 (proj2 (flush_effects x))) end.
    unfold write, scheduleFlush. cbn.
    destruct (scheduled s); cbn [writeStack readStack effects];
      rewrite <- app_assoc; cbn [app];
      rewrite (executed_all _ Hnone), flat_map_app; cbn [flat_map];
      rewrite <- ?app_assoc; reflexivity.
  - intros Hnone. unfold frame. rewrite Hr.
    match goal with |- effects (flush ?x).1 = _ =>
      rewrite (proj1 (proj2 (flush_effects x))) end.
    unfold read, scheduleFlush. cbn.
    destruct (scheduled s); cbn [writeStack readStack effects];
      rewrite (executed_all _ Hnone), !flat_map_app; cbn [flat_map];
      rewrite ?app_nil_r, <- ?app_assoc; reflexivity.
  - intros Hthrow.
    destruct Hpending as [Hsched Hframes].
    { destruct (writeStack s); [discriminate Hthrow|].
      now destruct (readStack s). }
    unfold frame, write, scheduleFlush. cbn. rewrite Hsched, Hframes. cbn.
    rewrite !flush_calls. cbn [writeStack readStack frames effects].
    rewrite <- app_assoc, !(calls_app (writeStack s)).
    match goal with
    | |- context [calls ?start (writeStack s)] =>
        rewrite (proj1 (calls_effects (writeStack s) start))
    end.
    now rewrite Hthrow.
  - intros Hthrow.
    destruct Hpending as [Hsched Hframes].
    { intros Hempty. apply app_eq_nil in Hempty as [H1 H2].
      rewrite H1, H2 in Hthrow. discriminate Hthrow. }
    unfold frame, read, scheduleFlush. cbn. rewrite Hsched, Hframes. cbn.
    rewrite !flush_calls. cbn [writeStack readStack frames effects].
    rewrite app_assoc, (calls_app (writeStack s ++ readStack s)).
    match goal with
    | |- context [calls ?start (writeStack s ++ readStack s)] =>
        rewrite (proj1 (calls_effects (writeStack s ++ readStack s) start))
    end.
    now rewrite Hthrow.
Qed.

End BatchProofs.

(** ** The further statements at concrete inputs *)

Module MoreInstances.
Import Http Websockets Spec Behaviour.

Local Abbreviation sample_loop :=
  (listenerLoop Sample.messageSynchronise Sample.messageResynchronise
     Sample.handlers).
Local Abbreviation sample_Listen :=
  (Listen string Sample.Marshal (fun s => s) Sample.messageInvalid
     Sample.messageSynchronise Sample.messageResynchronise Sample.handlers
     Sample.WrapError Sample.CloseError_text).
Local Abbreviation sample_closeConnections :=
  (closeConnections string Sample.Marshal (fun s => s) Sample.messageInvalid
     Sample.WrapError Sample.CloseError_text).
Local Abbreviation sample_handleMessage :=
  (handleMessage Sample.messageSynchronise Sample.messageResynchronise
     Sample.handlers).

Lemma encodeMessage_uint8_witness :
  123 < 256 /\
  encodeMessage string Sample.Marshal 123 "a" = Ok [x31; x32; x22; x61; x22] /\
  Strconv.ParseUint (string_of_bytes (take 2 [x31; x32; x22; x61; x22])) 8
  = Ok 12.
Proof.
  split; [reflexivity|].
  destruct (CodecProofs.encodeMessage_uint8 string Sample.Marshal 123 "a" eq_refl)
    as [Hshape Hread].
  split; [exact Hshape|].
  exact (proj2 (proj2 (Hread [x22; x61; x22] _ Hshape eq_refl))).
Defined.

Lemma sendMessage_one_frame_witness :
  35 < 256 /\
  sendMessage string Sample.Marshal 35 "a" Sample.client
  = Returns None Sample.client
      [WriteMessage TextMessage [x33; x35; x22; x61; x22]] /\
  sendMessage string Sample.Marshal_fails 35 "a" Sample.client
  = Returns (Some (opaqueError "json: unsupported value")) Sample.client [].
Proof.
  split; [reflexivity|]. split.
  - exact (CodecProofs.sendMessage_one_frame string Sample.Marshal 35 "a"
             Sample.client eq_refl).
  - exact (CodecProofs.sendMessage_one_frame string Sample.Marshal_fails 35 "a"
             Sample.client eq_refl).
Defined.

Lemma handleMessage_by_tag_witness :
  is_ascii_digit x30 = true /\ is_ascii_digit x33 = true /\
  tag_value x30 x33 = 3 /\
  sample_handleMessage TextMessage [x30; x33; x61] Sample.synced_client
  = after_calls [Invoke 3 [x61]] (Sample.appendRune [x61] Sample.synced_client) /\
  sample_handleMessage TextMessage [x30; x33; x61] Sample.client
  = Returns (Some (errInvalidPayload [x30; x33; x61])) Sample.client [].
Proof.
  split; [reflexivity|]. split; [reflexivity|]. split; [reflexivity|]. split.
  - exact (proj2 (LoopProofs.handleMessage_by_tag Sample.messageSynchronise
                    Sample.messageResynchronise Sample.handlers
                    Sample.synced_client x30 x33 [x61] eq_refl eq_refl)).
  - exact (proj2 (LoopProofs.handleMessage_by_tag Sample.messageSynchronise
                    Sample.messageResynchronise Sample.handlers
                    Sample.client x30 x33 [x61] eq_refl eq_refl)).
Defined.

Lemma unknown_type_rejected_witness :
  is_ascii_digit x39 = true /\
  Sample.handlers !! tag_value x39 x39 = None /\
  sample_handleMessage TextMessage [x39; x39; x7b; x7d] Sample.synced_client
  = Returns (Some (errInvalidPayload [x39; x39; x7b; x7d]))
      Sample.synced_client [] /\
  terminated
    (sample_Listen [received TextMessage [x39; x39; x7b; x7d]]
       Sample.synced_client) /\
  ~ live (set_close ChanClosed Sample.synced_client) /\
  sample_Listen [received TextMessage [x39; x39; x7b; x7d]]
    (set_close ChanClosed Sample.synced_client)
  = Panics [ClientsRemove].
Proof.
  assert (Hdead : ~ live (set_close ChanClosed Sample.synced_client))
    by (intros [H _]; discriminate H).
  split; [reflexivity|]. split; [reflexivity|].
  destruct (LoopProofs.unknown_type_rejected string Sample.Marshal (fun s => s)
              Sample.messageInvalid Sample.messageSynchronise
              Sample.messageResynchronise Sample.handlers Sample.WrapError
              Sample.CloseError_text Sample.synced_client x39 x39 [x7b; x7d] []
              eq_refl eq_refl eq_refl) as (Hreject & Hend & _).
  split; [exact Hreject|]. split; [apply Hend; repeat split; discriminate|].
  split; [exact Hdead|].
  exact (proj2 (proj2 (LoopProofs.unknown_type_rejected string Sample.Marshal
                         (fun s => s) Sample.messageInvalid
                         Sample.messageSynchronise Sample.messageResynchronise
                         Sample.handlers Sample.WrapError Sample.CloseError_text
                         (set_close ChanClosed Sample.synced_client)
                         x39 x39 [x7b; x7d] [] eq_refl eq_refl eq_refl)) Hdead).
Defined.

Lemma outbound_in_order_witness :
  writeError (c_conn Sample.client) = None /\
  forallb is_outbound [SelWrite [x61]; SelPing; SelWrite [x62]] = true /\
  sample_loop [SelWrite [x61]; SelPing; SelWrite [x62]] Sample.client
  = Returns None Sample.client
      [WriteMessage TextMessage [x61]; WriteControl PingMessage pingMessage;
       WriteMessage TextMessage [x62]].
Proof.
  split; [reflexivity|]. split; [reflexivity|].
  exact (LoopProofs.outbound_in_order Sample.messageSynchronise
           Sample.messageResynchronise Sample.handlers
           [SelWrite [x61]; SelPing; SelWrite [x62]] Sample.client
           eq_refl eq_refl).
Defined.

Lemma failed_write_terminates_witness :
  writeError (c_conn (set_conn Sample.broken_conn Sample.client))
  = Some (opaqueError "write: broken pipe") /\
  live (set_conn Sample.broken_conn Sample.client) /\
  sample_loop [SelWrite [x61]; SelWrite [x62]]
    (set_conn Sample.broken_conn Sample.client)
  = Returns (Some (Some (opaqueError "write: broken pipe")))
      (set_conn Sample.broken_conn Sample.client)
      [WriteMessage TextMessage [x61]] /\
  sample_Listen [SelPing; SelWrite [x62]]
    (set_conn Sample.broken_conn Sample.client)
  = Returns (Some (Some (opaqueError "write: broken pipe")))
      (torn_down (Some (opaqueError "write: broken pipe"))
         (set_conn Sample.broken_conn Sample.client))
      [WriteControl PingMessage pingMessage; ClientsRemove;
       WriteMessage TextMessage
         (x30 :: x30 :: x22 :: bytes_of_string "write: broken pipe" ++ [x22]);
       WriteControl CloseMessage [x03; xef]; ConnClose] /\
  ~ live (set_close ChanClosed (set_conn Sample.broken_conn Sample.client)) /\
  sample_Listen [SelPing; SelWrite [x62]]
    (set_close ChanClosed (set_conn Sample.broken_conn Sample.client))
  = Panics [WriteControl PingMessage pingMessage; ClientsRemove] /\
  terminated
    (sample_Listen [SelWrite [x61]; SelWrite [x62]]
       (set_conn Sample.broken_conn Sample.client)).
Proof.
  assert (Hlive : live (set_conn Sample.broken_conn Sample.client))
    by (repeat split; discriminate).
  assert (Hdead : ~ live (set_close ChanClosed
                            (set_conn Sample.broken_conn Sample.client)))
    by (intros [H _]; discriminate H).
  split; [reflexivity|]. split; [exact Hlive|].
  split; [|split; [|split; [|split]]].
  - exact (proj1 (LoopProofs.failed_write_terminates string Sample.Marshal
                    (fun s => s) Sample.messageInvalid Sample.messageSynchronise
                    Sample.messageResynchronise Sample.handlers Sample.WrapError
                    Sample.CloseError_text (SelWrite [x61])
                    (opaqueError "write: broken pipe") [SelWrite [x62]]
                    (set_conn Sample.broken_conn Sample.client)
                    eq_refl eq_refl)).
  - exact (proj1 (proj2 (proj2
             (LoopProofs.failed_write_terminates string Sample.Marshal
                (fun s => s) Sample.messageInvalid Sample.messageSynchronise
                Sample.messageResynchronise Sample.handlers Sample.WrapError
                Sample.CloseError_text SelPing
                (opaqueError "write: broken pipe") [SelWrite [x62]]
                (set_conn Sample.broken_conn Sample.client)
                eq_refl eq_refl))) Hlive eq_refl).
  - exact Hdead.
  - exact (proj2 (proj2 (proj2
             (LoopProofs.failed_write_terminates string Sample.Marshal
                (fun s => s) Sample.messageInvalid Sample.messageSynchronise
                Sample.messageResynchronise Sample.handlers Sample.WrapError
                Sample.CloseError_text SelPing
                (opaqueError "write: broken pipe") [SelWrite [x62]]
                (set_close ChanClosed (set_conn Sample.broken_conn Sample.client))
                eq_refl eq_refl))) Hdead).
  - exact (proj1 (proj2
             (LoopProofs.failed_write_terminates string Sample.Marshal
                (fun s => s) Sample.messageInvalid Sample.messageSynchronise
                Sample.messageResynchronise Sample.handlers Sample.WrapError
                Sample.CloseError_text (SelWrite [x61])
                (opaqueError "write: broken pipe") [SelWrite [x62]]
                (set_conn Sample.broken_conn Sample.client)
                eq_refl eq_refl)) Hlive).
Defined.


Lemma Close_then_Listen_witness :
  live Sample.synced_client /\
  bind Close (fun _ => sample_Listen [SelClose; SelPing]) Sample.synced_client
  = Returns (Some None)
      (torn_down None (set_close ChanClosed Sample.synced_client))
      [ClientsRemove; WriteControl CloseMessage [x03; xe8]; ConnClose].
Proof.
  assert (Hlive : live Sample.synced_client) by (repeat split; discriminate).
  split; [exact Hlive|].
  exact (LoopProofs.Close_then_Listen string Sample.Marshal (fun s => s)
           Sample.messageInvalid Sample.messageSynchronise
           Sample.messageResynchronise Sample.handlers Sample.WrapError
           Sample.CloseError_text [SelPing] Sample.synced_client Hlive).
Defined.

Lemma closeConnections_double_close_witness :
  c_write (torn_down None Sample.client) = ChanClosed /\
  live Sample.client /\
  sample_closeConnections None (torn_down None Sample.client) = Panics [] /\
  bind Close
    (fun _ => sample_closeConnections (Some (opaqueError "read: timeout")))
    Sample.client
  = Panics [].
Proof.
  assert (Hlive : live Sample.client) by (repeat split; discriminate).
  split; [reflexivity|]. split; [exact Hlive|]. split.
  - exact (proj1 (LoopProofs.closeConnections_double_close string Sample.Marshal
                    (fun s => s) Sample.messageInvalid Sample.WrapError
                    Sample.CloseError_text None (torn_down None Sample.client))
             (or_introl eq_refl)).
  - exact (proj2 (LoopProofs.closeConnections_double_close string Sample.Marshal
                    (fun s => s) Sample.messageInvalid Sample.WrapError
                    Sample.CloseError_text None Sample.client)
             (opaqueError "read: timeout") Hlive).
Defined.

Lemma new_client_must_synchronise_witness :
  Upgrade Sample.url_Parse "example.org" (fun _ => None)
    (fun _ => Ok Sample.conn) (Sample.request ["https://example.org"%string] [])
  = Ok Sample.conn /\
  tag_value x30 x33 <> Sample.messageSynchronise /\
  tag_value x30 x33 <> Sample.messageResynchronise /\
  exists o,
    Handler string Sample.Marshal (fun s => s) Sample.messageInvalid
      Sample.messageSynchronise Sample.messageResynchronise Sample.handlers
      Sample.WrapError Sample.CloseError_text Sample.url_Parse "example.org"
      (fun _ => None) (fun _ => Ok Sample.conn) (fun _ => "203.0.113.7"%string)
      (Sample.request ["https://example.org"%string] [])
      (received TextMessage [x30; x33; x61] :: [SelPing]) = Some o /\
    terminated o.
Proof.
  split; [reflexivity|]. split; [discriminate|]. split; [discriminate|].
  exact (proj2 (proj2 (proj2 (proj2
           (HandshakeProofs.new_client_must_synchronise string Sample.Marshal
              (fun s => s) Sample.messageInvalid Sample.messageSynchronise
              Sample.messageResynchronise Sample.handlers Sample.WrapError
              Sample.CloseError_text Sample.errNoPostOpen closePost_spec
              Sample.url_Parse "example.org" (fun _ => None)
              (fun _ => Ok Sample.conn) (fun _ => "203.0.113.7"%string)
              (Sample.request ["https://example.org"%string] []) Sample.conn
              x30 x33 [x61] [SelPing] 0%Z eq_refl eq_refl eq_refl
              ltac:(discriminate) ltac:(discriminate)))))).
Defined.

End MoreInstances.

Module PageInstances.
Import Http Server Pages.

Local Abbreviation sample_threadJSON :=
  (threadJSON SamplePage.text400 SamplePage.text404 SamplePage.text500
     SamplePage.pageEtag SamplePage.etagStart SamplePage.writeData
     SamplePage.HashBuffer (list byte) SamplePage.ValidateOP
     SamplePage.ThreadCounter SamplePage.GetThread SamplePage.json_Marshal).
Local Abbreviation sample_queries :=
  (PagesProofs.threadJSON_queries SamplePage.text400 SamplePage.text404
     SamplePage.text500 SamplePage.pageEtag SamplePage.etagStart
     SamplePage.writeData SamplePage.HashBuffer (list byte)
     SamplePage.ValidateOP SamplePage.ThreadCounter SamplePage.GetThread
     SamplePage.json_Marshal).

Lemma threadJSON_queries_witness :
  Strconv.ParseInt64 (index (SamplePage.params "a" "5x") "thread")
  = Err Strconv.ErrSyntax /\
  QGetThread 5 0
  ∈ (sample_threadJSON fresh_response (Sample.request [] ["900"%string])
       (SamplePage.params "a" "5")).2 /\
  sample_threadJSON fresh_response (Sample.request [] []) (SamplePage.params "a" "5x")
  = (SamplePage.text400 fresh_response Strconv.ErrSyntax, []) /\
  (sample_threadJSON fresh_response (Sample.request [] ["900"%string])
     (SamplePage.params "a" "5")).2
  = [QValidateOP 5 "a"; QThreadCounter 5; QGetThread 5 0].
Proof.
  assert (Hin : QGetThread 5 0
                ∈ (sample_threadJSON fresh_response
                     (Sample.request [] ["900"%string])
                     (SamplePage.params "a" "5")).2).
  { vm_compute. do 2 apply list_elem_of_further. apply list_elem_of_here. }
  split; [reflexivity|]. split; [exact Hin|]. split.
  - exact (proj1 (sample_queries fresh_response (Sample.request [] [])
                    (SamplePage.params "a" "5x")) Strconv.ErrSyntax eq_refl).
  - exact (proj2 (proj2 (proj2 (proj2 (proj2
             (proj2 (sample_queries fresh_response
                       (Sample.request [] ["900"%string])
                       (SamplePage.params "a" "5")) 5%Z 0%Z Hin)))))).
Defined.

End PageInstances.

Module UploadInstances.
Import Imager Outcome.

Local Abbreviation sample_ParseUpload :=
  (ParseUpload 0 1 2 3 4 5 6 7 8 9 10 11 12 13 14 1000 (list byte)
     SampleUpload.form_error SampleUpload.FormFile SampleUpload.sha1_hex
     SampleUpload.thumbnailer_Process SampleUpload.Seek SampleUpload.ReadFrom
     SampleUpload.apng_Detect SampleUpload.md5_base64 SampleUpload.db_GetImage
     SampleUpload.db_NewImageToken SampleUpload.db_AllocateImage).
Local Abbreviation sample_NewImageUpload :=
  (NewImageUpload 0 1 2 3 4 5 6 7 8 9 10 11 12 13 14 1000 (list byte)
     SampleUpload.form_error SampleUpload.FormFile SampleUpload.sha1_hex
     SampleUpload.thumbnailer_Process SampleUpload.Seek SampleUpload.ReadFrom
     SampleUpload.apng_Detect SampleUpload.md5_base64 SampleUpload.db_GetImage
     SampleUpload.db_NewImageToken SampleUpload.db_AllocateImage
     SampleUpload.library_text SampleUpload.sniffed_headers).
Local Abbreviation sample_processFile :=
  (processFile 0 1 2 3 4 5 6 7 8 9 10 11 12 13 14 (list byte)
     SampleUpload.thumbnailer_Process SampleUpload.Seek SampleUpload.ReadFrom
     SampleUpload.apng_Detect SampleUpload.md5_base64).
Local Abbreviation sample_UploadImageHash :=
  (UploadImageHash SampleUpload.db_GetImage SampleUpload.db_NewImageToken
     SampleUpload.library_text SampleUpload.sniffed_headers).
Local Abbreviation with_sample T :=
  (T 0 1 2 3 4 5 6 7 8 9 10 11 12 13 14 1000 (list byte)
     SampleUpload.form_error SampleUpload.FormFile SampleUpload.sha1_hex
     SampleUpload.thumbnailer_Process SampleUpload.Seek SampleUpload.ReadFrom
     SampleUpload.apng_Detect SampleUpload.md5_base64 SampleUpload.db_GetImage
     SampleUpload.db_NewImageToken SampleUpload.db_AllocateImage)
  (only parsing).

Lemma ParseUpload_status_witness :
  error_of (sample_ParseUpload (SampleUpload.upload ["5"%string] "hello")) = None /\
  code_of (sample_ParseUpload (SampleUpload.upload ["5"%string] "hello")) = 200 /\
  code_of (sample_ParseUpload (SampleUpload.upload ["5000"%string] "hello")) = 400 /\
  token_of (sample_ParseUpload (SampleUpload.upload ["5000"%string] "hello"))
  = EmptyString.
Proof.
  split; [reflexivity|]. split; [|split; [reflexivity|]].
  - apply (proj1 (proj2 (with_sample ImagerProofs.ParseUpload_status
                           (SampleUpload.upload ["5"%string] "hello")))).
    reflexivity.
  - apply (proj2 (proj2 (with_sample ImagerProofs.ParseUpload_status
                           (SampleUpload.upload ["5000"%string] "hello")))).
    reflexivity.
Defined.

Lemma upload_size_gate_witness :
  Strconv.ParseUint
    (Http.Values_Get (Header (SampleUpload.upload ["5000"%string] "hello"))
       "Content-Length") 64 = Ok 5000 /\
  1000 < 5000 /\
  sample_ParseUpload (SampleUpload.upload ["5000"%string] "hello")
  = (400, EmptyString, Some errTooLarge, []) /\
  sample_ParseUpload {| Header := ∅; Body := [] |}
  = (400, EmptyString, Some (NumError Strconv.ErrSyntax), []) /\
  sample_ParseUpload (SampleUpload.upload ["-1"%string] "hello")
  = (400, EmptyString, Some (NumError Strconv.ErrSyntax), []) /\
  head (calls_of (sample_ParseUpload (SampleUpload.upload ["5"%string] "hello")))
  = Some ParseMultipartForm.
Proof.
  split; [reflexivity|]. split; [reflexivity|].
  split; [|split; [|split]].
  - exact (proj1 (proj2 (proj2 (with_sample ImagerProofs.upload_size_gate
                                  (SampleUpload.upload ["5000"%string] "hello"))))
             5000 eq_refl eq_refl).
  - exact (proj1 (proj2 (with_sample ImagerProofs.upload_size_gate
                           {| Header := ∅; Body := [] |})) eq_refl).
  - exact (proj1 (with_sample ImagerProofs.upload_size_gate
                    (SampleUpload.upload ["-1"%string] "hello"))
             Strconv.ErrSyntax eq_refl).
  - destruct (proj2 (proj2 (proj2 (with_sample ImagerProofs.upload_size_gate
                    (SampleUpload.upload ["5"%string] "hello"))))
                ltac:(discriminate)) as (n & _ & _ & Hhead).
    exact Hhead.
Defined.

Lemma ParseUpload_store_witness :
  code_of (sample_ParseUpload (SampleUpload.upload ["5"%string] "hello")) = 200 /\
  calls_of (sample_ParseUpload (SampleUpload.upload ["5"%string] "seen!"))
  = [ParseMultipartForm; GetImage "seen"; NewImageToken "seen"] /\
  (exists file sha,
     SampleUpload.FormFile (SampleUpload.upload ["5"%string] "hello") = Ok file /\
     SampleUpload.sha1_hex file = Ok sha /\
     SampleUpload.db_NewImageToken sha
     = (token_of (sample_ParseUpload (SampleUpload.upload ["5"%string] "hello")),
        None) /\
     last (calls_of (sample_ParseUpload (SampleUpload.upload ["5"%string] "hello")))
     = Some (NewImageToken sha)) /\
  (forall img,
     AllocateImage img
     ∈ calls_of (sample_ParseUpload (SampleUpload.upload ["5"%string] "hello")) ->
     SHA1 img = "hell"%string).
Proof.
  split; [reflexivity|]. split; [reflexivity|]. split.
  - exact (proj2 (with_sample ImagerProofs.ParseUpload_store
                    (SampleUpload.upload ["5"%string] "hello")) eq_refl).
  - intros img Hin.
    destruct (proj1 (with_sample ImagerProofs.ParseUpload_store
                       (SampleUpload.upload ["5"%string] "hello")) img Hin)
      as (file & sha & Hfile & Hsha & _ & Himg).
    rewrite Himg. inversion Hfile; subst file. inversion Hsha. reflexivity.
Defined.

Lemma NewImageUpload_response_witness :
  error_of (sample_ParseUpload (SampleUpload.upload ["5"%string] "hello")) = None /\
  error_of (sample_ParseUpload (SampleUpload.upload ["5000"%string] "hello"))
  = Some errTooLarge /\
  Http.body (sample_NewImageUpload Server.fresh_response
               (SampleUpload.upload ["5"%string] "hello")).1
  = bytes_of_string "tok" /\
  Http.status (sample_NewImageUpload Server.fresh_response
                 (SampleUpload.upload ["5000"%string] "hello")).1 = 400 /\
  Http.body (sample_NewImageUpload Server.fresh_response
               (SampleUpload.upload ["5000"%string] "hello")).1
  = bytes_of_string "file too large" ++ [x0a].
Proof.
  split; [reflexivity|]. split; [reflexivity|]. split; [|split].
  - exact (proj1 (proj2 (proj2
             (with_sample ImagerProofs.NewImageUpload_response
                SampleUpload.library_text SampleUpload.sniffed_headers
                (SampleUpload.upload ["5"%string] "hello")))) eq_refl).
  - exact (proj1 (with_sample ImagerProofs.NewImageUpload_response
                    SampleUpload.library_text SampleUpload.sniffed_headers
                    (SampleUpload.upload ["5000"%string] "hello"))).
  - exact (proj2 (proj2 (proj2
             (with_sample ImagerProofs.NewImageUpload_response
                SampleUpload.library_text SampleUpload.sniffed_headers
                (SampleUpload.upload ["5000"%string] "hello"))))
             errTooLarge eq_refl).
Defined.

Lemma UploadImageHash_lookup_witness :
  (40 < length (Body (SampleUpload.upload []
                        "0123456789012345678901234567890123456789x")))%nat /\
  (length (Body (SampleUpload.upload [] "hello")) <= 40)%nat /\
  (SampleUpload.db_GetImage
     (string_of_bytes (Body (SampleUpload.upload [] "hello")))).2
  = Some ErrNoRows /\
  (sample_UploadImageHash Server.fresh_response
     (SampleUpload.upload [] "0123456789012345678901234567890123456789x")).2
  = [] /\
  sample_UploadImageHash Server.fresh_response (SampleUpload.upload [] "hello")
  = (Server.fresh_response, [GetImage "hello"]) /\
  Http.body (sample_UploadImageHash Server.fresh_response
               (SampleUpload.upload [] "seen")).1
  = bytes_of_string "tok".
Proof.
  assert (Hlong : (40 < length (Body (SampleUpload.upload []
                     "0123456789012345678901234567890123456789x")))%nat)
    by (cbn; lia).
  assert (Hshort : (length (Body (SampleUpload.upload [] "hello")) <= 40)%nat)
    by (cbn; lia).
  split; [exact Hlong|]. split; [exact Hshort|]. split; [reflexivity|].
  split; [|split].
  - rewrite (proj1 (ImagerProofs.UploadImageHash_lookup
               SampleUpload.db_GetImage SampleUpload.db_NewImageToken
               SampleUpload.library_text SampleUpload.sniffed_headers
               Server.fresh_response
               (SampleUpload.upload []
                  "0123456789012345678901234567890123456789x")) Hlong).
    reflexivity.
  - exact (proj1 (proj2 (ImagerProofs.UploadImageHash_lookup
               SampleUpload.db_GetImage SampleUpload.db_NewImageToken
               SampleUpload.library_text SampleUpload.sniffed_headers
               Server.fresh_response
               (SampleUpload.upload [] "hello"))) Hshort eq_refl).
  - destruct (proj2 (proj2 (ImagerProofs.UploadImageHash_lookup
               SampleUpload.db_GetImage SampleUpload.db_NewImageToken
               SampleUpload.library_text SampleUpload.sniffed_headers
               Server.fresh_response
               (SampleUpload.upload [] "seen"))) "seen"%string)
      as (_ & _ & _ & Hbody).
    + vm_compute. apply list_elem_of_further, list_elem_of_here.
    + exact Hbody.
Defined.

Lemma processFile_record_witness :
  (SampleUpload.thumbnailer_Process (bytes_of_string "hello")).2
  = Some ErrNoThumb /\
  failure_of (sample_processFile (bytes_of_string "hello")
                (set_SHA1 "hell" SampleUpload.blank)) = None /\
  Dims (image_of (sample_processFile (bytes_of_string "hello")
                    (set_SHA1 "hell" SampleUpload.blank)))
  = [4464; 100; 0; 0] /\
  ThumbType (image_of (sample_processFile (bytes_of_string "hello")
                         (set_SHA1 "hell" SampleUpload.blank))) = 14 /\
  SHA1 (image_of (sample_processFile (bytes_of_string "hello")
                    (set_SHA1 "hell" SampleUpload.blank))) = "hell"%string.
Proof.
  pose proof (ImagerProofs.processFile_record 0 1 2 3 4 5 6 7 8 9 10 11 12 13 14
                (list byte) SampleUpload.thumbnailer_Process SampleUpload.Seek
                SampleUpload.ReadFrom SampleUpload.apng_Detect
                SampleUpload.md5_base64 (bytes_of_string "hello")
                (set_SHA1 "hell" SampleUpload.blank))
    as (Hsha & _ & Hok & Hfields).
  split; [reflexivity|].
  split; [exact (Hok eq_refl eq_refl eq_refl)|].
  destruct (Hfields (Hok eq_refl eq_refl eq_refl))
    as (d & _ & _ & _ & _ & _ & _ & Hthumb).
  split; [reflexivity|]. split; [exact (Hthumb eq_refl)|]. exact Hsha.
Defined.

Lemma isTar_first_read_witness :
  read_error SampleUpload.tar_reader = false /\
  (length (delivered SampleUpload.short_reader) < 262)%nat /\
  isTar SampleUpload.tar_reader = true /\
  isTar SampleUpload.short_reader = false.
Proof.
  split; [reflexivity|].
  assert (Hshort : (length (delivered SampleUpload.short_reader) < 262)%nat)
    by (cbn; lia).
  split; [exact Hshort|]. split.
  - apply (proj1 (ArchiveProofs.isTar_first_read SampleUpload.tar_reader)).
    split; [reflexivity|].
    exists (replicate 257 x00), [x00; x30]. split; reflexivity.
  - exact (proj2 (ArchiveProofs.isTar_first_read SampleUpload.short_reader) Hshort).
Defined.

Lemma archive_detectors_exclusive_witness :
  detectZip [x50; x4b; x03; x04; x14] = true /\
  detect7z [x50; x4b; x03; x04; x14] = false /\
  detectTarGZ (fun _ => Some SampleUpload.tar_reader) [x50; x4b; x03; x04; x14]
  = false /\
  detectTarXZ (fun _ => Some SampleUpload.tar_reader) [x50; x4b; x03; x04; x14]
  = false.
Proof.
  split; [reflexivity|].
  exact (proj1 (proj2 (ArchiveProofs.archive_detectors_exclusive
                         (fun _ => Some SampleUpload.tar_reader)
                         (fun _ => Some SampleUpload.tar_reader)
                         [x50; x4b; x03; x04; x14])) eq_refl).
Defined.

End UploadInstances.

Module BatchInstances.
Import Batch.

Lemma scheduler_consistent_witness :
  readStack (run [Write [Dom 1; CallRead [Dom 2]]; Frame])
  ++ writeStack (run [Write [Dom 1; CallRead [Dom 2]]; Frame]) <> [] /\
  frames (run [Write [Dom 1; CallRead [Dom 2]]; Frame]) = 1%nat /\
  effects (run [Write [Dom 1; CallRead [Dom 2]]; Frame; Frame; Frame]) = [1; 2]%nat.
Proof.
  assert (Hq : readStack (run [Write [Dom 1; CallRead [Dom 2]]; Frame])
               ++ writeStack (run [Write [Dom 1; CallRead [Dom 2]]; Frame]) <> [])
    by discriminate.
  split; [exact Hq|]. split; [|reflexivity].
  exact (proj2 (proj2 (BatchProofs.scheduler_consistent
                         [Write [Dom 1; CallRead [Dom 2]]; Frame])) Hq).
Defined.

(** Two writes and a read are queued; in the second state the first write
    throws after its first effect. *)
Lemma flush_writes_before_reads_witness :
  existsb throws
    (writeStack (run [Read [Dom 3]; Write [Dom 1; CallRead [Dom 4]]; Write [Dom 2]])
     ++ readStack (run [Read [Dom 3]; Write [Dom 1; CallRead [Dom 4]]; Write [Dom 2]]))
  = false /\
  effects (flush (run [Read [Dom 3]; Write [Dom 1; CallRead [Dom 4]];
                       Write [Dom 2]])).1
  = [1; 2; 3]%nat /\
  readStack (flush (run [Read [Dom 3]; Write [Dom 1; CallRead [Dom 4]];
                         Write [Dom 2]])).1
  = [[Dom 4]] /\
  existsb throws
    (writeStack (run [Read [Dom 3]; Write [Dom 1; Throw; CallRead [Dom 4]];
                      Write [Dom 2]]))
  = true /\
  (flush (run [Read [Dom 3]; Write [Dom 1; Throw; CallRead [Dom 4]];
               Write [Dom 2]])).2 = true /\
  effects (flush (run [Read [Dom 3]; Write [Dom 1; Throw; CallRead [Dom 4]];
                       Write [Dom 2]])).1
  = [1]%nat /\
  writeStack (flush (run [Read [Dom 3]; Write [Dom 1; Throw; CallRead [Dom 4]];
                          Write [Dom 2]])).1
  = [] /\
  readStack (flush (run [Read [Dom 3]; Write [Dom 1; Throw; CallRead [Dom 4]];
                         Write [Dom 2]])).1
  = [].
Proof.
  split; [reflexivity|].
  destruct (proj1 (proj2 (BatchProofs.flush_writes_before_reads
                            (run [Read [Dom 3]; Write [Dom 1; CallRead [Dom 4]];
                                  Write [Dom 2]]))) eq_refl)
    as (_ & He & _ & Hr).
  split; [exact He|]. split; [exact Hr|]. split; [reflexivity|].
  exact (proj2 (proj2 (BatchProofs.flush_writes_before_reads
                         (run [Read [Dom 3];
                               Write [Dom 1; Throw; CallRead [Dom 4]];
                               Write [Dom 2]]))) eq_refl).
Defined.

Lemma queued_operation_runs_witness :
  existsb throws
    (writeStack (run [Read [Dom 3]; Write [Dom 1]])
     ++ [Dom 2] :: readStack (run [Read [Dom 3]; Write [Dom 1]]))
  = false /\
  effects (frame (write [Dom 2] (run [Read [Dom 3]; Write [Dom 1]])))
  = [1; 2; 3]%nat /\
  existsb throws (writeStack (run [Read [Dom 3]; Write [Dom 1; Throw]])) = true /\
  frame (write [Dom 2] (run [Read [Dom 3]; Write [Dom 1; Throw]]))
  = frame (run [Read [Dom 3]; Write [Dom 1; Throw]]) /\
  effects (frame (run [Read [Dom 3]; Write [Dom 1; Throw]])) = [1]%nat /\
  writeStack (frame (run [Read [Dom 3]; Write [Dom 1; Throw]])) = [] /\
  effects (frame (read [Dom 2] (run [Read [Dom 3]; Write [Dom 1]])))
  = [1; 3; 2]%nat /\
  existsb throws
    (writeStack (run [Read [Dom 3; Throw]; Write [Dom 1]])
     ++ readStack (run [Read [Dom 3; Throw]; Write [Dom 1]]))
  = true /\
  frame (read [Dom 2] (run [Read [Dom 3; Throw]; Write [Dom 1]]))
  = frame (run [Read [Dom 3; Throw]; Write [Dom 1]]) /\
  effects (frame (run [Read [Dom 3; Throw]; Write [Dom 1]])) = [1; 3]%nat.
Proof.
  split; [reflexivity|]. split.
  - exact (proj1 (BatchProofs.queued_operation_runs
                    [Read [Dom 3]; Write [Dom 1]] [Dom 2]) eq_refl).
  - split; [reflexivity|]. split; [|split; [reflexivity|split; [reflexivity|]]].
    + exact (proj1 (proj2 (proj2 (BatchProofs.queued_operation_runs
                                    [Read [Dom 3]; Write [Dom 1; Throw]]
                                    [Dom 2])))
               eq_refl).
    + split; [|split; [reflexivity|split; [|reflexivity]]].
      * exact (proj1 (proj2 (BatchProofs.queued_operation_runs
                               [Read [Dom 3]; Write [Dom 1]] [Dom 2]))
                 eq_refl).
      * exact (proj2 (proj2 (proj2 (BatchProofs.queued_operation_runs
                                      [Read [Dom 3; Throw]; Write [Dom 1]]
                                      [Dom 2])))
                 eq_refl).
Defined.

End BatchInstances.
